(** * DanceOnDaGo: choreography sequencing and real-time pose scoring

    A shallow embedding of
      - [backend/nn/data_analyzer.py]        (class [DanceMoveSampler]),
      - [backend/nn/scoring/real_time_pose_scorer.py] (class [RealTimePoseScorer]),
        and
      - [backend/nn/keypoint_data_loader.py] (class [KeypointDataLoader]),
    followed by the properties established about them.

    Conventions of the embedding.
      - A Python [float] is an exact rational ([Q]); the non-finite values the
        code produces or tests for ([inf], [nan]) are explicit constructors
        of [xfloat].  The coordinates of the poses a scorer is given are
        finite numbers.  The rounding of binary64 arithmetic is modelled
        in the alignment of the reference ([Py.round64] after each
        operation on timestamps) and in the timestamps the scorer
        generates.  Elsewhere the operations are exact, and a statement
        that depends on it says so.
      - A Python exception is [None] in the [option] monad, at the place
        where the interpreter would raise; a [try/except] is a [match].
      - [random] and the file system are oracles read through a call counter,
        so that two calls may answer differently. *)

From Stdlib Require Import ZArith QArith Qround Qpower Lqa Lia.
From Stdlib Require Import Ascii String Bool Arith List.
From Stdlib Require PrimFloat SpecFloat FloatOps.
Import ListNotations.

Local Open Scope Q_scope.

(* ===================================================================== *)
(** * Part I.  The embedding                                              *)
(* ===================================================================== *)

(** ** Python and numpy arithmetic on rationals *)

Module Py.

Definition Qlt_bool (a b : Q) : bool := negb (Qle_bool b a).

(** [int(x)] on a float: truncation toward zero. *)
Definition int (x : Q) : Z := Z.quot (Qnum x) (Zpos (Qden x)).

(** [min(a, b)] and [max(a, b)]: the first argument is kept unless the
    second is strictly better. *)
Definition min2 (a b : Q) : Q := if Qlt_bool b a then b else a.
Definition max2 (a b : Q) : Q := if Qlt_bool a b then b else a.

(** [min(xs)] and [max(xs)] of a list whose head is [a]. *)
Definition min_list (a : Q) (xs : list Q) : Q := fold_left min2 xs a.
Definition max_list (a : Q) (xs : list Q) : Q := fold_left max2 xs a.

(** *** Binary64 rounding

    [round64 x] is the binary64 number nearest to the real [x], ties going
    to the even significand: the result of an operation of the code whose
    exact result is [x].  The significand has 53 bits, the least unit is
    2^-1074; results of magnitude 2^1024 and more, which are infinite in
    binary64, are left out. *)

(** For [q > 0], the exponent [e] with [2^e <= q < 2^(e+1)]. *)
Definition ilog2 (q : Q) : Z :=
  let c := (Z.log2 (Qnum q) - Z.log2 (Zpos (Qden q)))%Z in
  if Qle_bool (2 ^ c) q then c else (c - 1)%Z.

Definition round_half_even (x : Q) : Z :=
  let f := Qfloor x in
  let r := x - inject_Z f in
  if Qlt_bool r (1 # 2) then f
  else if Qlt_bool (1 # 2) r then (f + 1)%Z
  else if Z.even f then f else (f + 1)%Z.

Definition round_positive (q : Q) : Q :=
  let unit := 2 ^ Z.max (ilog2 q - 52) (-1074) in
  inject_Z (round_half_even (q / unit)) * unit.

Definition round64 (x : Q) : Q :=
  let q := Qred x in
  if Qeq_bool q 0 then 0
  else if Qlt_bool 0 q then Qred (round_positive q)
  else Qred (- round_positive (- q)).

(** [x % d] on floats.  C's [fmod] is exact and takes the sign of [x];
    Python adds [d] to it, which rounds, when the signs of the remainder
    and of [d] differ, so that the result takes the sign of [d].
    [ZeroDivisionError] when [d] is zero. *)
Definition fmod (x d : Q) : option Q :=
  if Qeq_bool d 0 then None
  else
    let m := x - d * inject_Z (int (x / d)) in
    if Qeq_bool m 0 then Some 0
    else if xorb (Qlt_bool d 0) (Qlt_bool m 0) then Some (round64 (m + d))
    else Some m.

(** [x / d] on floats: [ZeroDivisionError] when [d] is zero. *)
Definition fdiv (x d : Q) : option Q :=
  if Qeq_bool d 0 then None else Some (x / d).

(** Truthiness of a string: empty strings are falsy. *)
Definition truthy (s : string) : bool :=
  match s with EmptyString => false | _ => true end.

Definition sumQ (xs : list Q) : Q := fold_right Qplus 0 xs.

Definition lenQ {A} (xs : list A) : Q := inject_Z (Z.of_nat (length xs)).

(** [np.mean(xs)] (only applied to non-empty lists). *)
Definition mean (xs : list Q) : Q := sumQ xs / lenQ xs.

(** [np.clip(x, lo, hi)] on a finite value. *)
Definition clip (x lo hi : Q) : Q := min2 (max2 x lo) hi.

End Py.

(** Floats that may be non-finite. *)
Inductive xfloat : Type :=
| Fin (q : Q)
| PInf
| NInf
| NaN.

Definition is_nan (x : xfloat) : bool :=
  match x with NaN => true | _ => false end.

(** The weight normalization of [DanceMoveSampler.__init__] once more, in
    binary64 arithmetic, to see what rounding does to it. *)
Module Binary64.

Import PrimFloat.

Definition normalized_weights (amplitude_weight bpm_weight : PrimFloat.float)
  : PrimFloat.float * PrimFloat.float :=
  let total_weight := PrimFloat.add amplitude_weight bpm_weight in
  (PrimFloat.div amplitude_weight total_weight,
   PrimFloat.div bpm_weight total_weight).

Definition weight_sum (amplitude_weight bpm_weight : PrimFloat.float)
  : PrimFloat.float :=
  let (a, b) := normalized_weights amplitude_weight bpm_weight in
  PrimFloat.add a b.

(** The rational that a finite binary64 number stands for. *)
Definition to_Q (f : PrimFloat.float) : option Q :=
  match FloatOps.Prim2SF f with
  | SpecFloat.S754_zero _ => Some 0
  | SpecFloat.S754_finite s m e =>
      Some (Qred ((if s then -1 else 1) * inject_Z (Zpos m) * 2 ^ e))
  | _ => None
  end.

(** [timestamp - start], the remainder by a duration that fits once
    ([fmod] is exact, and is this subtraction then), the division by the
    duration and the product with the number of poses, as in
    [find_best_reference_match]. *)
Definition progress_product
           (timestamp start ref_duration count : PrimFloat.float)
  : PrimFloat.float :=
  let elapsed_time := PrimFloat.sub timestamp start in
  let remainder := PrimFloat.sub elapsed_time ref_duration in
  let progress := PrimFloat.div remainder ref_duration in
  PrimFloat.mul progress count.

(** [segment_duration * frame_rate], before [int] truncates it. *)
Definition frames_product (segment_duration frame_rate : PrimFloat.float)
  : PrimFloat.float :=
  PrimFloat.mul segment_duration frame_rate.

(** The y coordinate [(y - center) / height] of [normalize_pose] for a
    box from [lo] to [hi]. *)
Definition normalized_y (y lo hi : PrimFloat.float) : PrimFloat.float :=
  let height := PrimFloat.sub hi lo in
  let center := PrimFloat.div (PrimFloat.add lo hi) 2 in
  PrimFloat.div (PrimFloat.sub y center) height.

End Binary64.

(* ===================================================================== *)
(** ** [data_analyzer.py]                                                 *)
(* ===================================================================== *)

Module Sampler.

Inductive DanceIntensity : Type := LOW | MEDIUM | HIGH.

Definition intensity_eqb (a b : DanceIntensity) : bool :=
  match a, b with
  | LOW, LOW | MEDIUM, MEDIUM | HIGH, HIGH => true
  | _, _ => false
  end.

(** [DanceIntensity.value] *)
Definition value (i : DanceIntensity) : string :=
  match i with
  | LOW => "low"%string
  | MEDIUM => "medium"%string
  | HIGH => "high"%string
  end.

Record DanceMoveSampler : Type := mkSampler {
  amplitude_weight : Q;
  bpm_weight : Q;
  segment_duration : Q;
  transition_smoothing : Q
}.

(** [DanceMoveSampler.__init__]: the two weights are divided by their sum;
    the division raises when the sum is zero. *)
Definition init (amplitude_weight bpm_weight segment_duration
                 transition_smoothing : Q) : option DanceMoveSampler :=
  let total_weight := amplitude_weight + bpm_weight in
  match Py.fdiv amplitude_weight total_weight,
        Py.fdiv bpm_weight total_weight with
  | Some aw, Some bw =>
      Some (mkSampler aw bw segment_duration transition_smoothing)
  | _, _ => None
  end.

(** [normalize_features] *)
Definition normalize_bpm (bpm : Q) : Q :=
  let norm_bpm := (bpm - 60) / (200 - 60) in
  Py.max2 0 (Py.min2 1 norm_bpm).

Definition normalize_amplitudes (amplitudes : list Q) : list Q :=
  match amplitudes with
  | [] => []
  | a :: rest =>
      let min_amp := Py.min_list a rest in
      let max_amp := Py.max_list a rest in
      if Py.Qlt_bool min_amp max_amp
      then map (fun x => (x - min_amp) / (max_amp - min_amp)) amplitudes
      else repeat (1 # 2) (length amplitudes)
  end.

Definition normalize_features (amplitudes bpms : list Q)
  : list Q * list Q :=
  (normalize_amplitudes amplitudes, map normalize_bpm bpms).

(** [calculate_intensity_score] *)
Definition calculate_intensity_score (self : DanceMoveSampler)
           (norm_amplitude norm_bpm : Q) : Q :=
  amplitude_weight self * norm_amplitude + bpm_weight self * norm_bpm.

(** The threshold test of [sample_dance_moves_for_song] (the [if]/[elif]
    on [score] at the head of the segment loop). *)
Definition classify_intensity (score low_threshold high_threshold : Q)
  : DanceIntensity :=
  if Qle_bool score low_threshold then LOW
  else if Qle_bool high_threshold score then HIGH
  else MEDIUM.

(** [get_dances_by_intensity]: the files whose position carries the wanted
    label, for the positions both lists have. *)
Fixpoint get_dances_by_intensity (intensity : DanceIntensity)
         (available_dances : list string)
         (intensity_mappings : list DanceIntensity) : list string :=
  match intensity_mappings, available_dances with
  | dance_intensity :: ms, d :: ds =>
      if intensity_eqb dance_intensity intensity
      then d :: get_dances_by_intensity intensity ds ms
      else get_dances_by_intensity intensity ds ms
  | _, _ => []
  end.

(** *** Keypoint arrays *)

(** One pose: an array (joints, coords). *)
Definition Pose : Type := list (list xfloat).

(** [np.isnan(pose).any()] *)
Definition has_nan (pose : Pose) : bool := existsb (existsb is_nan) pose.

(** What [load_keypoint_file] returns, by rank.  [Arr4 n cams] has shape
    (len cams, n, joints, coords) and every camera holds [n] poses;
    [Arr3 frames] has shape (len frames, joints, coords); [ArrOther] is an
    array of any other rank. *)
Inductive Keypoints : Type :=
| Arr4 (nframes : nat) (cams : list (list Pose))
| Arr3 (frames : list Pose)
| ArrOther.

(** The frame count the sequencing loop reads off the shape. *)
Definition num_frames (raw_keypoints : Keypoints) : Z :=
  match raw_keypoints with
  | Arr4 n _ => Z.of_nat n
  | Arr3 frames => Z.of_nat (length frames)
  | ArrOther => 1
  end.

(** [raw_keypoints[0, i]] on a rank-4 array, [raw_keypoints[i]] otherwise;
    [None] is [IndexError]. *)
Definition frame_at (raw_keypoints : Keypoints) (i : Z) : option Pose :=
  match raw_keypoints with
  | Arr4 _ cams =>
      match cams with
      | [] => None
      | cam0 :: _ => nth_error cam0 (Z.to_nat i)
      end
  | Arr3 frames => nth_error frames (Z.to_nat i)
  | ArrOther => None
  end.

(** The pose written when no clean frame is near: 17 joints, 3 columns. *)
Definition default_pose : Pose :=
  let z := [Fin 0; Fin 0; Fin 0] in
  let j (x y : Z) := [Fin (inject_Z x); Fin (inject_Z y); Fin (9 # 10)] in
  [ j 500 200; j 490 210; j 510 210; z; z;
    j 480 300; j 520 300; z; z; z; z;
    j 480 500; j 520 500; z; z; z; z ]%Z.

(** *** Collaborators *)

(** Everything the run reads from outside.  The two loaders and [random]
    are indexed by the number of calls made before, so a file may load at
    one call and fail at the next. *)
Record World : Type := mkWorld {
  (** [load_intensity_mappings()] *)
  intensity_mappings : list DanceIntensity;
  (** [get_available_dance_files()] *)
  available_dances : list string;
  (** [KeypointDataLoader.load_keypoint_file]; [None] as in the source. *)
  load_keypoint_file : nat -> string -> option Keypoints;
  (** [KeypointDataLoader.load_dance_sequence]: the frame count of the
      sequence ([keypoints.shape[0]]), [None] when it returns [None] or
      raises. *)
  load_dance_sequence : nat -> string -> option nat;
  (** The [n]-th number drawn from [random]. *)
  random_draw : nat -> nat;
  (** [load_audio]: the length of the song in seconds, [len(audio) / sr],
      [None] when loading raises. *)
  load_audio : string -> option Q;
  (** [analyze_amplitude] and [analyze_bpm] of a window of the song,
      taken as total. *)
  analyze_amplitude : Q -> Q -> Q;
  analyze_bpm : Q -> Q -> Q
}.

(** *** Output records *)

Module Frame.
Record t : Type := mk {
  frame_number : nat;
  time : Q;
  dance_file : option string;
  dance_frame : Z;
  intensity : string;
  pose_data : option Pose
}.
End Frame.

(** *** Local variables of [sample_dance_moves_for_song]

    [None] in [segment_duration_local] and [candidate_pose] is an unbound
    local; [rng] and [io] count the draws and the file loads so far. *)
Record Locals : Type := mkLocals {
  pose_sequence : list Frame.t;
  current_dance_file : option string;
  current_dance_duration : Q;
  current_dance_elapsed : Q;
  current_intensity : option DanceIntensity;
  frame_number : nat;
  segment_duration_local : option Q;
  candidate_pose : option Pose;
  selected_dance : option string;
  rng : nat;
  io : nat
}.

Definition initial_locals : Locals :=
  mkLocals [] None 0 0 None 0 None None None 0 0.

Definition tick_io (st : Locals) : Locals :=
  mkLocals (pose_sequence st) (current_dance_file st)
           (current_dance_duration st) (current_dance_elapsed st)
           (current_intensity st) (frame_number st)
           (segment_duration_local st) (candidate_pose st)
           (selected_dance st) (rng st) (S (io st)).

Definition tick_rng (st : Locals) : Locals :=
  mkLocals (pose_sequence st) (current_dance_file st)
           (current_dance_duration st) (current_dance_elapsed st)
           (current_intensity st) (frame_number st)
           (segment_duration_local st) (candidate_pose st)
           (selected_dance st) (S (rng st)) (io st).

Definition set_selected_dance (d : string) (st : Locals) : Locals :=
  mkLocals (pose_sequence st) (current_dance_file st)
           (current_dance_duration st) (current_dance_elapsed st)
           (current_intensity st) (frame_number st)
           (segment_duration_local st) (candidate_pose st)
           (Some d) (rng st) (io st).

Definition clear_current_dance (st : Locals) : Locals :=
  mkLocals (pose_sequence st) None
           (current_dance_duration st) (current_dance_elapsed st)
           (current_intensity st) (frame_number st)
           (segment_duration_local st) (candidate_pose st)
           (selected_dance st) (rng st) (io st).

(** The four assignments made when a dance is taken. *)
Definition set_current_dance (d : string) (duration : Q)
           (intensity : DanceIntensity) (st : Locals) : Locals :=
  mkLocals (pose_sequence st) (Some d) duration 0 (Some intensity)
           (frame_number st) (segment_duration_local st)
           (candidate_pose st) (selected_dance st) (rng st) (io st).

Definition set_candidate_pose (c : option Pose) (st : Locals) : Locals :=
  mkLocals (pose_sequence st) (current_dance_file st)
           (current_dance_duration st) (current_dance_elapsed st)
           (current_intensity st) (frame_number st)
           (segment_duration_local st) c
           (selected_dance st) (rng st) (io st).

Definition set_segment_duration (d : Q) (st : Locals) : Locals :=
  mkLocals (pose_sequence st) (current_dance_file st)
           (current_dance_duration st) (current_dance_elapsed st)
           (current_intensity st) (frame_number st)
           (Some d) (candidate_pose st)
           (selected_dance st) (rng st) (io st).

(** [pose_sequence.append(...)] followed by [frame_number += 1]. *)
Definition append_frame (r : Frame.t) (st : Locals) : Locals :=
  mkLocals (pose_sequence st ++ [r]) (current_dance_file st)
           (current_dance_duration st) (current_dance_elapsed st)
           (current_intensity st) (S (frame_number st))
           (segment_duration_local st) (candidate_pose st)
           (selected_dance st) (rng st) (io st).

(** [current_dance_elapsed += segment_duration] *)
Definition add_elapsed (d : Q) (st : Locals) : Locals :=
  mkLocals (pose_sequence st) (current_dance_file st)
           (current_dance_duration st) (current_dance_elapsed st + d)
           (current_intensity st) (frame_number st)
           (segment_duration_local st) (candidate_pose st)
           (selected_dance st) (rng st) (io st).

(** *** [random] *)

(** [random.choice(xs)]: [IndexError] on an empty list. *)
Definition random_choice (w : World) (xs : list string) (st : Locals)
  : option (string * Locals) :=
  match xs with
  | [] => None
  | x :: _ =>
      Some (nth (random_draw w (rng st) mod length xs) xs x, tick_rng st)
  end.

(** [random.randint(0, n - 1)] for a positive [n]. *)
Definition random_randint (w : World) (n : nat) (st : Locals)
  : nat * Locals :=
  (random_draw w (rng st) mod n, tick_rng st)%nat.

(** *** Choosing a dance *)

Definition high_dances (w : World) : list string :=
  get_dances_by_intensity HIGH (available_dances w) (intensity_mappings w).
Definition medium_dances (w : World) : list string :=
  get_dances_by_intensity MEDIUM (available_dances w) (intensity_mappings w).
Definition low_dances (w : World) : list string :=
  get_dances_by_intensity LOW (available_dances w) (intensity_mappings w).

Definition nonempty {A} (xs : list A) : bool :=
  match xs with [] => false | _ => true end.

(** The [if]/[elif] cascade that picks from the list of the wanted
    intensity, or from every dance when that list is empty. *)
Definition choose_dance (w : World) (intensity : DanceIntensity)
           (st : Locals) : option (string * Locals) :=
  if intensity_eqb intensity HIGH && nonempty (high_dances w)
  then random_choice w (high_dances w) st
  else if intensity_eqb intensity MEDIUM && nonempty (medium_dances w)
  then random_choice w (medium_dances w) st
  else if intensity_eqb intensity LOW && nonempty (low_dances w)
  then random_choice w (low_dances w) st
  else random_choice w (available_dances w) st.

(** [get_dance_duration]: frames over the sequence's frame rate (30.0),
    5.0 when the sequence does not load. *)
Definition get_dance_duration (w : World) (dance_filename : string)
           (st : Locals) : Q * Locals :=
  (match load_dance_sequence w (io st) dance_filename with
   | Some frames => inject_Z (Z.of_nat frames) / 30
   | None => 5
   end, tick_io st).

(** The loop that samples [k] random frames and counts those with a NaN;
    the count is [None] when indexing raises. *)
Fixpoint count_nan_samples (w : World) (raw_keypoints : Keypoints)
         (n k nan_count : nat) (st : Locals) : option nat * Locals :=
  match k with
  | O => (Some nan_count, st)
  | S k' =>
      let (frame_idx, st1) := random_randint w n st in
      match frame_at raw_keypoints (Z.of_nat frame_idx) with
      | None => (None, st1)
      | Some sample_pose =>
          count_nan_samples w raw_keypoints n k'
            (if has_nan sample_pose then S nan_count else nan_count) st1
      end
  end.

(** One pass of the retry loop.  The outer [None] is an exception that
    leaves the function; the boolean tells whether the loop [break]s. *)
Definition try_dance (w : World) (intensity : DanceIntensity) (st : Locals)
  : option (bool * Locals) :=
  match choose_dance w intensity st with
  | None => None
  | Some (d, st1) =>
      let st2 := set_selected_dance d st1 in
      let raw_keypoints := load_keypoint_file w (io st2) d in
      let st3 := tick_io st2 in
      match raw_keypoints with
      | None => Some (false, st3)
      | Some ArrOther => Some (false, st3)
      | Some kp =>
          let n := Z.to_nat (num_frames kp) in
          let sample_frames := Nat.min 10 n in
          match count_nan_samples w kp n sample_frames 0 st3 with
          | (None, st4) => Some (false, st4)
          | (Some nan_count, st4) =>
              match Py.fdiv (inject_Z (Z.of_nat nan_count))
                            (inject_Z (Z.of_nat sample_frames)) with
              | None => Some (false, st4)
              | Some ratio =>
                  if Py.Qlt_bool ratio (3 # 10)
                  then
                    let (duration, st5) := get_dance_duration w d st4 in
                    Some (true, set_current_dance d duration intensity st5)
                  else Some (false, st4)
              end
          end
      end
  end.

Fixpoint retry_loop (w : World) (intensity : DanceIntensity)
         (retries : nat) (st : Locals) : option Locals :=
  match retries with
  | O => Some st
  | S r =>
      match try_dance w intensity st with
      | None => None
      | Some (true, st1) => Some st1
      | Some (false, st1) => retry_loop w intensity r st1
      end
  end.

Definition max_retries : nat := 10.

(** The body of [if need_new_dance:]. *)
Definition select_new_dance (w : World) (intensity : DanceIntensity)
           (st : Locals) : option Locals :=
  match retry_loop w intensity max_retries (clear_current_dance st) with
  | None => None
  | Some st1 =>
      match current_dance_file st1 with
      | Some _ => Some st1
      | None =>
          match choose_dance w intensity st1 with
          | None => None
          | Some (d, st2) =>
              let (duration, st3) := get_dance_duration w d st2 in
              Some (set_current_dance d duration intensity st3)
          end
      end
  end.

Definition intensity_differs (intensity : DanceIntensity)
           (current : option DanceIntensity) : bool :=
  match current with
  | Some c => negb (intensity_eqb intensity c)
  | None => true
  end.

(** The decision [need_new_dance] of one segment. *)
Definition need_new_dance (w : World) (frame_rate : Q)
           (intensity : DanceIntensity) (st : Locals) : bool * Locals :=
  match current_dance_file st with
  | None => (true, st)
  | Some f =>
      if Qle_bool (current_dance_duration st) (current_dance_elapsed st)
      then (true, st)
      else if intensity_differs intensity (current_intensity st)
              && Py.Qlt_bool 2 (current_dance_elapsed st)
      then (true, st)
      else if Py.truthy f
      then
        let raw_keypoints := load_keypoint_file w (io st) f in
        let st1 := tick_io st in
        match raw_keypoints, segment_duration_local st with
        | Some kp, Some segment_duration =>
            let frames_needed := Py.int (segment_duration * frame_rate) in
            let current_frame_index :=
              Py.int (current_dance_elapsed st * frame_rate) in
            ((num_frames kp <=? current_frame_index + frames_needed)%Z, st1)
        | _, _ => (false, st1)
        end
      else (false, st)
  end.

(** *** Resolving the pose of one frame *)

(** The inner loop [for direction in [1, -1]]: the outer [None] is an
    [IndexError], [Some None] is "nothing clean at this offset". *)
Fixpoint try_directions (raw_keypoints : Keypoints) (n dance_frame : Z)
         (offset : Z) (directions : list Z) : option (option Pose) :=
  match directions with
  | [] => Some None
  | direction :: rest =>
      let try_frame := ((dance_frame + offset * direction) mod n)%Z in
      match frame_at raw_keypoints try_frame with
      | None => None
      | Some try_pose =>
          if negb (has_nan try_pose) then Some (Some try_pose)
          else try_directions raw_keypoints n dance_frame offset rest
      end
  end.

(** The outer loop [for offset in range(1, min(50, num_frames))]. *)
Fixpoint search_offsets (raw_keypoints : Keypoints) (n dance_frame : Z)
         (offsets : list Z) : option (option Pose) :=
  match offsets with
  | [] => Some None
  | offset :: rest =>
      match try_directions raw_keypoints n dance_frame offset [1; -1]%Z with
      | None => None
      | Some (Some pose_data) => Some (Some pose_data)
      | Some None => search_offsets raw_keypoints n dance_frame rest
      end
  end.

(** [range(1, stop)] *)
Definition range1 (stop : Z) : list Z :=
  map Z.of_nat (seq 1 (Z.to_nat stop - 1)).

Definition find_clean_frame (raw_keypoints : Keypoints) (n dance_frame : Z)
  : option (option Pose) :=
  search_offsets raw_keypoints n dance_frame (range1 (Z.min 50 n)).

(** The [try] block of the frame loop, for the dance file [f] and the raw
    index [dance_frame]: the index and the pose that end up in the record.
    Every exception leaves [pose_data] at [None] and keeps what was
    assigned before it. *)
Definition load_pose (w : World) (f : string) (dance_frame : Z)
           (st : Locals) : Z * option Pose * Locals :=
  let raw_keypoints := load_keypoint_file w (io st) f in
  let st1 := tick_io st in
  match raw_keypoints with
  | None => (dance_frame, None, st1)
  | Some kp =>
      let n := num_frames kp in
      if (0 <? n)%Z then
        let dance_frame := (dance_frame mod n)%Z in
        let assigned :=
          match kp with
          | ArrOther => Some st1
          | _ =>
              match frame_at kp dance_frame with
              | None => None
              | Some c => Some (set_candidate_pose (Some c) st1)
              end
          end in
        match assigned with
        | None => (dance_frame, None, st1)
        | Some st2 =>
            match candidate_pose st2 with
            | None => (dance_frame, None, st2)
            | Some c =>
                if negb (has_nan c) then (dance_frame, Some c, st2)
                else
                  match find_clean_frame kp n dance_frame with
                  | None => (dance_frame, None, st2)
                  | Some (Some pose_data) =>
                      (dance_frame, Some pose_data, st2)
                  | Some None => (dance_frame, Some default_pose, st2)
                  end
            end
        end
      else (dance_frame, None, st1)
  end.

(** The body of [for frame_idx in range(total_frames)]. *)
Definition emit_frame (w : World) (frame_rate frame_delay start_time : Q)
           (intensity : DanceIntensity) (st : Locals) (frame_idx : nat)
  : Locals :=
  let frame_time := start_time + inject_Z (Z.of_nat frame_idx) / frame_rate in
  let frame_time :=
    if Py.Qlt_bool 0 frame_delay then frame_time + frame_delay
    else frame_time in
  let dance_frame :=
    (Py.int (current_dance_elapsed st * frame_rate) + Z.of_nat frame_idx)%Z in
  let '(dance_frame, pose_data, st1) :=
    match current_dance_file st with
    | Some f =>
        if Py.truthy f then load_pose w f dance_frame st
        else (dance_frame, None, st)
    | None => (dance_frame, None, st)
    end in
  append_frame
    (Frame.mk (frame_number st1) frame_time (current_dance_file st1)
              dance_frame (value intensity) pose_data)
    st1.

Definition generate_frames (w : World) (frame_rate frame_delay start_time : Q)
           (intensity : DanceIntensity) (total_frames : nat) (st : Locals)
  : Locals :=
  fold_left (emit_frame w frame_rate frame_delay start_time intensity)
            (seq 0 total_frames) st.

(** *** The segment loop *)

Definition Segment : Type := (Q * Q * Q * Q)%type.

(** [np.arange(0, stop, 5.0)] *)
Definition arange5 (stop : Q) : list Q :=
  map (fun k => 5 * inject_Z (Z.of_nat k))
      (seq 0 (Z.to_nat (Qceiling (stop / 5)))).

Definition segments_data (w : World) (song_duration : Q) : list Segment :=
  map (fun start_time =>
         let end_time := Py.min2 (start_time + 5) song_duration in
         (start_time, end_time,
          analyze_amplitude w start_time end_time,
          analyze_bpm w start_time end_time))
      (arange5 song_duration).

(** The body of [for i, (start_time, end_time, amplitude, bpm) in
    enumerate(segments_data)].  The subtraction and the product under
    [int] are exact here; the code rounds both to binary64. *)
Definition process_segment (w : World) (self : DanceMoveSampler)
           (low_threshold high_threshold frame_rate frame_delay : Q)
           (norm_amplitudes norm_bpms : list Q)
           (i : nat) (seg : Segment) (st : Locals) : option Locals :=
  let '(start_time, end_time, _, _) := seg in
  let score :=
    calculate_intensity_score self (nth i norm_amplitudes 0)
                              (nth i norm_bpms 0) in
  let intensity := classify_intensity score low_threshold high_threshold in
  let (need, st1) := need_new_dance w frame_rate intensity st in
  match (if need then select_new_dance w intensity st1 else Some st1) with
  | None => None
  | Some st2 =>
      let segment_duration := end_time - start_time in
      let st3 := set_segment_duration segment_duration st2 in
      let total_frames := Z.to_nat (Py.int (segment_duration * frame_rate)) in
      let st4 :=
        generate_frames w frame_rate frame_delay start_time intensity
                        total_frames st3 in
      Some (add_elapsed segment_duration st4)
  end.

Fixpoint run_segments (w : World) (self : DanceMoveSampler)
         (low_threshold high_threshold frame_rate frame_delay : Q)
         (norm_amplitudes norm_bpms : list Q)
         (i : nat) (segs : list Segment) (st : Locals) : option Locals :=
  match segs with
  | [] => Some st
  | seg :: rest =>
      match process_segment w self low_threshold high_threshold frame_rate
                            frame_delay norm_amplitudes norm_bpms i seg st
      with
      | None => None
      | Some st1 =>
          run_segments w self low_threshold high_threshold frame_rate
                       frame_delay norm_amplitudes norm_bpms (S i) rest st1
      end
  end.

(** [sample_dance_moves_for_song]: the list is empty when the mappings
    are, and when an exception reaches the outer [except]. *)
Definition sample_dance_moves_for_song (w : World) (self : DanceMoveSampler)
           (audio_file : string) (low_threshold high_threshold : Q)
           (frame_rate frame_delay : Q) (song_duration : option Q)
  : list Frame.t :=
  if nonempty (intensity_mappings w) then
    match load_audio w audio_file with
    | None => []
    | Some audio_seconds =>
        let song_duration :=
          match song_duration with
          | None => audio_seconds
          | Some d => d
          end in
        let segs := segments_data w song_duration in
        let amplitudes := map (fun '(_, _, amplitude, _) => amplitude) segs in
        let bpms := map (fun '(_, _, _, bpm) => bpm) segs in
        let (norm_amplitudes, norm_bpms) :=
          normalize_features amplitudes bpms in
        match run_segments w self low_threshold high_threshold frame_rate
                           frame_delay norm_amplitudes norm_bpms 0 segs
                           initial_locals with
        | None => []
        | Some st => pose_sequence st
        end
    end
  else [].

(** *** [load_intensity_mappings] *)

(** [c.lower()] on the letters A to Z. *)
Definition lower_ascii (c : ascii) : ascii :=
  let n := nat_of_ascii c in
  if ((65 <=? n) && (n <=? 90))%nat then ascii_of_nat (n + 32) else c.

Fixpoint lower (s : string) : string :=
  match s with
  | EmptyString => EmptyString
  | String c rest => String (lower_ascii c) (lower rest)
  end.

(** The [if]/[elif] cascade on [str(row['m']).lower()]. *)
Definition intensity_of_letter (m : string) : DanceIntensity :=
  let intensity_str := lower m in
  if String.eqb intensity_str "h" then HIGH
  else if String.eqb intensity_str "m" then MEDIUM
  else if String.eqb intensity_str "l" then LOW
  else MEDIUM.

(** [d.get(i)] on a dictionary kept as the list of its insertions, the
    last one first. *)
Fixpoint dict_get (i : Z) (d : list (Z * DanceIntensity))
  : option DanceIntensity :=
  match d with
  | [] => None
  | (k, v) :: rest => if (k =? i)%Z then Some v else dict_get i rest
  end.

(** [csv] is what [pd.read_csv] gives: [None] when it raises, when a
    column is missing and when an index does not convert to [int];
    otherwise the rows as pairs of [int(row['index'])] and
    [str(row['m'])]. *)
Definition load_intensity_mappings (csv : option (list (Z * string)))
  : list DanceIntensity :=
  match csv with
  | None => []
  | Some rows =>
      let intensity_dict :=
        fold_left (fun d '(index, m) => (index, intensity_of_letter m) :: d)
                  rows [] in
      match intensity_dict with
      | [] => []
      | (k0, _) :: rest =>
          let max_index := fold_left Z.max (map fst rest) k0 in
          map (fun i =>
                 match dict_get (Z.of_nat i) intensity_dict with
                 | Some intensity => intensity
                 | None => MEDIUM
                 end)
              (seq 0 (Z.to_nat (max_index + 1)))
      end
  end.

(** *** [convert_pose_data_to_json] *)

Record Keypoint : Type := mkKeypoint {
  kx : xfloat;
  ky : xfloat;
  kz : xfloat;
  visibility : xfloat
}.

Module JsonFrame.
Record t : Type := mk {
  frame_number : nat;
  time : Q;
  dance_file : option string;
  dance_frame : Z;
  intensity : string;
  pose_data : option (list Keypoint)
}.
End JsonFrame.

(** The branch for an array of two dimensions; [pose_data.shape[1]] is
    the length of its rows. *)
Definition keypoints_list (pose_data : Pose) : list Keypoint :=
  let columns :=
    match pose_data with
    | [] => 0%nat
    | row :: _ => length row
    end in
  flat_map
    (fun row =>
       if (2 <=? columns)%nat then
         [mkKeypoint (nth 0 row NaN) (nth 1 row NaN)
                     (if (2 <? columns)%nat then nth 2 row NaN else Fin 0)
                     (if (3 <? columns)%nat then nth 3 row NaN else Fin 1)]
       else [])
    pose_data.

Definition convert_pose_data_to_json (pose_sequence : list Frame.t)
  : list JsonFrame.t :=
  map (fun pose =>
         JsonFrame.mk (Frame.frame_number pose) (Frame.time pose)
                      (Frame.dance_file pose) (Frame.dance_frame pose)
                      (Frame.intensity pose)
                      match Frame.pose_data pose with
                      | Some pose_data => Some (keypoints_list pose_data)
                      | None => None
                      end)
      pose_sequence.

End Sampler.


(* ===================================================================== *)
(** ** [scoring/real_time_pose_scorer.py]                                 *)
(* ===================================================================== *)

Module Scorer.

(** The two numpy functions that leave the rationals, on finite
    arguments. *)
Class Numpy : Type := {
  np_sqrt : Q -> Q;
  np_exp : Q -> Q
}.

(** *** IEEE arithmetic on values that may be infinite *)

Definition xneg (x : xfloat) : xfloat :=
  match x with
  | Fin q => Fin (- q)
  | PInf => NInf
  | NInf => PInf
  | NaN => NaN
  end.

(** [a * x] for a finite [a]. *)
Definition xscale (a : Q) (x : xfloat) : xfloat :=
  match x with
  | Fin q => Fin (a * q)
  | NaN => NaN
  | inf =>
      if Py.Qlt_bool 0 a then inf
      else if Py.Qlt_bool a 0 then xneg inf
      else NaN
  end.

(** [np.exp] *)
Definition xexp `{Numpy} (x : xfloat) : xfloat :=
  match x with
  | Fin q => Fin (np_exp q)
  | PInf => PInf
  | NInf => Fin 0
  | NaN => NaN
  end.

(** [np.clip(x, lo, hi)] *)
Definition xclip (x : xfloat) (lo hi : Q) : xfloat :=
  match x with
  | Fin q => Fin (Py.clip q lo hi)
  | PInf => Fin hi
  | NInf => Fin lo
  | NaN => NaN
  end.

(** *** Poses *)

(** A pose after reshaping: rows are joints, columns coordinates. *)
Definition Pose : Type := list (list Q).

(** What a caller may pass: a flat vector or an array (joints, coords). *)
Inductive ndarray : Type :=
| Arr1 (xs : list Q)
| Arr2 (rows : Pose).

(** [reshape(-1, 2)] of a vector of even length. *)
Fixpoint reshape_pairs (xs : list Q) : Pose :=
  match xs with
  | x :: y :: rest => [x; y] :: reshape_pairs rest
  | _ => []
  end.

Definition at_least_2d (pose : ndarray) : Pose :=
  match pose with
  | Arr1 xs =>
      if Nat.even (length xs) then reshape_pairs xs
      else reshape_pairs (xs ++ [0])
  | Arr2 rows => rows
  end.

(** [pose[:, k]]; [None] is the [IndexError] of a missing column. *)
Fixpoint column (k : nat) (pose : Pose) : option (list Q) :=
  match pose with
  | [] => Some []
  | row :: rest =>
      match nth_error row k, column k rest with
      | Some x, Some xs => Some (x :: xs)
      | _, _ => None
      end
  end.

(** [~((pose[:, 0] == 0) & (pose[:, 1] == 0))] *)
Definition valid_mask (pose : Pose) : option (list bool) :=
  match column 0 pose, column 1 pose with
  | Some xs, Some ys =>
      Some (map (fun '(x, y) => negb (Qeq_bool x 0 && Qeq_bool y 0))
                (combine xs ys))
  | _, _ => None
  end.

(** [pose[mask]] *)
Fixpoint select_rows (mask : list bool) (pose : Pose) : Pose :=
  match mask, pose with
  | b :: mask', row :: rest =>
      if b then row :: select_rows mask' rest else select_rows mask' rest
  | _, _ => []
  end.

(** Elementwise combination of two rows of one length. *)
Fixpoint map2 (f : Q -> Q -> Q) (xs ys : list Q) : list Q :=
  match xs, ys with
  | x :: xs', y :: ys' => f x y :: map2 f xs' ys'
  | _, _ => []
  end.

(** [np.min(points, axis=0)] and [np.max(points, axis=0)] of a non-empty
    array. *)
Definition min_coords (points : Pose) : list Q :=
  match points with
  | [] => []
  | row :: rest => fold_left (map2 Py.min2) rest row
  end.
Definition max_coords (points : Pose) : list Q :=
  match points with
  | [] => []
  | row :: rest => fold_left (map2 Py.max2) rest row
  end.

(** The local [height] of [normalize_pose], after its zero test. *)
Definition bbox_height (lo hi : list Q) : Q :=
  let height := nth 1 hi 0 - nth 1 lo 0 in
  if Qeq_bool height 0 then 1 else height.

(** [(min_coords + max_coords) / 2] *)
Definition bbox_center (lo hi : list Q) : list Q :=
  map2 (fun a b => (a + b) / 2) lo hi.

(** [(pose - center) / height] *)
Definition center_and_scale (center : list Q) (height : Q) (pose : Pose)
  : Pose :=
  map (fun row => map2 (fun x c => (x - c) / height) row center) pose.

(** [normalize_pose] *)
Definition normalize_pose (pose : ndarray) : option Pose :=
  let pose := at_least_2d pose in
  match pose with
  | [] => Some pose
  | _ =>
      match valid_mask pose with
      | None => None
      | Some mask =>
          if negb (existsb (fun b => b) mask) then Some pose
          else
            let valid_points := select_rows mask pose in
            let lo := min_coords valid_points in
            let hi := max_coords valid_points in
            let height := bbox_height lo hi in
            let center := bbox_center lo hi in
            Some (center_and_scale center height pose)
      end
  end.

(** *** Session state *)

Record PoseScore : Type := mkPoseScore {
  spatial_score : xfloat;
  timing_score : Q;
  rhythm_score : Q;
  frame_score : xfloat;
  timestamp : Q
}.

Record RealTimePoseScorer : Type := mkScorer {
  spatial_weight : Q;
  timing_weight : Q;
  rhythm_weight : Q;
  alpha : Q;
  smoothing_factor : Q;
  max_history : nat;
  user_poses : list Pose;
  user_timestamps : list Q;
  reference_poses : list Pose;
  reference_timestamps : list Q;
  pose_scores : list PoseScore;
  pose_history : list Pose;
  start_time : option Q;
  current_ref_index : Z
}.

(** [deque(maxlen=m).append(x)]: the last [m] items are kept. *)
Definition deque_append {A} (maxlen : nat) (xs : list A) (x : A) : list A :=
  skipn (length (xs ++ [x]) - maxlen) (xs ++ [x]).

(** [RealTimePoseScorer.__init__]; a negative [max_history] makes
    [deque] raise [ValueError]. *)
Definition init (spatial_weight timing_weight rhythm_weight alpha
                 smoothing_factor : Q) (max_history : Z)
  : option RealTimePoseScorer :=
  if (max_history <? 0)%Z then None
  else Some (mkScorer spatial_weight timing_weight rhythm_weight alpha
                      smoothing_factor (Z.to_nat max_history)
                      [] [] [] [] [] [] None 0).

(** [load_reference_dance]; a generated timestamp is the binary64
    quotient [i / 60.0] (the index is far below 2^53 and exact as a
    float). *)
Definition load_reference_dance (poses : list Pose)
           (timestamps : option (list Q)) (self : RealTimePoseScorer)
  : RealTimePoseScorer :=
  let reference_timestamps :=
    match timestamps with
    | None =>
        map (fun i => Py.round64 (inject_Z (Z.of_nat i) / 60))
            (seq 0 (length poses))
    | Some ts => ts
    end in
  mkScorer (spatial_weight self) (timing_weight self) (rhythm_weight self)
           (alpha self) (smoothing_factor self) (max_history self)
           (user_poses self) (user_timestamps self)
           poses reference_timestamps
           (pose_scores self) (pose_history self) (start_time self)
           (current_ref_index self).

(** [reset] *)
Definition reset (self : RealTimePoseScorer) : RealTimePoseScorer :=
  mkScorer (spatial_weight self) (timing_weight self) (rhythm_weight self)
           (alpha self) (smoothing_factor self) (max_history self)
           [] []
           (reference_poses self) (reference_timestamps self)
           [] [] None 0.

Definition set_pose_history (h : list Pose) (self : RealTimePoseScorer)
  : RealTimePoseScorer :=
  mkScorer (spatial_weight self) (timing_weight self) (rhythm_weight self)
           (alpha self) (smoothing_factor self) (max_history self)
           (user_poses self) (user_timestamps self)
           (reference_poses self) (reference_timestamps self)
           (pose_scores self) h (start_time self) (current_ref_index self).

Definition set_start_time (t : Q) (self : RealTimePoseScorer)
  : RealTimePoseScorer :=
  mkScorer (spatial_weight self) (timing_weight self) (rhythm_weight self)
           (alpha self) (smoothing_factor self) (max_history self)
           (user_poses self) (user_timestamps self)
           (reference_poses self) (reference_timestamps self)
           (pose_scores self) (pose_history self) (Some t)
           (current_ref_index self).

(** The two appends of [score_pose] to the user's history. *)
Definition record_user_pose (pose : Pose) (t : Q)
           (self : RealTimePoseScorer) : RealTimePoseScorer :=
  mkScorer (spatial_weight self) (timing_weight self) (rhythm_weight self)
           (alpha self) (smoothing_factor self) (max_history self)
           (deque_append (max_history self) (user_poses self) pose)
           (deque_append (max_history self) (user_timestamps self) t)
           (reference_poses self) (reference_timestamps self)
           (pose_scores self) (pose_history self) (start_time self)
           (current_ref_index self).

(** [self.pose_scores.append(pose_score)] *)
Definition record_pose_score (ps : PoseScore) (self : RealTimePoseScorer)
  : RealTimePoseScorer :=
  mkScorer (spatial_weight self) (timing_weight self) (rhythm_weight self)
           (alpha self) (smoothing_factor self) (max_history self)
           (user_poses self) (user_timestamps self)
           (reference_poses self) (reference_timestamps self)
           (deque_append (max_history self) (pose_scores self) ps)
           (pose_history self) (start_time self) (current_ref_index self).

(** *** Arithmetic on poses

    Elementwise operations on two arrays follow numpy's broadcasting: a
    single row, or a single column, is stretched to the shape of the
    other operand; shapes that differ otherwise raise.  (An array
    without rows has no columns left to compare.) *)
Fixpoint zip_rows (f : Q -> Q -> Q) (xs ys : list Q) : option (list Q) :=
  match xs, ys with
  | [], [] => Some []
  | x :: xs', y :: ys' =>
      match zip_rows f xs' ys' with
      | Some r => Some (f x y :: r)
      | None => None
      end
  | _, _ => None
  end.

(** Two vectors: one item is stretched to the length of the other. *)
Definition broadcast_rows (f : Q -> Q -> Q) (xs ys : list Q)
  : option (list Q) :=
  match xs, ys with
  | [x], _ => Some (map (f x) ys)
  | _, [y] => Some (map (fun x => f x y) xs)
  | _, _ => zip_rows f xs ys
  end.

(** Row by row, for as many rows on both sides. *)
Fixpoint zip_same (f : Q -> Q -> Q) (p q : Pose) : option Pose :=
  match p, q with
  | [], [] => Some []
  | r1 :: p', r2 :: q' =>
      match broadcast_rows f r1 r2, zip_same f p' q' with
      | Some r, Some rest => Some (r :: rest)
      | _, _ => None
      end
  | _, _ => None
  end.

(** All the rows, unless one raised. *)
Fixpoint all_rows (rows : list (option (list Q))) : option Pose :=
  match rows with
  | [] => Some []
  | Some r :: rest =>
      match all_rows rest with
      | Some rs => Some (r :: rs)
      | None => None
      end
  | None :: _ => None
  end.

(** Two arrays: one row is stretched to the rows of the other. *)
Definition zip_poses (f : Q -> Q -> Q) (p q : Pose) : option Pose :=
  match p, q with
  | [r], _ => all_rows (map (fun r2 => broadcast_rows f r r2) q)
  | _, [r] => all_rows (map (fun r1 => broadcast_rows f r1 r) p)
  | _, _ => zip_same f p q
  end.

(** [a.flatten()] *)
Definition flatten (p : Pose) : list Q := concat p.

Definition sum_squares (xs : list Q) : Q :=
  Py.sumQ (map (fun x => x * x) xs).

(** [np.linalg.norm] of a vector or of an array (Frobenius). *)
Definition norm `{Numpy} (xs : list Q) : Q := np_sqrt (sum_squares xs).

(** [scipy.spatial.distance.euclidean(u, v)] *)
Definition euclidean `{Numpy} (u v : list Q) : option Q :=
  match broadcast_rows Qminus u v with
  | Some d => Some (norm d)
  | None => None
  end.

(** [np.std(xs)]: the population standard deviation. *)
Definition std `{Numpy} (xs : list Q) : Q :=
  let m := Py.mean xs in
  np_sqrt (Py.mean (map (fun x => (x - m) * (x - m)) xs)).

(** [np.corrcoef(xs, ys)[0, 1]]; [nan] when a deviation vanishes. *)
Definition corrcoef `{Numpy} (xs ys : list Q) : xfloat :=
  let mx := Py.mean xs in
  let my := Py.mean ys in
  let dx := map (fun x => x - mx) xs in
  let dy := map (fun y => y - my) ys in
  let cov := Py.sumQ (map2 Qmult dx dy) in
  let den := np_sqrt (sum_squares dx) * np_sqrt (sum_squares dy) in
  if Qeq_bool den 0 then NaN else Fin (cov / den).

(** [smooth_pose] *)
Definition smooth_pose (pose : Pose) (self : RealTimePoseScorer)
  : option (Pose * RealTimePoseScorer) :=
  match pose_history self with
  | [] => Some (pose, set_pose_history (deque_append 5 [] pose) self)
  | h :: t =>
      let prev_pose := last t h in
      match zip_poses (fun x y => smoothing_factor self * x
                                  + (1 - smoothing_factor self) * y)
                      pose prev_pose with
      | None => None
      | Some smoothed =>
          Some (smoothed,
                set_pose_history
                  (deque_append 5 (pose_history self) smoothed) self)
      end
  end.

(** [pose[indices]]; [None] is [IndexError]. *)
Fixpoint take_rows (indices : list nat) (pose : Pose) : option Pose :=
  match indices with
  | [] => Some []
  | i :: rest =>
      match nth_error pose i, take_rows rest pose with
      | Some row, Some rows => Some (row :: rows)
      | _, _ => None
      end
  end.

(** [compute_pose_distance] *)
Definition compute_pose_distance `{Numpy} (pose1 pose2 : Pose) : option Q :=
  let upper_body_indices :=
    if (17 <=? length pose1)%nat then seq 5 12
    else seq 0 (Nat.min (length pose1) (length pose2)) in
  match take_rows upper_body_indices pose1,
        take_rows upper_body_indices pose2 with
  | Some pose1_upper, Some pose2_upper =>
      euclidean (flatten pose1_upper) (flatten pose2_upper)
  | _, _ => None
  end.

(** [reference_timestamps[-1] if reference_timestamps else 1.0] *)
Definition ref_duration (self : RealTimePoseScorer) : Q :=
  last (reference_timestamps self) 1.

(** The index computed from the elapsed time, every operation rounding
    to binary64: [progress = (elapsed_time % ref_duration) / ref_duration],
    [int(progress * len(reference_poses))] and the [min].  [None] is the
    [ZeroDivisionError] of the modulo by a zero duration. *)
Definition reference_index (elapsed_time ref_duration : Q) (count : nat)
  : option Z :=
  match Py.fmod elapsed_time ref_duration with
  | None => None
  | Some m =>
      let progress := Py.round64 (m / ref_duration) in
      let ref_index :=
        Py.int (Py.round64 (progress * inject_Z (Z.of_nat count))) in
      Some (Z.min ref_index (Z.of_nat count - 1))
  end.

(** [find_best_reference_match]; [None] when the modulo by a zero
    duration or the distance raises. *)
Definition find_best_reference_match `{Numpy} (user_pose : Pose)
           (timestamp : Q) (self : RealTimePoseScorer)
  : option (Z * xfloat * RealTimePoseScorer) :=
  match reference_poses self with
  | [] => Some (0%Z, PInf, self)
  | ref0 :: _ =>
      let (start, self1) :=
        match start_time self with
        | None => (timestamp, set_start_time timestamp self)
        | Some s => (s, self)
        end in
      let elapsed_time := Py.round64 (timestamp - start) in
      match reference_index elapsed_time (ref_duration self1)
                            (length (reference_poses self1)) with
      | None => None
      | Some ref_index =>
          match compute_pose_distance user_pose
                  (nth (Z.to_nat ref_index) (reference_poses self1) ref0) with
          | None => None
          | Some distance => Some (ref_index, Fin distance, self1)
          end
      end
  end.

(** [compute_frame_score] *)
Definition compute_frame_score `{Numpy} (self : RealTimePoseScorer)
           (distance : xfloat) : xfloat :=
  xclip (xexp (xscale (- alpha self) distance)) 0 1.

(** *** Timing and rhythm *)

(** [xs[i] - xs[i-1]] for [i] from 1. *)
Fixpoint diffs (xs : list Q) : list Q :=
  match xs with
  | a :: (b :: _) as rest => (b - a) :: diffs rest
  | _ => []
  end.

(** [compute_timing_score] *)
Definition compute_timing_score `{Numpy} (self : RealTimePoseScorer) : Q :=
  if (length (user_timestamps self) <? 2)%nat then 1 # 2
  else
    let time_diffs := diffs (user_timestamps self) in
    if Sampler.nonempty time_diffs then
      let expected_diff := 1 / 30 in
      let timing_consistency :=
        1 - Py.min2 (std time_diffs / expected_diff) 1 in
      Py.max2 timing_consistency 0
    else 1 # 2.

(** [np.linalg.norm(ps[i] - ps[i-1])] for [i] from 1; [None] when two
    neighbours do not subtract. *)
Fixpoint velocities `{Numpy} (ps : list Pose) : option (list Q) :=
  match ps with
  | a :: (b :: _) as rest =>
      match zip_poses Qminus b a, velocities rest with
      | Some d, Some vs => Some (norm (flatten d) :: vs)
      | _, _ => None
      end
  | _ => Some []
  end.

(** [compute_rhythm_score] *)
Definition compute_rhythm_score `{Numpy} (self : RealTimePoseScorer)
  : option Q :=
  if (length (user_poses self) <? 3)%nat then Some (1 # 2)
  else
    match velocities (user_poses self) with
    | None => None
    | Some user_velocities =>
        let fallback :=
          if (2 <=? length user_velocities)%nat then
            let velocity_consistency :=
              1 - Py.min2 (std user_velocities
                           / (Py.mean user_velocities + (1 # 1000000))) 1 in
            Py.max2 velocity_consistency 0
          else 1 # 2 in
        if (2 <=? length (reference_poses self))%nat then
          match velocities
                  (firstn (Nat.min (length (reference_poses self))
                                   (length user_velocities + 1))
                          (reference_poses self)) with
          | None => None
          | Some ref_velocities =>
              if ((3 <=? length user_velocities)
                  && (3 <=? length ref_velocities))%nat then
                let min_len :=
                  Nat.min (length user_velocities)
                          (length ref_velocities) in
                let user_vel := firstn min_len user_velocities in
                let ref_vel := firstn min_len ref_velocities in
                if Py.Qlt_bool 0 (std user_vel)
                   && Py.Qlt_bool 0 (std ref_vel) then
                  match corrcoef user_vel ref_vel with
                  | NaN => Some (1 # 2)
                  | Fin correlation => Some (Py.clip correlation 0 1)
                  | PInf => Some 1
                  | NInf => Some 0
                  end
                else Some fallback
              else Some fallback
          end
        else Some fallback
    end.

(** *** [score_pose] *)

Notation "x <- c ;; k" :=
  (match c with Some x => k | None => None end)
    (at level 61, c at next level, right associativity, only parsing).
Notation "' p <- c ;; k" :=
  (match c with Some p => k | None => None end)
    (at level 61, p pattern, c at next level, right associativity,
     only parsing).

(** [clock] is what [time.time()] answers at the call. *)
Definition score_pose `{Numpy} (user_pose : ndarray) (timestamp : option Q)
           (clock : Q) (self : RealTimePoseScorer)
  : option (PoseScore * RealTimePoseScorer) :=
  let timestamp :=
    match timestamp with
    | None => clock
    | Some t => t
    end in
  normalized_pose <- normalize_pose user_pose ;;
  '(smoothed_pose, self1) <- smooth_pose normalized_pose self ;;
  let self2 := record_user_pose smoothed_pose timestamp self1 in
  '(ref_index, distance, self3) <-
    find_best_reference_match smoothed_pose timestamp self2 ;;
  let frame_score := compute_frame_score self3 distance in
  let spatial_score := frame_score in
  let timing_score := compute_timing_score self3 in
  rhythm_score <- compute_rhythm_score self3 ;;
  let pose_score :=
    mkPoseScore spatial_score timing_score rhythm_score frame_score
                timestamp in
  Some (pose_score, record_pose_score pose_score self3).

(** *** Overall scores *)

(** [x + y] on floats that may be infinite. *)
Definition xadd (x y : xfloat) : xfloat :=
  match x, y with
  | NaN, _ | _, NaN => NaN
  | PInf, NInf | NInf, PInf => NaN
  | PInf, _ | _, PInf => PInf
  | NInf, _ | _, NInf => NInf
  | Fin a, Fin b => Fin (a + b)
  end.

(** [np.mean(xs)] of a non-empty list of such floats. *)
Definition xmean (xs : list xfloat) : xfloat :=
  match fold_right xadd (Fin 0) xs with
  | Fin total => Fin (total / Py.lenQ xs)
  | other => other
  end.

(** [x >= q] and [x < q]; both are false on NaN. *)
Definition xge (x : xfloat) (q : Q) : bool :=
  match x with
  | Fin v => Qle_bool q v
  | PInf => true
  | NInf | NaN => false
  end.
Definition xlt (x : xfloat) (q : Q) : bool :=
  match x with
  | Fin v => Py.Qlt_bool v q
  | NInf => true
  | PInf | NaN => false
  end.

(** [xs[-min(k, len(xs)):]] for [k >= 1] and a non-empty list. *)
Definition last_items {A} (k : nat) (xs : list A) : list A :=
  skipn (length xs - Nat.min k (length xs)) xs.

(** [get_current_score] *)
Definition get_current_score (self : RealTimePoseScorer) : xfloat :=
  if negb (Sampler.nonempty (pose_scores self)) then Fin 0
  else
    let recent_scores := last_items 30 (pose_scores self) in
    let spatial_avg := xmean (map spatial_score recent_scores) in
    let timing_avg := Py.mean (map timing_score recent_scores) in
    let rhythm_avg := Py.mean (map rhythm_score recent_scores) in
    let overall :=
      xadd (xadd (xscale (spatial_weight self) spatial_avg)
                 (Fin (timing_weight self * timing_avg)))
           (Fin (rhythm_weight self * rhythm_avg)) in
    xscale 100 overall.

Module Final.
Record t : Type := mk {
  overall_score : xfloat;
  spatial_score : xfloat;
  timing_score : Q;
  rhythm_score : Q;
  total_poses : nat;
  alignment_quality : xfloat;
  feedback : string
}.
End Final.

(** [_generate_feedback] *)
Definition generate_feedback (overall spatial : xfloat) (timing rhythm : Q)
  : string :=
  if xge overall 90 then "Outstanding performance! Perfect execution!"%string
  else if xge overall 80 then "Excellent dancing! Great job!"%string
  else if xge overall 70 then "Good performance! Keep practicing!"%string
  else if xge overall 60 then
    "Nice effort! Focus on improvement areas below."%string
  else
    let feedback_parts :=
      ((if xlt spatial 60 then ["improve pose accuracy"%string] else [])
       ++ (if Py.Qlt_bool timing 60 then ["work on timing consistency"%string]
           else [])
       ++ (if Py.Qlt_bool rhythm 60 then ["focus on rhythm and flow"%string]
           else []))%list in
    if Sampler.nonempty feedback_parts then
      ("Try to " ++ String.concat " and " feedback_parts ++ ".")%string
    else "Keep practicing to improve your performance!"%string.

(** [get_final_score] *)
Definition get_final_score (self : RealTimePoseScorer) : Final.t :=
  if negb (Sampler.nonempty (pose_scores self)) then
    Final.mk (Fin 0) (Fin 0) 0 0 0 (Fin 0) "No poses scored"%string
  else
    let all_scores := pose_scores self in
    let spatial_avg := xscale 100 (xmean (map spatial_score all_scores)) in
    let timing_avg := Py.mean (map timing_score all_scores) * 100 in
    let rhythm_avg := Py.mean (map rhythm_score all_scores) * 100 in
    let overall :=
      xadd (xadd (xscale (spatial_weight self) spatial_avg)
                 (Fin (timing_weight self * timing_avg)))
           (Fin (rhythm_weight self * rhythm_avg)) in
    let frame_scores := map frame_score all_scores in
    let alignment_quality := xscale 100 (xmean frame_scores) in
    let feedback :=
      generate_feedback overall spatial_avg timing_avg rhythm_avg in
    Final.mk overall spatial_avg timing_avg rhythm_avg
             (length all_scores) alignment_quality feedback.

(** *** The module's functions *)

(** [create_pose_scorer]; the keyword arguments are the configuration. *)
Definition create_pose_scorer (reference_poses : list Pose)
           (reference_timestamps : option (list Q))
           (spatial_weight timing_weight rhythm_weight alpha
            smoothing_factor : Q) (max_history : Z)
  : option RealTimePoseScorer :=
  scorer <- init spatial_weight timing_weight rhythm_weight alpha
                 smoothing_factor max_history ;;
  Some (load_reference_dance reference_poses reference_timestamps scorer).

(** [score_pose_realtime] *)
Definition score_pose_realtime `{Numpy} (scorer : RealTimePoseScorer)
           (user_pose : ndarray) (timestamp : option Q) (clock : Q)
  : option (PoseScore * xfloat * RealTimePoseScorer) :=
  '(pose_score, scorer1) <- score_pose user_pose timestamp clock scorer ;;
  let current_score := get_current_score scorer1 in
  Some (pose_score, current_score, scorer1).

(** The loop of [score_complete_performance] from position [i];
    [clock i] is what [time.time()] answers in round [i]. *)
Fixpoint score_all `{Numpy} (i : nat) (user_poses : list ndarray)
         (user_timestamps : option (list Q)) (clock : nat -> Q)
         (scorer : RealTimePoseScorer) : option RealTimePoseScorer :=
  match user_poses with
  | [] => Some scorer
  | pose :: rest =>
      let generated := clock i + inject_Z (Z.of_nat i) * (33 # 1000) in
      timestamp <-
        match user_timestamps with
        | Some ts => if Sampler.nonempty ts then nth_error ts i
                     else Some generated
        | None => Some generated
        end ;;
      '(_, scorer1) <- score_pose pose (Some timestamp) 0 scorer ;;
      score_all (S i) rest user_timestamps clock scorer1
  end.

(** [score_complete_performance]; the keyword arguments are the
    configuration and, since they are passed on to [create_pose_scorer],
    possibly its [reference_timestamps]. *)
Definition score_complete_performance `{Numpy}
           (reference_poses : list Pose) (user_poses : list ndarray)
           (user_timestamps : option (list Q)) (clock : nat -> Q)
           (reference_timestamps : option (list Q))
           (spatial_weight timing_weight rhythm_weight alpha
            smoothing_factor : Q) (max_history : Z) : option Final.t :=
  scorer <- create_pose_scorer reference_poses reference_timestamps
                               spatial_weight timing_weight rhythm_weight
                               alpha smoothing_factor max_history ;;
  scorer1 <- score_all 0 user_poses user_timestamps clock scorer ;;
  Some (get_final_score scorer1).

End Scorer.

(* ===================================================================== *)
(** ** [keypoint_data_loader.py]                                          *)
(* ===================================================================== *)

Module Loader.

(** *** Arrays

    A numpy array by rank, with the dimensions that its items do not
    determine when a leading dimension is 0: [Rank2 c rows] has shape
    (len rows, c), [Rank3 j c frames] has shape (len frames, j, c), and
    [Rank4 j c cams] has shape (len cams, _, j, c).  [RankOther] is an
    array of rank 0 or of rank 5 and more. *)
Inductive ndarray : Type :=
| Rank1 (xs : list xfloat)
| Rank2 (coords : nat) (rows : list (list xfloat))
| Rank3 (joints coords : nat) (frames : list (list (list xfloat)))
| Rank4 (joints coords : nat) (cams : list (list (list (list xfloat))))
| RankOther.

(** [count] rows of [n] items each, in order. *)
Fixpoint chunks {A} (count n : nat) (xs : list A) : list (list A) :=
  match count with
  | O => []
  | S k => firstn n xs :: chunks k n (skipn n xs)
  end.

(** [xs.reshape(frames, joints, coords)] *)
Definition reshape3 (frames joints coords : nat) (xs : list xfloat)
  : list (list (list xfloat)) :=
  map (chunks joints coords) (chunks frames (joints * coords) xs).

(** *** [parse_filename] *)

(** [s.replace('.pkl', '')] *)
Fixpoint remove_pkl (s : string) : string :=
  match s with
  | String "."%char (String "p"%char (String "k"%char (String "l"%char rest)))
    => remove_pkl rest
  | String c rest => String c (remove_pkl rest)
  | EmptyString => EmptyString
  end.

(** [s.split('_')]: the pieces between underscores, at least one. *)
Fixpoint split_underscore (s : string) : list string :=
  match s with
  | EmptyString => [EmptyString]
  | String c rest =>
      if Ascii.eqb c "_"%char then EmptyString :: split_underscore rest
      else
        match split_underscore rest with
        | piece :: pieces => String c piece :: pieces
        | [] => [String c EmptyString]
        end
  end.

Record Metadata : Type := mkMetadata {
  meta_dance_style : string;
  meta_motion_type : string;
  meta_choreography : string;
  meta_difficulty : string;
  meta_music : string;
  meta_character : string
}.

Definition parse_filename (filename : string) : Metadata :=
  let parts := split_underscore (remove_pkl filename) in
  let part (k : nat) : string :=
    if (k <? length parts)%nat then nth k parts EmptyString
    else "unknown"%string in
  mkMetadata (part 0%nat) (part 1%nat) (part 2%nat) (part 3%nat)
             (part 4%nat) (part 5%nat).

(** *** [normalize_keypoints_format]

    [None] is the [IndexError] of taking camera 0 of an array without
    cameras. *)
Definition normalize_keypoints_format (keypoints : ndarray)
  : option ndarray :=
  let first_camera :=
    match keypoints with
    | Rank4 joints coords cams =>
        match cams with
        | [] => None
        | cam0 :: _ => Some (Rank3 joints coords cam0)
        end
    | _ => Some keypoints
    end in
  match first_camera with
  | None => None
  | Some keypoints =>
      Some
        match keypoints with
        | Rank2 coords rows => Rank3 (length rows) coords [rows]
        | Rank3 joints coords frames =>
            if (2 <? coords)%nat
            then Rank3 joints 2 (map (map (firstn 2)) frames)
            else keypoints
        | Rank1 xs =>
            if (length xs mod 34 =? 0)%nat
            then Rank3 17 2 (reshape3 (length xs / 34) 17 2 xs)
            else if (length xs mod 50 =? 0)%nat
            then Rank3 25 2 (reshape3 (length xs / 50) 25 2 xs)
            else keypoints
        | _ => keypoints
        end
  end.

(** *** [convert_to_mediapipe_format] *)

Definition coco_to_mediapipe : list (nat * nat) :=
  [(0, 0); (1, 2); (2, 5); (3, 7); (4, 8); (5, 11); (6, 12); (7, 13);
   (8, 14); (9, 15); (10, 16); (11, 23); (12, 24); (13, 25); (14, 26);
   (15, 27); (16, 28)]%nat.

(** One frame of [np.zeros((frames, 33, 3))]. *)
Definition zero_landmarks : list (list xfloat) :=
  repeat [Fin 0; Fin 0; Fin 0] 33.

(** [landmark[:2] = joint]: a joint of two coordinates is copied, a joint
    of one coordinate is broadcast to both. *)
Definition assign_xy (landmark joint : list xfloat) : list xfloat :=
  match joint with
  | [x; y] => x :: y :: skipn 2 landmark
  | [x] => x :: x :: skipn 2 landmark
  | _ => landmark
  end.

(** [xs[i] = v] within bounds. *)
Fixpoint update {A} (i : nat) (v : A) (xs : list A) : list A :=
  match xs, i with
  | [], _ => []
  | _ :: rest, O => v :: rest
  | x :: rest, S k => x :: update k v rest
  end.

(** The loop over [coco_to_mediapipe], on one frame. *)
Definition map_coco (joints : nat) (frame : list (list xfloat))
  : list (list xfloat) :=
  fold_left
    (fun landmarks '(coco_idx, mp_idx) =>
       if (coco_idx <? joints)%nat then
         update mp_idx
                (assign_xy (nth mp_idx landmarks []) (nth coco_idx frame []))
                landmarks
       else landmarks)
    coco_to_mediapipe zero_landmarks.

(** [mediapipe[:, :k, :2] = keypoints[:, :k, :]], on one frame. *)
Definition map_direct (joints : nat) (frame : list (list xfloat))
  : list (list xfloat) :=
  let k := Nat.min joints 33 in
  map (fun '(landmark, joint) => assign_xy landmark joint)
      (combine (firstn k zero_landmarks) (firstn k frame))
  ++ skipn k zero_landmarks.

(** [None] is the [ValueError] of unpacking a shape that has not three
    dimensions, or of assigning joints of neither one nor two coordinates
    to the two first columns. *)
Definition convert_to_mediapipe_format (keypoints : ndarray)
  : option ndarray :=
  match keypoints with
  | Rank3 joints coords frames =>
      if ((coords =? 2) || (coords =? 1))%nat then
        Some (Rank3 33 3
                (if (joints =? 17)%nat then map (map_coco joints) frames
                 else map (map_direct joints) frames))
      else None
  | _ => None
  end.

(** *** [load_dance_sequence] *)

Record DanceSequence : Type := mkDanceSequence {
  keypoints : ndarray;
  dance_style : string;
  motion_type : string;
  difficulty : string;
  character : string;
  filename : string;
  frame_rate : Q
}.

Definition dance_styles : list (string * string) :=
  [("gBR", "Break Dance"); ("gCH", "Charleston"); ("gHO", "House");
   ("gJB", "Jazz Ballet"); ("gJS", "Jazz"); ("gJZ", "Jazz");
   ("gKR", "Krump"); ("gLH", "Latin Hip Hop"); ("gLO", "Locking");
   ("gMH", "Modern Hip Hop"); ("gPO", "Popping"); ("gTP", "Tap");
   ("gWA", "Waacking")]%string.

Definition motion_types : list (string * string) :=
  [("sBM", "Basic Motion"); ("sFM", "Female Motion");
   ("sMM", "Male Motion")]%string.

(** [d.get(key, key)] *)
Fixpoint get_or_key (d : list (string * string)) (key : string) : string :=
  match d with
  | [] => key
  | (k, v) :: rest => if String.eqb k key then v else get_or_key rest key
  end.

(** [file_exists] is what [os.path.exists] answers and [raw] what
    [load_keypoint_file] returns.  The outer [None] is an exception, the
    inner one the value [None]. *)
Definition load_dance_sequence (file_exists : bool) (raw : option ndarray)
           (filename : string) : option (option DanceSequence) :=
  if negb file_exists then Some None
  else
    match raw with
    | None => Some None
    | Some raw_keypoints =>
        match normalize_keypoints_format raw_keypoints with
        | None => None
        | Some normalized_keypoints =>
            match convert_to_mediapipe_format normalized_keypoints with
            | None => None
            | Some mediapipe_keypoints =>
                let metadata := parse_filename filename in
                Some (Some (mkDanceSequence
                              mediapipe_keypoints
                              (get_or_key dance_styles
                                          (meta_dance_style metadata))
                              (get_or_key motion_types
                                          (meta_motion_type metadata))
                              (meta_difficulty metadata)
                              (meta_character metadata)
                              filename 30))
            end
        end
    end.

End Loader.

(* ===================================================================== *)
(** ** Vocabulary of the statements                                       *)
(* ===================================================================== *)

(** [m] is the least (greatest) element of [xs]. *)
Definition least (m : Q) (xs : list Q) : Prop :=
  In m xs /\ forall x, In x xs -> m <= x.
Definition greatest (m : Q) (xs : list Q) : Prop :=
  In m xs /\ forall x, In x xs -> x <= m.

(** Every row of the array has [C] columns. *)
Definition rect (C : nat) (p : Scorer.Pose) : Prop :=
  Forall (fun row => length row = C) p.

(** The array has shape (N, C). *)
Definition shape (N C : nat) (p : Scorer.Pose) : Prop :=
  length p = N /\ rect C p.

(** A joint is valid unless its first two coordinates are both zero. *)
Definition joint_valid (row : list Q) : bool :=
  negb (Qeq_bool (nth 0 row 0) 0 && Qeq_bool (nth 1 row 0) 0).

(** Column [k] of an array. *)
Definition col (k : nat) (p : Scorer.Pose) : list Q :=
  map (fun row => nth k row 0) p.

(** [x mod d], with the sign of [d]. *)
Definition Qmod (x d : Q) : Q := x - d * inject_Z (Qfloor (x / d)).

Definition clampZ (z lo hi : Z) : Z := Z.max lo (Z.min z hi).

(** [x] is a binary64 number: rounding leaves it as it is. *)
Definition binary64 (x : Q) : Prop := Py.round64 x == x.

(** The reference index the alignment rule assigns to timestamp [t] of a
    session started at [start], for a reference of [n] poses lasting [d]. *)
Definition aligned_index (start t d : Q) (n : nat) : Z :=
  clampZ (Qfloor (Qmod (t - start) d / d * inject_Z (Z.of_nat n)))
         0 (Z.of_nat n - 1).

(** The index [find_best_reference_match] returns, when it returns. *)
Definition matched_index `{Scorer.Numpy} (user_pose : Scorer.Pose) (t : Q)
           (self : Scorer.RealTimePoseScorer) : option Z :=
  match Scorer.find_best_reference_match user_pose t self with
  | Some (ref_index, _, _) => Some ref_index
  | None => None
  end.

(** Rational stand-ins for [np.sqrt] and [np.exp], to run examples:
    six Babylonian steps, and the Taylor polynomial of degree 6 (inverted
    for negative arguments). *)
Fixpoint babylonian (k : nat) (q x : Q) : Q :=
  match k with
  | O => x
  | S k' => babylonian k' q (Qred ((x + q / x) / 2))
  end.

Definition taylor6 (q : Q) : Q :=
  Qred (1 + q * (1 + q / 2 * (1 + q / 3 * (1 + q / 4
          * (1 + q / 5 * (1 + q / 6)))))).

Definition rational_numpy : Scorer.Numpy :=
  {| Scorer.np_sqrt := fun q => if Qle_bool q 0 then 0 else babylonian 6 q 1;
     Scorer.np_exp := fun q =>
       if Qle_bool 0 q then taylor6 q else Qred (1 / taylor6 (- q)) |}.

(** A two-joint pose, a fresh scorer with the default configuration, and
    the same scorer with a four-pose reference lasting two seconds. *)
Definition example_pose : Scorer.Pose := [[1; 1]; [2; 3]].

Definition example_scorer : Scorer.RealTimePoseScorer :=
  Scorer.mkScorer (4 # 10) (3 # 10) (3 # 10) 2 (3 # 10) 100
                  [] [] [] [] [] [] None 0.

Definition example_reference : list Scorer.Pose :=
  [example_pose; example_pose; example_pose; example_pose].

Definition example_session : Scorer.RealTimePoseScorer :=
  Scorer.set_start_time 0
    (Scorer.load_reference_dance example_reference (Some [0; 1 # 2; 1; 2])
                                 example_scorer).

(** A session that started at 0.6 (the binary64 number nearest to it), on
    a reference of ten poses lasting two seconds. *)
Definition late_session : Scorer.RealTimePoseScorer :=
  Scorer.set_start_time (Py.round64 (6 # 10))
    (Scorer.load_reference_dance
       (repeat example_pose 10)
       (Some [0; 1 # 4; 1 # 2; 3 # 4; 1; 5 # 4; 3 # 2; 7 # 4; 15 # 8; 2])
       example_scorer).

(** A session started at 0 on four poses with generated timestamps. *)
Definition generated_session : Scorer.RealTimePoseScorer :=
  Scorer.set_start_time 0
    (Scorer.load_reference_dance (repeat example_pose 4) None
                                 example_scorer).

(** The frame probed at [offset] in [direction] from [dance_frame]. *)
Definition probe (kp : Sampler.Keypoints) (n dance_frame offset direction : Z)
  : option Sampler.Pose :=
  Sampler.frame_at kp ((dance_frame + offset * direction) mod n)%Z.

(** The probed frame exists and holds a NaN. *)
Definition dirty_at (kp : Sampler.Keypoints) (n dance_frame offset direction : Z)
  : Prop :=
  exists q, probe kp n dance_frame offset direction = Some q
            /\ Sampler.has_nan q = true.

(** The search as the specification words it, with offsets
    1 .. min(50, frameCount) inclusive. *)
Definition find_clean_frame_inclusive (kp : Sampler.Keypoints)
           (n dance_frame : Z) : option (option Sampler.Pose) :=
  Sampler.search_offsets kp n dance_frame (Sampler.range1 (Z.min 50 n + 1)).

(** The list the selection cascade draws from. *)
Definition pool (w : Sampler.World) (intensity : Sampler.DanceIntensity)
  : list string :=
  let own :=
    match intensity with
    | Sampler.HIGH => Sampler.high_dances w
    | Sampler.MEDIUM => Sampler.medium_dances w
    | Sampler.LOW => Sampler.low_dances w
    end in
  match own with
  | [] => Sampler.available_dances w
  | _ => own
  end.

(** Example poses and clips. *)
Definition clean_pose : Sampler.Pose := [[Fin 1; Fin 2]].
Definition nan_pose : Sampler.Pose := [[NaN; Fin 2]].

(** A clip of 100 frames of which only frame 50 is clean. *)
Definition clip_clean_at_50 : Sampler.Keypoints :=
  Sampler.Arr3 (repeat nan_pose 50 ++ clean_pose :: repeat nan_pose 49).

(** A world with two dance files of medium intensity, both loading as
    [kp] at every call except the calls listed in [failing], where the
    load fails; [draw] is the sequence of random numbers.  The song lasts
    one second. *)
Definition example_world (kp : Sampler.Keypoints) (failing : list nat)
           (draw : nat -> nat) : Sampler.World :=
  Sampler.mkWorld
    [Sampler.MEDIUM; Sampler.MEDIUM]
    ["a.pkl"%string; "b.pkl"%string]
    (fun call _ => if existsb (Nat.eqb call) failing then None else Some kp)
    (fun call _ =>
       if existsb (Nat.eqb call) failing then None
       else Some (Z.to_nat (Sampler.num_frames kp)))
    draw
    (fun _ => Some 1)
    (fun _ _ => 1)
    (fun _ _ => 120).

Definition example_sampler : Sampler.DanceMoveSampler :=
  Sampler.mkSampler (6 # 10) (4 # 10) 5 (1 # 10).

(** Two states of the run hold the same output so far. *)
Definition same_output (st st' : Sampler.Locals) : Prop :=
  Sampler.pose_sequence st' = Sampler.pose_sequence st
  /\ Sampler.frame_number st' = Sampler.frame_number st.

(** The records are numbered from 0 in order. *)
Definition numbered (out : list Sampler.Frame.t) : Prop :=
  forall i r, nth_error out i = Some r -> Sampler.Frame.frame_number r = i.

(** The times never decrease along the list. *)
Definition nondecreasing_time (out : list Sampler.Frame.t) : Prop :=
  forall i j ri rj,
    (i <= j)%nat -> nth_error out i = Some ri -> nth_error out j = Some rj ->
    Sampler.Frame.time ri <= Sampler.Frame.time rj.

(** What [frame_delay] adds to every frame time. *)
Definition delay_shift (frame_delay : Q) : Q :=
  if Py.Qlt_bool 0 frame_delay then frame_delay else 0.

(** Segment [i] starts at [5 i], is not empty and lasts at most 5 seconds,
    and so on for the segments after it. *)
Fixpoint seg_chain (i : nat) (segs : list Sampler.Segment) : Prop :=
  match segs with
  | [] => True
  | (start_time, end_time, _, _) :: rest =>
      start_time == 5 * inject_Z (Z.of_nat i)
      /\ start_time < end_time
      /\ end_time <= start_time + 5
      /\ seg_chain (S i) rest
  end.

(** The invariant of the run on the output so far: the next frame number
    is the number of records, the records are numbered in order, their
    times never decrease and none exceeds [bound]. *)
Definition run_inv (bound : Q) (st : Sampler.Locals) : Prop :=
  Sampler.frame_number st = length (Sampler.pose_sequence st)
  /\ numbered (Sampler.pose_sequence st)
  /\ nondecreasing_time (Sampler.pose_sequence st)
  /\ forall r, In r (Sampler.pose_sequence st) ->
               Sampler.Frame.time r <= bound.



(** Two states of the run hold the same active dance. *)
Definition same_dance (st st' : Sampler.Locals) : Prop :=
  Sampler.current_dance_file st' = Sampler.current_dance_file st
  /\ Sampler.current_dance_duration st' = Sampler.current_dance_duration st
  /\ Sampler.current_dance_elapsed st' = Sampler.current_dance_elapsed st
  /\ Sampler.current_intensity st' = Sampler.current_intensity st.

(** An array of rank 3 or 4 all of whose frames can be read. *)
Definition readable (kp : Sampler.Keypoints) : Prop :=
  kp <> Sampler.ArrOther
  /\ forall i, (0 <= i < Sampler.num_frames kp)%Z ->
               Sampler.frame_at kp i <> None.

(** The frames the segments yield at a frame rate. *)
Definition frames_of_segment (frame_rate : Q) (seg : Sampler.Segment) : nat :=
  let '(start_time, end_time, _, _) := seg in
  Z.to_nat (Py.int ((end_time - start_time) * frame_rate)).

Definition frames_of_segments (frame_rate : Q) (segs : list Sampler.Segment)
  : nat :=
  fold_right (fun seg n => (frames_of_segment frame_rate seg + n)%nat) 0%nat
             segs.

(** The song duration a run works with. *)
Definition run_duration (w : Sampler.World) (audio_file : string)
           (song_duration : option Q) : option Q :=
  match Sampler.load_audio w audio_file, song_duration with
  | None, _ => None
  | Some _, Some d => Some d
  | Some secs, None => Some secs
  end.

(** The active dance a successful selection leaves. *)
Definition selected (w : Sampler.World) (i : Sampler.DanceIntensity)
           (st : Sampler.Locals) : Prop :=
  exists d,
    In d (pool w i)
    /\ Sampler.current_dance_file st = Some d
    /\ Sampler.current_dance_elapsed st = 0
    /\ Sampler.current_intensity st = Some i.

(** A record names a dance of the catalogue and one of the three labels. *)
Definition from_catalogue (w : Sampler.World) (r : Sampler.Frame.t) : Prop :=
  (exists d, Sampler.Frame.dance_file r = Some d
             /\ In d (Sampler.available_dances w))
  /\ In (Sampler.Frame.intensity r)
        ["low"%string; "medium"%string; "high"%string].

(** The active dance, if any, is a dance of the catalogue. *)
Definition active_from_catalogue (w : Sampler.World) (st : Sampler.Locals)
  : Prop :=
  forall f, Sampler.current_dance_file st = Some f ->
            In f (Sampler.available_dances w).

(** Every dance file of the catalogue has a name and loads, at every call,
    as a readable array with at least one frame. *)
Definition well_stocked (w : Sampler.World) : Prop :=
  forall f, In f (Sampler.available_dances w) ->
    f <> EmptyString
    /\ forall call, exists kp,
        Sampler.load_keypoint_file w call f = Some kp
        /\ readable kp /\ (0 < Sampler.num_frames kp)%Z.

(** A record carries a pose without NaN. *)
Definition posed (r : Sampler.Frame.t) : Prop :=
  exists p, Sampler.Frame.pose_data r = Some p /\ Sampler.has_nan p = false.

(** Two scorers with one configuration and one reference. *)
Definition same_setup (s s' : Scorer.RealTimePoseScorer) : Prop :=
  Scorer.spatial_weight s' = Scorer.spatial_weight s
  /\ Scorer.timing_weight s' = Scorer.timing_weight s
  /\ Scorer.rhythm_weight s' = Scorer.rhythm_weight s
  /\ Scorer.alpha s' = Scorer.alpha s
  /\ Scorer.smoothing_factor s' = Scorer.smoothing_factor s
  /\ Scorer.max_history s' = Scorer.max_history s
  /\ Scorer.reference_poses s' = Scorer.reference_poses s
  /\ Scorer.reference_timestamps s' = Scorer.reference_timestamps s.

(** A value of the unit interval. *)
Definition unit_interval (q : Q) : Prop := 0 <= q <= 1.

(** Coordinate [j] of joint [i] of a pose. *)
Definition coord (p : Scorer.Pose) (i j : nat) : option Q :=
  match nth_error p i with
  | Some row => nth_error row j
  | None => None
  end.

(** A stored score whose four components are numbers of [0, 1], the
    spatial and the frame component being one number. *)
Definition unit_pose_score (ps : Scorer.PoseScore) : Prop :=
  (exists q, Scorer.spatial_score ps = Fin q
             /\ Scorer.frame_score ps = Fin q /\ unit_interval q)
  /\ unit_interval (Scorer.timing_score ps)
  /\ unit_interval (Scorer.rhythm_score ps).

(** Weights that are not negative and sum to 1. *)
Definition normalized_weights (s : Scorer.RealTimePoseScorer) : Prop :=
  0 <= Scorer.spatial_weight s /\ 0 <= Scorer.timing_weight s
  /\ 0 <= Scorer.rhythm_weight s
  /\ Scorer.spatial_weight s + Scorer.timing_weight s
     + Scorer.rhythm_weight s == 1.



(** Every frame has [joints] rows of [coords] values. *)
Definition shaped (joints coords : nat) (frames : list (list (list xfloat)))
  : Prop :=
  Forall (fun frame =>
            length frame = joints
            /\ Forall (fun row => length row = coords) frame) frames.

(** A landmark that was never assigned. *)
Definition zero_landmark : list xfloat := [Fin 0; Fin 0; Fin 0].

(** The landmarks the COCO table assigns. *)
Definition mapped_landmarks : list nat := map snd Loader.coco_to_mediapipe.

(** The character occurs in the string. *)
Fixpoint has_char (c : ascii) (s : string) : bool :=
  match s with
  | EmptyString => false
  | String d rest => Ascii.eqb d c || has_char c rest
  end.

(** A piece of a file name: no underscore and no dot. *)
Definition plain (s : string) : Prop :=
  has_char "_" s = false /\ has_char "." s = false.

(** ['_'.join(parts)] *)
Fixpoint join_underscore (parts : list string) : string :=
  match parts with
  | [] => EmptyString
  | [p] => p
  | p :: rest => (p ++ "_" ++ join_underscore rest)%string
  end.

(** Every joint of the pose has [C] values. *)
Definition columns (C : nat) (p : Sampler.Pose) : Prop :=
  Forall (fun row => length row = C) p.

(* ===================================================================== *)
(** * Part II.  Properties                                                *)
(* ===================================================================== *)

(** ** Comparisons, [min], [max] and [int] *)

Lemma Qlt_bool_iff (a b : Q) : Py.Qlt_bool a b = true <-> a < b.
Proof.
  unfold Py.Qlt_bool. rewrite negb_true_iff.
  split; intro H.
  - apply Qnot_le_lt. intro L. apply Qle_bool_iff in L. congruence.
  - destruct (Qle_bool b a) eqn:E; [|reflexivity].
    apply Qle_bool_iff in E. exfalso. apply (Qlt_not_le _ _ H E).
Qed.

Lemma Qlt_bool_false_iff (a b : Q) : Py.Qlt_bool a b = false <-> b <= a.
Proof.
  unfold Py.Qlt_bool. rewrite negb_false_iff. apply Qle_bool_iff.
Qed.

Lemma Qle_bool_false_iff (a b : Q) : Qle_bool a b = false <-> b < a.
Proof.
  rewrite <- Qlt_bool_iff. unfold Py.Qlt_bool.
  destruct (Qle_bool a b); simpl; split; congruence.
Qed.

Lemma Qeq_bool_false_iff (a b : Q) : Qeq_bool a b = false <-> ~ a == b.
Proof.
  split; intro H.
  - now apply Qeq_bool_neq.
  - destruct (Qeq_bool a b) eqn:E; [|reflexivity].
    apply Qeq_bool_eq in E. contradiction.
Qed.

Lemma min2_cases (a b : Q) :
  (b < a /\ Py.min2 a b = b) \/ (a <= b /\ Py.min2 a b = a).
Proof.
  unfold Py.min2. destruct (Py.Qlt_bool b a) eqn:E.
  - left. split; [now apply Qlt_bool_iff | reflexivity].
  - right. split; [now apply Qlt_bool_false_iff | reflexivity].
Qed.

Lemma max2_cases (a b : Q) :
  (a < b /\ Py.max2 a b = b) \/ (b <= a /\ Py.max2 a b = a).
Proof.
  unfold Py.max2. destruct (Py.Qlt_bool a b) eqn:E.
  - left. split; [now apply Qlt_bool_iff | reflexivity].
  - right. split; [now apply Qlt_bool_false_iff | reflexivity].
Qed.

(** [min(xs)] is an element of the list and a lower bound of it. *)
Lemma min_list_spec (xs : list Q) (a : Q) :
  In (Py.min_list a xs) (a :: xs)
  /\ forall x, In x (a :: xs) -> Py.min_list a xs <= x.
Proof.
  unfold Py.min_list. revert a.
  induction xs as [|y ys IH]; intro a; simpl.
  - split; [now left|]. intros x [<-|[]]. apply Qle_refl.
  - destruct (IH (Py.min2 a y)) as [Hin Hlb]. split.
    + destruct Hin as [Heq|Hin]; [|now right; right].
      rewrite <- Heq.
      destruct (min2_cases a y) as [[_ ->]|[_ ->]]; [right|]; now left.
    + intros x Hx.
      assert (Hm : Py.min2 a y <= a /\ Py.min2 a y <= y).
      { destruct (min2_cases a y) as [[H ->]|[H ->]]; split;
          try apply Qle_refl; try assumption. now apply Qlt_le_weak. }
      destruct Hx as [<-|[<-|Hx]].
      * eapply Qle_trans; [apply Hlb; now left | apply Hm].
      * eapply Qle_trans; [apply Hlb; now left | apply Hm].
      * apply Hlb. now right.
Qed.

(** [max(xs)] is an element of the list and an upper bound of it. *)
Lemma max_list_spec (xs : list Q) (a : Q) :
  In (Py.max_list a xs) (a :: xs)
  /\ forall x, In x (a :: xs) -> x <= Py.max_list a xs.
Proof.
  unfold Py.max_list. revert a.
  induction xs as [|y ys IH]; intro a; simpl.
  - split; [now left|]. intros x [<-|[]]. apply Qle_refl.
  - destruct (IH (Py.max2 a y)) as [Hin Hub]. split.
    + destruct Hin as [Heq|Hin]; [|now right; right].
      rewrite <- Heq.
      destruct (max2_cases a y) as [[_ ->]|[_ ->]]; [right|]; now left.
    + intros x Hx.
      assert (Hm : a <= Py.max2 a y /\ y <= Py.max2 a y).
      { destruct (max2_cases a y) as [[H ->]|[H ->]]; split;
          try apply Qle_refl; try assumption. now apply Qlt_le_weak. }
      destruct Hx as [<-|[<-|Hx]].
      * eapply Qle_trans; [apply Hm | apply Hub; now left].
      * eapply Qle_trans; [apply Hm | apply Hub; now left].
      * apply Hub. now right.
Qed.

(** On a non-negative float, [int] is the floor. *)
Lemma int_floor (x : Q) : 0 <= x -> Py.int x = Qfloor x.
Proof.
  destruct x as [n d]. unfold Qle, Py.int, Qfloor. simpl. intro H.
  apply Z.quot_div_nonneg; lia.
Qed.

Lemma int_le (x : Q) : 0 <= x -> inject_Z (Py.int x) <= x.
Proof. intro H. rewrite int_floor by assumption. apply Qfloor_le. Qed.

(** ** Intensity classification *)

(** C6 (as amended).  The label is Low exactly when the score is at most
    the low threshold, High exactly when it is above the low threshold and
    at least the high threshold, and Medium exactly when it lies strictly
    between the two; a score equal to the low threshold is Low, and a score
    equal to the high threshold is High when the low threshold is strictly
    below the high one. *)
Theorem classify_intensity_spec (s low high : Q) :
  (Sampler.classify_intensity s low high = Sampler.LOW <-> s <= low)
  /\ (Sampler.classify_intensity s low high = Sampler.HIGH
      <-> low < s /\ high <= s)
  /\ (Sampler.classify_intensity s low high = Sampler.MEDIUM
      <-> low < s /\ s < high)
  /\ Sampler.classify_intensity low low high = Sampler.LOW
  /\ (low < high -> Sampler.classify_intensity high low high = Sampler.HIGH).
Proof.
  assert (G : forall s0,
             (Sampler.classify_intensity s0 low high = Sampler.LOW
              <-> s0 <= low)
             /\ (Sampler.classify_intensity s0 low high = Sampler.HIGH
                 <-> low < s0 /\ high <= s0)
             /\ (Sampler.classify_intensity s0 low high = Sampler.MEDIUM
                 <-> low < s0 /\ s0 < high)).
  { intro s0. unfold Sampler.classify_intensity.
    destruct (Qle_bool s0 low) eqn:E1.
    - apply Qle_bool_iff in E1.
      repeat split; try discriminate; try tauto;
        intros [H _]; exfalso; apply (Qlt_not_le _ _ H E1).
    - apply Qle_bool_false_iff in E1.
      destruct (Qle_bool high s0) eqn:E2.
      + apply Qle_bool_iff in E2.
        repeat split; try discriminate; try tauto.
        * intro H. exfalso. apply (Qlt_not_le _ _ E1 H).
        * intros [_ H]. exfalso. apply (Qlt_not_le _ _ H E2).
      + apply Qle_bool_false_iff in E2.
        repeat split; try discriminate; try tauto.
        * intro H. exfalso. apply (Qlt_not_le _ _ E1 H).
        * intros [_ H]. exfalso. apply (Qlt_not_le _ _ E2 H). }
  destruct (G s) as (A & B & C). repeat split; try tauto.
  - apply (G low). apply Qle_refl.
  - intro H. apply (G high). split; [assumption | apply Qle_refl].
Qed.

Lemma classify_intensity_spec_witness :
  Sampler.classify_intensity (7 # 10) (3 # 10) (7 # 10) = Sampler.HIGH.
Proof.
  apply (classify_intensity_spec (44 # 100) (3 # 10) (7 # 10)).
  reflexivity.
Defined.

(** C6, as first stated, fails where the two thresholds coincide: a score
    equal to both is at least the high threshold, and is labelled Low. *)
Lemma classify_intensity_equal_thresholds :
  (1 # 2) <= (1 # 2)
  /\ (1 # 2) <= (1 # 2)
  /\ Sampler.classify_intensity (1 # 2) (1 # 2) (1 # 2) = Sampler.LOW
  /\ Sampler.classify_intensity (1 # 2) (1 # 2) (1 # 2) <> Sampler.HIGH.
Proof.
  repeat split; try apply Qle_refl; discriminate.
Qed.

(** ** Feature normalization *)

Lemma normalize_bpm_cases (bpm : Q) :
  (bpm <= 60 -> Sampler.normalize_bpm bpm == 0)
  /\ (200 <= bpm -> Sampler.normalize_bpm bpm == 1)
  /\ (60 <= bpm <= 200 -> Sampler.normalize_bpm bpm == (bpm - 60) / 140).
Proof.
  unfold Sampler.normalize_bpm.
  set (v := (bpm - 60) / (200 - 60)).
  assert (Hv : v == (bpm - 60) / 140) by (unfold v; field).
  assert (Hv' : v == (bpm - 60) * (1 # 140)) by (unfold v; field).
  destruct (min2_cases 1 v) as [[H1 E1]|[H1 E1]]; rewrite E1;
    (destruct (max2_cases 0 (Py.min2 1 v)) as [[H2 E2]|[H2 E2]];
     rewrite E1 in *; rewrite E2; clear E1 E2);
    repeat split; intros; try (rewrite <- Hv); try reflexivity;
      rewrite Hv' in *; lra.
Qed.

(** C7.  A non-empty list of equal amplitudes normalizes to as many 0.5;
    a list with two different amplitudes is min-max normalized with the
    least and the greatest amplitude of the whole list; every BPM is sent
    to (bpm - 60)/140 clamped to [0, 1], so 40, 260 and 130 go to 0, 1
    and 0.5. *)
Theorem normalize_features_spec (amplitudes bpms : list Q) :
  let norm_amplitudes := fst (Sampler.normalize_features amplitudes bpms) in
  let norm_bpms := snd (Sampler.normalize_features amplitudes bpms) in
  length norm_amplitudes = length amplitudes
  /\ (amplitudes <> [] ->
      (forall x y, In x amplitudes -> In y amplitudes -> x == y) ->
      norm_amplitudes = repeat (1 # 2) (length amplitudes))
  /\ ((exists x y, In x amplitudes /\ In y amplitudes /\ ~ x == y) ->
      exists lo hi,
        In lo amplitudes /\ In hi amplitudes /\ lo < hi
        /\ (forall x, In x amplitudes -> lo <= x <= hi)
        /\ norm_amplitudes = map (fun x => (x - lo) / (hi - lo)) amplitudes)
  /\ norm_bpms = map Sampler.normalize_bpm bpms
  /\ (forall bpm,
        (bpm <= 60 -> Sampler.normalize_bpm bpm == 0)
        /\ (200 <= bpm -> Sampler.normalize_bpm bpm == 1)
        /\ (60 <= bpm <= 200 ->
            Sampler.normalize_bpm bpm == (bpm - 60) / 140))
  /\ Sampler.normalize_bpm 40 == 0
  /\ Sampler.normalize_bpm 260 == 1
  /\ Sampler.normalize_bpm 130 == 1 # 2.
Proof.
  cbv zeta. unfold Sampler.normalize_features. simpl fst. simpl snd.
  repeat split; try apply normalize_bpm_cases; try reflexivity.
  - unfold Sampler.normalize_amplitudes.
    destruct amplitudes as [|a rest]; [reflexivity|].
    destruct (Py.Qlt_bool _ _);
      [apply length_map | apply repeat_length].
  - intros Hne Heq. unfold Sampler.normalize_amplitudes.
    destruct amplitudes as [|a rest]; [congruence|].
    destruct (Py.Qlt_bool _ _) eqn:E; [|reflexivity].
    apply Qlt_bool_iff in E.
    destruct (min_list_spec rest a) as [Hmin _].
    destruct (max_list_spec rest a) as [Hmax _].
    rewrite (Heq _ _ Hmin Hmax) in E. exfalso. apply (Qlt_irrefl _ E).
  - intros (x & y & Hx & Hy & Hxy). unfold Sampler.normalize_amplitudes.
    destruct amplitudes as [|a rest]; [destruct Hx|].
    destruct (min_list_spec rest a) as [Hmin Hlb].
    destruct (max_list_spec rest a) as [Hmax Hub].
    destruct (Py.Qlt_bool _ _) eqn:E.
    + apply Qlt_bool_iff in E.
      exists (Py.min_list a rest), (Py.max_list a rest).
      repeat split; auto.
    + apply Qlt_bool_false_iff in E. exfalso. apply Hxy.
      pose proof (Hlb _ Hx). pose proof (Hub _ Hx).
      pose proof (Hlb _ Hy). pose proof (Hub _ Hy). lra.
Qed.

Lemma normalize_features_spec_witness :
  fst (Sampler.normalize_features [5; 5; 5] [40; 260; 130])
  = [1 # 2; 1 # 2; 1 # 2]
  /\ exists lo hi,
      lo < hi
      /\ fst (Sampler.normalize_features [2; 4; 3] [])
         = map (fun x => (x - lo) / (hi - lo)) [2; 4; 3].
Proof.
  split.
  - apply (normalize_features_spec [5; 5; 5] [40; 260; 130]).
    + discriminate.
    + intros x y Hx Hy. simpl in Hx, Hy.
      destruct Hx as [<-|[<-|[<-|[]]]]; destruct Hy as [<-|[<-|[<-|[]]]];
        reflexivity.
  - destruct (normalize_features_spec [2; 4; 3] []) as (_ & _ & H & _).
    destruct H as (lo & hi & _ & _ & Hlt & _ & E).
    + exists 2, 4. simpl. repeat split; auto. intro H. discriminate H.
    + exists lo, hi. split; assumption.
Defined.

(** The boundary example of the specification: weights (0.6, 0.4) with
    normalized amplitude 0.2 and tempo 0.8 score 0.44, which is Medium
    between 0.3 and 0.7. *)
Example classify_intensity_example :
  Sampler.calculate_intensity_score example_sampler (2 # 10) (8 # 10)
  == 44 # 100
  /\ Sampler.classify_intensity
       (Sampler.calculate_intensity_score example_sampler (2 # 10) (8 # 10))
       (3 # 10) (7 # 10) = Sampler.MEDIUM.
Proof. split; reflexivity. Qed.

(** ** Weights at construction *)

(** C1 (as amended).  The sequencer divides its two weights by their sum:
    for positive weights construction succeeds and the stored pair sums to
    1 (in exact arithmetic), inputs (3, 1) giving (0.75, 0.25).  The scorer
    stores its three weights exactly as given. *)
Theorem weights_at_construction :
  (forall a b segment_duration transition_smoothing,
      0 < a -> 0 < b ->
      exists s,
        Sampler.init a b segment_duration transition_smoothing = Some s
        /\ Sampler.amplitude_weight s == a / (a + b)
        /\ Sampler.bpm_weight s == b / (a + b)
        /\ Sampler.amplitude_weight s + Sampler.bpm_weight s == 1)
  /\ (exists s, Sampler.init 3 1 5 (1 # 10) = Some s
                /\ Sampler.amplitude_weight s == 3 # 4
                /\ Sampler.bpm_weight s == 1 # 4)
  /\ (forall sw tw rw alpha smoothing_factor max_history,
         (0 <= max_history)%Z ->
         exists s,
           Scorer.init sw tw rw alpha smoothing_factor max_history = Some s
           /\ Scorer.spatial_weight s = sw
           /\ Scorer.timing_weight s = tw
           /\ Scorer.rhythm_weight s = rw).
Proof.
  repeat split.
  - intros a b sd ts Ha Hb. unfold Sampler.init, Py.fdiv.
    assert (Hne : ~ a + b == 0) by lra.
    apply Qeq_bool_false_iff in Hne. rewrite Hne.
    eexists. split; [reflexivity|]. simpl.
    apply Qeq_bool_false_iff in Hne.
    repeat split; try reflexivity. field. exact Hne.
  - eexists. split; [reflexivity|]. split; reflexivity.
  - intros sw tw rw al sf mh Hmh. unfold Scorer.init.
    destruct (mh <? 0)%Z eqn:E; [apply Z.ltb_lt in E; lia|].
    eexists. split; [reflexivity|]. repeat split.
Qed.

Lemma weights_at_construction_witness :
  (exists s, Sampler.init (6 # 10) (4 # 10) 5 (1 # 10) = Some s
             /\ Sampler.amplitude_weight s + Sampler.bpm_weight s == 1)
  /\ (exists s, Scorer.init 3 1 1 2 (3 # 10) 100 = Some s
                /\ Scorer.spatial_weight s = 3).
Proof.
  destruct weights_at_construction as (H1 & _ & H3). split.
  - destruct (H1 (6 # 10) (4 # 10) 5 (1 # 10)) as (s & E & _ & _ & Hs);
      [reflexivity | reflexivity |].
    exists s. split; assumption.
  - destruct (H3 3 1 1 2 (3 # 10) 100%Z) as (s & E & Hs & _);
      [discriminate |].
    exists s. split; assumption.
Defined.

(** C1, as first stated, fails for the scorer: weights (3, 1, 1) are kept
    as they are and sum to 5. *)
Lemma scorer_weights_not_normalized :
  exists s,
    Scorer.init 3 1 1 2 (3 # 10) 100 = Some s
    /\ Scorer.spatial_weight s + Scorer.timing_weight s
       + Scorer.rhythm_weight s == 5
    /\ ~ Scorer.spatial_weight s + Scorer.timing_weight s
         + Scorer.rhythm_weight s == 1.
Proof.
  eexists. split; [reflexivity|]. simpl. split; [reflexivity|].
  intro H. discriminate H.
Qed.

(** In binary64 the sum of the two stored weights of the sequencer is 1
    for the inputs (3, 1), which become (0.75, 0.25), but it is one unit in
    the last place below 1 for other inputs: normalization then holds up to
    rounding only. *)
Section Binary64Check.

Import PrimFloat.

Lemma binary64_weights_rounding :
  Binary64.normalized_weights 3 1 = (0.75, 0.25)%float
  /\ PrimFloat.eqb (Binary64.weight_sum 3 1) 1 = true
  /\ PrimFloat.eqb
       (Binary64.weight_sum 0x1.3d34da4886661p+1 0x1.1fcd62516d786p+1) 1
     = false.
Proof. repeat split. Qed.

End Binary64Check.

(** ** Pose normalization *)

Lemma column_rect (k C : nat) (p : Scorer.Pose) :
  rect C p -> (k < C)%nat -> Scorer.column k p = Some (col k p).
Proof.
  intros Hr Hk. induction Hr as [|row rest Hrow _ IH]; [reflexivity|].
  simpl. rewrite IH.
  destruct (nth_error row k) eqn:E.
  - now rewrite (nth_error_nth _ _ 0 E).
  - apply nth_error_None in E. lia.
Qed.

Lemma valid_mask_rect (C : nat) (p : Scorer.Pose) :
  rect C p -> (2 <= C)%nat -> Scorer.valid_mask p = Some (map joint_valid p).
Proof.
  intros Hr HC. unfold Scorer.valid_mask.
  rewrite (column_rect 0 C), (column_rect 1 C) by (assumption || lia).
  f_equal. unfold col. clear Hr.
  induction p as [|row rest IH]; [reflexivity|].
  simpl. now rewrite IH.
Qed.

Lemma select_rows_filter (f : list Q -> bool) (p : Scorer.Pose) :
  Scorer.select_rows (map f p) p = filter f p.
Proof.
  induction p as [|row rest IH]; [reflexivity|].
  simpl. destruct (f row); now rewrite IH.
Qed.

Lemma existsb_mask (f : list Q -> bool) (p : Scorer.Pose) :
  existsb (fun b => b) (map f p) = false <-> filter f p = [].
Proof.
  induction p as [|row rest IH]; simpl; [tauto|].
  destruct (f row); simpl; [split; discriminate | exact IH].
Qed.

Lemma nth_map2 (f : Q -> Q -> Q) (k : nat) (xs ys : list Q) :
  length xs = length ys -> (k < length xs)%nat ->
  nth k (Scorer.map2 f xs ys) 0 = f (nth k xs 0) (nth k ys 0).
Proof.
  revert k ys. induction xs as [|x xs IH]; intros k ys Hl Hk;
    [simpl in Hk; lia|].
  destruct ys as [|y ys]; [discriminate|].
  destruct k as [|k]; [reflexivity|].
  simpl. apply IH; simpl in *; lia.
Qed.

Lemma length_map2 (f : Q -> Q -> Q) (xs ys : list Q) :
  length xs = length ys -> length (Scorer.map2 f xs ys) = length xs.
Proof.
  revert ys. induction xs as [|x xs IH]; intros [|y ys] Hl;
    try discriminate; [reflexivity|].
  simpl. f_equal. apply IH. simpl in Hl. lia.
Qed.

(** A column-wise fold over rows of one length folds every column. *)
Lemma fold_columns (f : Q -> Q -> Q) (C : nat) (rest : Scorer.Pose) :
  rect C rest ->
  forall row, length row = C ->
    length (fold_left (Scorer.map2 f) rest row) = C
    /\ forall k, (k < C)%nat ->
         nth k (fold_left (Scorer.map2 f) rest row) 0
         = fold_left f (col k rest) (nth k row 0).
Proof.
  induction 1 as [|r rest Hr _ IH]; intros row Hrow; simpl.
  - split; [assumption | reflexivity].
  - destruct (IH (Scorer.map2 f row r)) as [Hl Hn].
    { rewrite length_map2; congruence. }
    split; [assumption|]. intros k Hk.
    rewrite Hn by assumption. f_equal.
    apply nth_map2; congruence || lia.
Qed.

Lemma min_coords_spec (C : nat) (pts : Scorer.Pose) :
  rect C pts -> pts <> [] ->
  length (Scorer.min_coords pts) = C
  /\ forall k, (k < C)%nat -> least (nth k (Scorer.min_coords pts) 0) (col k pts).
Proof.
  intros Hr Hne. destruct pts as [|row rest]; [congruence|].
  inversion Hr as [|? ? Hrow Hrest]; subst.
  destruct (fold_columns Py.min2 (length row) rest Hrest row eq_refl)
    as [Hl Hn].
  split; [exact Hl|]. intros k Hk. simpl Scorer.min_coords.
  rewrite Hn by assumption. apply (min_list_spec (col k rest)).
Qed.

Lemma max_coords_spec (C : nat) (pts : Scorer.Pose) :
  rect C pts -> pts <> [] ->
  length (Scorer.max_coords pts) = C
  /\ forall k, (k < C)%nat ->
       greatest (nth k (Scorer.max_coords pts) 0) (col k pts).
Proof.
  intros Hr Hne. destruct pts as [|row rest]; [congruence|].
  inversion Hr as [|? ? Hrow Hrest]; subst.
  destruct (fold_columns Py.max2 (length row) rest Hrest row eq_refl)
    as [Hl Hn].
  split; [exact Hl|]. intros k Hk. simpl Scorer.max_coords.
  rewrite Hn by assumption. apply (max_list_spec (col k rest)).
Qed.

Lemma rect_filter (C : nat) (f : list Q -> bool) (p : Scorer.Pose) :
  rect C p -> rect C (filter f p).
Proof.
  unfold rect. rewrite !Forall_forall. intros H r Hr.
  apply filter_In in Hr. now apply H.
Qed.

(** C5 (as amended).  On an array with at least two columns,
    [normalize_pose] leaves the pose as it is when no joint is valid (a
    joint is invalid when its x and y are both 0); otherwise it takes, per
    column, the least and the greatest coordinate over the valid joints
    only, the height maxY - minY, replaced by 1 only when it is exactly 0,
    and returns every joint translated by the centre of that box and
    divided by that height.  The divisor is never 0; it may be below 1. *)
Theorem normalize_pose_spec (pose : Scorer.ndarray) (C : nat) :
  let rows := Scorer.at_least_2d pose in
  let valid := filter joint_valid rows in
  rect C rows -> (2 <= C)%nat ->
  (valid = [] -> Scorer.normalize_pose pose = Some rows)
  /\ (valid <> [] ->
      exists lo hi,
        length lo = C /\ length hi = C
        /\ (forall k, (k < C)%nat ->
              least (nth k lo 0) (col k valid)
              /\ greatest (nth k hi 0) (col k valid))
        /\ let height := nth 1 hi 0 - nth 1 lo 0 in
           let divisor := if Qeq_bool height 0 then 1 else height in
           let center := Scorer.map2 (fun a b => (a + b) / 2) lo hi in
           ~ divisor == 0
           /\ Scorer.normalize_pose pose
              = Some (map (fun row =>
                             Scorer.map2 (fun x c => (x - c) / divisor)
                                         row center) rows)).
Proof.
  intros rows valid Hr HC. unfold Scorer.normalize_pose. fold rows.
  split.
  - intro Hv. destruct rows as [|r0 rest] eqn:Erows; [reflexivity|].
    rewrite (valid_mask_rect C) by assumption.
    apply (existsb_mask joint_valid) in Hv. now rewrite Hv.
  - intro Hv. destruct rows as [|r0 rest] eqn:Erows; [now elim Hv|].
    rewrite (valid_mask_rect C) by assumption.
    destruct (existsb (fun b => b) (map joint_valid (r0 :: rest))) eqn:E;
      [|apply existsb_mask in E; contradiction].
    simpl negb. cbv iota. rewrite select_rows_filter. fold valid.
    assert (Hrv : rect C valid) by (apply rect_filter; assumption).
    destruct (min_coords_spec C valid Hrv Hv) as [Hlmin Hmin].
    destruct (max_coords_spec C valid Hrv Hv) as [Hlmax Hmax].
    exists (Scorer.min_coords valid), (Scorer.max_coords valid).
    repeat split; try assumption; try (now apply Hmin); try (now apply Hmax).
    destruct (Qeq_bool _ 0) eqn:E0; [intro H; discriminate H|].
    now apply Qeq_bool_false_iff.
Qed.

Lemma normalize_pose_spec_witness :
  Scorer.normalize_pose (Scorer.Arr2 [[0; 0]; [0; 0]])
  = Some [[0; 0]; [0; 0]]
  /\ exists out,
      Scorer.normalize_pose (Scorer.Arr2 [[1; 1]; [0; 0]; [3; 5]]) = Some out.
Proof.
  split.
  - apply (normalize_pose_spec (Scorer.Arr2 [[0; 0]; [0; 0]]) 2).
    + repeat constructor.
    + lia.
    + reflexivity.
  - destruct (normalize_pose_spec (Scorer.Arr2 [[1; 1]; [0; 0]; [3; 5]]) 2)
      as [_ H].
    + repeat constructor.
    + lia.
    + destruct H as (lo & hi & _ & _ & _ & _ & E); [discriminate|].
      eexists. exact E.
Defined.

(** C5, as first stated, fails on a pose whose valid joints span a height
    of 0.5: the divisor is 0.5, not 1, and the two joints come out 1 apart. *)
Lemma normalize_pose_height_below_one :
  let pts := [[0; 1]; [0; 3 # 2]] in
  Scorer.bbox_height (Scorer.min_coords pts) (Scorer.max_coords pts) == 1 # 2
  /\ Scorer.bbox_height (Scorer.min_coords pts) (Scorer.max_coords pts) < 1
  /\ exists j0 j1,
      Scorer.normalize_pose (Scorer.Arr2 pts) = Some [j0; j1]
      /\ nth 1 j1 0 - nth 1 j0 0 == 1.
Proof.
  cbv zeta. split; [reflexivity|]. split; [reflexivity|].
  eexists. eexists. split; [reflexivity|]. reflexivity.
Qed.

(** ** Reference alignment *)

Lemma Qfloor_unique (z : Z) (q : Q) :
  inject_Z z <= q -> q < inject_Z (z + 1) -> Qfloor q = z.
Proof.
  intros Hlo Hhi. apply Z.le_antisymm.
  - assert (H : (Qfloor q < z + 1)%Z); [|lia].
    rewrite Zlt_Qlt. eapply Qle_lt_trans; [apply Qfloor_le | exact Hhi].
  - rewrite <- (Qfloor_Z z). now apply Qfloor_resp_le.
Qed.

Lemma Qfloor_succ (q : Q) : Qfloor (q + 1) = (Qfloor q + 1)%Z.
Proof.
  apply Qfloor_unique.
  - rewrite inject_Z_plus. pose proof (Qfloor_le q).
    change (inject_Z 1) with 1. lra.
  - rewrite !inject_Z_plus. pose proof (Qlt_floor q) as H.
    rewrite inject_Z_plus in H. change (inject_Z 1) with 1 in *. lra.
Qed.

(** The position inside the loop is a fraction in [0, 1). *)
Lemma Qmod_progress (x d : Q) :
  ~ d == 0 -> 0 <= Qmod x d / d /\ Qmod x d / d < 1.
Proof.
  intro Hd. unfold Qmod.
  assert (E : (x - d * inject_Z (Qfloor (x / d))) / d
              == x / d - inject_Z (Qfloor (x / d))) by (field; exact Hd).
  rewrite E. pose proof (Qfloor_le (x / d)) as H1.
  pose proof (Qlt_floor (x / d)) as H2.
  rewrite inject_Z_plus in H2. change (inject_Z 1) with 1 in H2. lra.
Qed.

(** One more loop of the reference leaves the position unchanged. *)
Lemma Qmod_period (x y d : Q) :
  ~ d == 0 -> y - x == d -> Qmod y d == Qmod x d.
Proof.
  intros Hd E. unfold Qmod.
  assert (Ey : y / d == x / d + 1).
  { assert (Hy : y == x + d) by lra. rewrite Hy. field. exact Hd. }
  rewrite (Qfloor_comp _ _ Ey), Qfloor_succ, inject_Z_plus.
  change (inject_Z 1) with 1. lra.
Qed.

Lemma aligned_index_period (start t1 t2 d : Q) (n : nat) :
  ~ d == 0 -> t2 - t1 == d ->
  aligned_index start t2 d n = aligned_index start t1 d n.
Proof.
  intros Hd E. unfold aligned_index.
  rewrite (Qfloor_comp
             (Qmod (t2 - start) d / d * inject_Z (Z.of_nat n))
             (Qmod (t1 - start) d / d * inject_Z (Z.of_nat n)));
    [reflexivity|].
  rewrite (Qmod_period (t1 - start) (t2 - start) d Hd); [reflexivity | lra].
Qed.

(** *** Binary64 rounding and the modulo *)

Lemma round64_comp (x y : Q) : x == y -> Py.round64 x = Py.round64 y.
Proof.
  intro E. unfold Py.round64. now rewrite (Qred_complete x y E).
Qed.

Lemma round_half_even_nonneg (x : Q) :
  0 <= x -> (0 <= Py.round_half_even x)%Z.
Proof.
  intro Hx. unfold Py.round_half_even.
  assert (0 <= Qfloor x)%Z
    by (change 0%Z with (Qfloor 0); now apply Qfloor_resp_le).
  destruct (Py.Qlt_bool _ _); [assumption|].
  destruct (Py.Qlt_bool _ _); [lia|].
  destruct (Z.even _); lia.
Qed.

Lemma round_positive_nonneg (q : Q) : 0 <= q -> 0 <= Py.round_positive q.
Proof.
  intro Hq. unfold Py.round_positive.
  set (unit := 2 ^ Z.max (Py.ilog2 q - 52) (-1074)).
  assert (Hu : 0 < unit) by (apply Qpower_0_lt; reflexivity).
  apply Qmult_le_0_compat; [|lra].
  change 0 with (inject_Z 0). rewrite <- Zle_Qle.
  apply round_half_even_nonneg. apply Qle_shift_div_l; lra.
Qed.

Lemma round64_nonneg (x : Q) : 0 <= x -> 0 <= Py.round64 x.
Proof.
  intro Hx. unfold Py.round64.
  pose proof (Qred_correct x) as E. set (q := Qred x) in *.
  destruct (Qeq_bool q 0) eqn:E0; [lra|].
  destruct (Py.Qlt_bool 0 q) eqn:E1.
  - rewrite Qred_correct. apply round_positive_nonneg. lra.
  - apply Qlt_bool_false_iff in E1. apply Qeq_bool_false_iff in E0.
    exfalso. apply E0. lra.
Qed.

Lemma round64_nonpos (x : Q) : x <= 0 -> Py.round64 x <= 0.
Proof.
  intro Hx. unfold Py.round64.
  pose proof (Qred_correct x) as E. set (q := Qred x) in *.
  destruct (Qeq_bool q 0) eqn:E0; [lra|].
  destruct (Py.Qlt_bool 0 q) eqn:E1.
  - apply Qlt_bool_iff in E1. lra.
  - rewrite Qred_correct.
    assert (0 <= Py.round_positive (- q))
      by (apply round_positive_nonneg; lra).
    lra.
Qed.

(** Truncation and floor of a negative number. *)
Lemma int_negative (q : Q) :
  q < 0 ->
  (q == inject_Z (Qfloor q) /\ Py.int q = Qfloor q)
  \/ (inject_Z (Qfloor q) < q /\ Py.int q = (Qfloor q + 1)%Z).
Proof.
  destruct q as [n d]. unfold Qlt, Py.int, Qeq, Qfloor. simpl.
  intro Hn. rewrite Z.mul_1_r in Hn.
  pose proof (Z.quot_rem' n (Zpos d)) as Hq.
  pose proof (Z.rem_bound_abs n (Zpos d) ltac:(lia)) as Hr.
  pose proof (Z.rem_nonpos n (Zpos d) ltac:(lia) ltac:(lia)) as Hr0.
  pose proof (Z.div_mod n (Zpos d) ltac:(lia)) as Hd.
  pose proof (Z.mod_pos_bound n (Zpos d) ltac:(lia)) as Hm.
  destruct (Z.eq_dec (n mod Zpos d) 0) as [E|E].
  - left. split; [nia|]. nia.
  - right. split; [nia|]. nia.
Qed.

Lemma scale_bounds (d delta : Q) :
  0 <= delta -> delta < 1 ->
  (0 < d -> 0 <= d * delta /\ d * delta < d)
  /\ (d < 0 -> d < d * delta /\ d * delta <= 0).
Proof.
  intros H0 H1. split; intro Hd.
  - assert (A : 0 <= d * delta) by (apply Qmult_le_0_compat; lra).
    assert (B : 0 < d * (1 - delta)) by (apply Qmult_lt_0_compat; lra).
    assert (E : d * (1 - delta) == d - d * delta) by ring.
    rewrite E in B. lra.
  - assert (A : 0 <= (- d) * delta) by (apply Qmult_le_0_compat; lra).
    assert (B : 0 < (- d) * (1 - delta)) by (apply Qmult_lt_0_compat; lra).
    assert (Ea : (- d) * delta == - (d * delta)) by ring.
    assert (Eb : (- d) * (1 - delta) == d * delta - d) by ring.
    rewrite Ea in A. rewrite Eb in B. lra.
Qed.

(** The floored remainder is the divisor times the fractional part of the
    quotient. *)
Lemma Qmod_fraction (x d : Q) :
  ~ d == 0 ->
  let delta := x / d - inject_Z (Qfloor (x / d)) in
  0 <= delta /\ delta < 1 /\ Qmod x d == d * delta.
Proof.
  intros Hd delta. unfold delta.
  pose proof (Qfloor_le (x / d)) as H1.
  pose proof (Qlt_floor (x / d)) as H2.
  rewrite inject_Z_plus in H2. change (inject_Z 1) with 1 in H2.
  split; [lra|]. split; [lra|]. unfold Qmod. field. exact Hd.
Qed.

Lemma Qmod_comp (x y d : Q) : x == y -> Qmod x d == Qmod y d.
Proof.
  intro E. unfold Qmod.
  rewrite (Qfloor_comp (x / d) (y / d)) by (rewrite E; reflexivity).
  now rewrite E.
Qed.

(** Python's remainder against the floored remainder over the reals: it
    is that remainder, rounded when an addition was needed. *)
Lemma fmod_spec (x d : Q) :
  ~ d == 0 ->
  exists r,
    Py.fmod x d = Some r
    /\ ((r == Qmod x d /\ (0 <= x / d \/ Qmod x d == 0))
        \/ (r = Py.round64 (Qmod x d) /\ x / d < 0 /\ ~ Qmod x d == 0)).
Proof.
  intro Hd. unfold Py.fmod.
  assert (Ed : Qeq_bool d 0 = false) by now apply Qeq_bool_false_iff.
  rewrite Ed.
  destruct (Qmod_fraction x d Hd) as (D0 & D1 & Ep).
  set (delta := x / d - inject_Z (Qfloor (x / d))) in *.
  destruct (scale_bounds d delta D0 D1) as [Spos Sneg].
  destruct (Qlt_le_dec (x / d) 0) as [Hneg|Hpos].
  - destruct (int_negative (x / d) Hneg) as [[Eint Ei]|[Hlt Ei]];
      rewrite Ei.
    + fold (Qmod x d).
      assert (Ez : Qmod x d == 0).
      { rewrite Ep. unfold delta. rewrite <- Eint. ring. }
      apply Qeq_bool_iff in Ez as Eb. rewrite Eb.
      exists 0. split; [reflexivity|]. left. split; [now symmetry | now right].
    + set (m := x - d * inject_Z (Qfloor (x / d) + 1)).
      assert (Em : m == Qmod x d - d).
      { unfold m, Qmod. rewrite inject_Z_plus.
        change (inject_Z 1) with 1. ring. }
      assert (Hdelta : 0 < delta) by (unfold delta; lra).
      assert (Hp : ~ Qmod x d == 0).
      { rewrite Ep. intro E0. apply Qmult_integral in E0. lra. }
      assert (Hsame : Qmod x d + 0 == m + d) by (rewrite Em; ring).
      destruct (Q_dec d 0) as [[Hd0|Hd0]|Hd0]; [| |contradiction].
      * destruct (Sneg Hd0) as [B1 B2].
        assert (Hm : 0 < m) by (rewrite Em, Ep; lra).
        assert (E1 : Qeq_bool m 0 = false)
          by (apply Qeq_bool_false_iff; lra).
        assert (E2 : Py.Qlt_bool d 0 = true) by (apply Qlt_bool_iff; lra).
        assert (E3 : Py.Qlt_bool m 0 = false)
          by (apply Qlt_bool_false_iff; lra).
        rewrite E1, E2, E3. cbn [xorb negb].
        eexists. split; [reflexivity|]. right.
        split; [apply round64_comp; lra | now split].
      * destruct (Spos Hd0) as [B1 B2].
        assert (Hm : m < 0) by (rewrite Em, Ep; lra).
        assert (E1 : Qeq_bool m 0 = false)
          by (apply Qeq_bool_false_iff; lra).
        assert (E2 : Py.Qlt_bool d 0 = false)
          by (apply Qlt_bool_false_iff; lra).
        assert (E3 : Py.Qlt_bool m 0 = true) by (apply Qlt_bool_iff; lra).
        rewrite E1, E2, E3. cbn [xorb negb].
        eexists. split; [reflexivity|]. right.
        split; [apply round64_comp; lra | now split].
  - rewrite (int_floor (x / d) Hpos). fold (Qmod x d).
    destruct (Qeq_bool (Qmod x d) 0) eqn:E0.
    + apply Qeq_bool_iff in E0.
      exists 0. split; [reflexivity|]. left. split; [now symmetry | now left].
    + apply Qeq_bool_false_iff in E0.
      assert (E : xorb (Py.Qlt_bool d 0) (Py.Qlt_bool (Qmod x d) 0) = false).
      { destruct (Q_dec d 0) as [[Hd0|Hd0]|Hd0]; [| |contradiction].
        - destruct (Sneg Hd0) as [B1 B2].
          assert (E2 : Py.Qlt_bool d 0 = true) by (apply Qlt_bool_iff; lra).
          assert (E3 : Py.Qlt_bool (Qmod x d) 0 = true)
            by (apply Qlt_bool_iff; lra).
          now rewrite E2, E3.
        - destruct (Spos Hd0) as [B1 B2].
          assert (E2 : Py.Qlt_bool d 0 = false)
            by (apply Qlt_bool_false_iff; lra).
          assert (E3 : Py.Qlt_bool (Qmod x d) 0 = false)
            by (apply Qlt_bool_false_iff; lra).
          now rewrite E2, E3. }
      rewrite E. eexists. split; [reflexivity|]. left.
      split; [reflexivity | now left].
Qed.

(** *** Rounding twice is rounding once *)

Lemma pow2_pos (z : Z) : 0 < 2 ^ z.
Proof. apply Qpower_0_lt. reflexivity. Qed.

Lemma pow2_plus (a b : Z) : 2 ^ (a + b) == 2 ^ a * 2 ^ b.
Proof. apply Qpower_plus. intro E. discriminate E. Qed.

Lemma pow2_inject (a : Z) : (0 <= a)%Z -> inject_Z (2 ^ a) == 2 ^ a.
Proof. intro Ha. now rewrite Zpower_Qpower. Qed.

(** [ilog2] is the binary exponent of a positive number. *)
Lemma ilog2_spec (q : Q) :
  0 < q -> 2 ^ Py.ilog2 q <= q /\ q < 2 ^ (Py.ilog2 q + 1).
Proof.
  intro Hq. unfold Py.ilog2.
  destruct q as [n d]. cbn [Qnum Qden].
  assert (Hn : (0 < n)%Z).
  { unfold Qlt in Hq. simpl in Hq. lia. }
  pose proof (Z.log2_spec n Hn) as [A1 A2].
  pose proof (Z.log2_spec (Zpos d) eq_refl) as [B1 B2].
  pose proof (Z.log2_nonneg n) as A0.
  pose proof (Z.log2_nonneg (Zpos d)) as B0.
  set (a := Z.log2 n) in *. set (b := Z.log2 (Zpos d)) in *.
  rewrite Zle_Qle, pow2_inject in A1, B1 by assumption.
  rewrite Zlt_Qlt, pow2_inject in A2, B2 by lia.
  set (N := inject_Z n) in *. set (D := inject_Z (Zpos d)) in *.
  assert (HD : 0 < D) by (unfold D; change 0 with (inject_Z 0);
                          rewrite <- Zlt_Qlt; reflexivity).
  assert (Eq : n # d == N / D) by apply Qmake_Qdiv.
  pose proof (pow2_pos (a - b)) as Hc.
  pose proof (pow2_pos (a - b - 1)) as Hc1.
  pose proof (pow2_pos (a - b + 1)) as Hc2.
  assert (Hup : n # d < 2 ^ (a - b + 1)).
  { rewrite Eq. apply Qlt_shift_div_r; [exact HD|].
    apply Qlt_le_trans with (2 ^ Z.succ a); [exact A2|].
    assert (E : 2 ^ Z.succ a == 2 ^ (a - b + 1) * 2 ^ b).
    { rewrite <- pow2_plus. now replace (a - b + 1 + b)%Z with (Z.succ a)
        by lia. }
    rewrite E. apply Qmult_le_l; assumption. }
  assert (Hlo : 2 ^ (a - b - 1) <= n # d).
  { rewrite Eq. apply Qle_shift_div_l; [exact HD|].
    apply Qle_trans with (2 ^ a); [|exact A1].
    assert (E : 2 ^ a == 2 ^ (a - b - 1) * 2 ^ Z.succ b).
    { rewrite <- pow2_plus. now replace (a - b - 1 + Z.succ b)%Z with a
        by lia. }
    rewrite E. apply Qmult_le_l; [assumption | lra]. }
  destruct (Qle_bool (2 ^ (a - b)) (n # d)) eqn:E.
  - apply Qle_bool_iff in E. split; assumption.
  - replace (a - b - 1 + 1)%Z with (a - b)%Z by lia.
    split; [exact Hlo|].
    apply Qnot_le_lt. intro Hle. apply Qle_bool_iff in Hle. congruence.
Qed.

Lemma round_half_even_integer (x : Q) (k : Z) :
  x == inject_Z k -> Py.round_half_even x = k.
Proof.
  intro E. unfold Py.round_half_even.
  rewrite (Qfloor_comp _ _ E), Qfloor_Z.
  assert (H : Py.Qlt_bool (x - inject_Z k) (1 # 2) = true)
    by (apply Qlt_bool_iff; lra).
  now rewrite H.
Qed.

Lemma round_half_even_le (x : Q) (k : Z) :
  x <= inject_Z k -> (Py.round_half_even x <= k)%Z.
Proof.
  intro Hx. unfold Py.round_half_even.
  pose proof (Qfloor_le x) as Hf.
  assert (Hfk : (Qfloor x <= k)%Z).
  { rewrite <- (Qfloor_Z k). now apply Qfloor_resp_le. }
  destruct (Z.eq_dec (Qfloor x) k) as [E|E].
  - assert (H : Py.Qlt_bool (x - inject_Z (Qfloor x)) (1 # 2) = true).
    { apply Qlt_bool_iff. rewrite E in *. lra. }
    rewrite H. lia.
  - destruct (Py.Qlt_bool _ _); [lia|].
    destruct (Py.Qlt_bool _ _); [lia|].
    destruct (Z.even _); lia.
Qed.

(** A value that [round_positive] gives is given back by it. *)
Lemma round_positive_fixed (q q' : Q) :
  0 < q -> q' == Py.round_positive q -> 0 < q' ->
  Py.round_positive q' == q'.
Proof.
  intros Hq E Hq'. unfold Py.round_positive in E.
  set (u := Z.max (Py.ilog2 q - 52) (-1074)) in *.
  set (k := Py.round_half_even (q / 2 ^ u)) in *.
  pose proof (pow2_pos u) as Hu.
  assert (Hk : (k <= 2 ^ 53)%Z).
  { apply round_half_even_le. rewrite pow2_inject by lia.
    apply Qlt_le_weak. apply Qlt_shift_div_r; [exact Hu|].
    destruct (ilog2_spec q Hq) as [_ Hq2].
    apply Qlt_le_trans with (2 ^ (Py.ilog2 q + 1)); [exact Hq2|].
    rewrite <- pow2_plus. apply Qpower_le_compat_l; [lia | lra]. }
  assert (Hk0 : (0 < k)%Z).
  { rewrite Zlt_Qlt. change (inject_Z 0) with 0.
    destruct (Qlt_le_dec 0 (inject_Z k)) as [H|H]; [exact H|].
    exfalso. assert (inject_Z k * 2 ^ u <= 0); [|lra].
    assert (Eo : inject_Z k * 2 ^ u == - ((- inject_Z k) * 2 ^ u)) by ring.
    assert (0 <= (- inject_Z k) * 2 ^ u)
      by (apply Qmult_le_0_compat; lra).
    lra. }
  destruct (ilog2_spec q' Hq') as [L1 L2].
  unfold Py.round_positive.
  set (e' := Py.ilog2 q') in *.
  set (u' := Z.max (e' - 52) (-1074)).
  pose proof (pow2_pos u') as Hu'.
  assert (He' : (e' <= 53 + u)%Z).
  { apply Qpower_le_compat_l_inv with (q := 2); [|reflexivity].
    apply Qle_trans with q'; [exact L1|].
    rewrite E, pow2_plus. apply Qmult_le_compat_r; [|lra].
    rewrite <- pow2_inject by lia. now rewrite <- Zle_Qle. }
  destruct (Z.eq_dec e' (53 + u)) as [Ee|Ee].
  - assert (Ek : k = (2 ^ 53)%Z).
    { apply Z.le_antisymm; [exact Hk|].
      rewrite Zle_Qle, pow2_inject by lia.
      rewrite Ee, E, pow2_plus in L1.
      apply Qmult_le_r in L1; assumption. }
    assert (Eu : u' = (u + 1)%Z) by (unfold u', u in *; lia).
    assert (Ex : q' / 2 ^ u' == inject_Z (2 ^ 52)).
    { rewrite E, Eu, Ek, !pow2_inject, pow2_plus by lia.
      change (2 ^ 53) with (2 ^ 52 * 2 ^ 1). field. lra. }
    rewrite (round_half_even_integer _ _ Ex).
    rewrite E, Eu, Ek, !pow2_inject, pow2_plus by lia.
    change (2 ^ 53) with (2 ^ 52 * 2 ^ 1). ring.
  - assert (Hle : (u' <= u)%Z) by (unfold u', u in *; lia).
    assert (Epow : 2 ^ u == inject_Z (2 ^ (u - u')) * 2 ^ u').
    { rewrite pow2_inject, <- pow2_plus by lia.
      now replace (u - u' + u')%Z with u by lia. }
    assert (Ex : q' / 2 ^ u' == inject_Z (k * 2 ^ (u - u'))).
    { rewrite E, Epow, inject_Z_mult. field. lra. }
    rewrite (round_half_even_integer _ _ Ex).
    rewrite E, Epow, inject_Z_mult. ring.
Qed.

Lemma round64_fixed (y q : Q) :
  0 < q ->
  y == Py.round_positive q \/ y == - Py.round_positive q ->
  Py.round64 y == y.
Proof.
  intros Hq Hy.
  pose proof (round_positive_nonneg q ltac:(lra)) as Hr.
  unfold Py.round64.
  pose proof (Qred_correct y) as Ey. set (q2 := Qred y) in *.
  destruct (Qeq_bool q2 0) eqn:E2.
  - apply Qeq_bool_iff in E2. lra.
  - apply Qeq_bool_false_iff in E2.
    destruct Hy as [Hy|Hy].
    + assert (H2 : 0 < q2) by lra.
      apply Qlt_bool_iff in H2 as H2b. rewrite H2b.
      rewrite Qred_correct. rewrite (round_positive_fixed q q2); lra.
    + assert (H2 : Py.Qlt_bool 0 q2 = false)
        by (apply Qlt_bool_false_iff; lra).
      rewrite H2. rewrite Qred_correct.
      rewrite (round_positive_fixed q (- q2)); lra.
Qed.

(** The results of [round64] are binary64 numbers. *)
Lemma round64_binary64 (x : Q) : binary64 (Py.round64 x).
Proof.
  unfold binary64. remember (Py.round64 x) as y eqn:Ey.
  unfold Py.round64 in Ey.
  pose proof (Qred_correct x) as Ex. set (q := Qred x) in *.
  destruct (Qeq_bool q 0) eqn:E0; [now subst y|].
  apply Qeq_bool_false_iff in E0.
  destruct (Py.Qlt_bool 0 q) eqn:E1.
  - apply Qlt_bool_iff in E1. apply (round64_fixed y q E1).
    left. subst y. apply Qred_correct.
  - apply Qlt_bool_false_iff in E1.
    apply (round64_fixed y (- q)); [lra|].
    right. subst y. apply Qred_correct.
Qed.

(** *** The index computed in binary64 *)

Lemma fmod_progress_nonneg (x d : Q) :
  ~ d == 0 ->
  exists r, Py.fmod x d = Some r /\ 0 <= r / d.
Proof.
  intro Hd. destruct (fmod_spec x d Hd) as (r & E & Hr).
  exists r. split; [exact E|].
  destruct (Qmod_progress x d Hd) as [Hp0 _].
  destruct Hr as [[Er _]|[Er _]].
  - now rewrite Er.
  - destruct (Qmod_fraction x d Hd) as (D0 & D1 & Ep).
    set (delta := x / d - inject_Z (Qfloor (x / d))) in *.
    destruct (scale_bounds d delta D0 D1) as [Spos Sneg].
    destruct (Q_dec d 0) as [[Hd0|Hd0]|Hd0]; [| |contradiction].
    + destruct (Sneg Hd0) as [_ B].
      assert (Hr : r <= 0)
        by (rewrite Er; apply round64_nonpos; now rewrite Ep).
      assert (E1 : r / d == (- r) * / (- d)) by (field; exact Hd).
      rewrite E1. apply Qmult_le_0_compat; [lra|].
      apply Qinv_le_0_compat. lra.
    + destruct (Spos Hd0) as [B _].
      assert (Hr : 0 <= r)
        by (rewrite Er; apply round64_nonneg; now rewrite Ep).
      apply Qmult_le_0_compat; [lra|]. apply Qinv_le_0_compat. lra.
Qed.

(** The index is defined and in range whenever the duration is not zero. *)
Lemma reference_index_range (e d : Q) (n : nat) :
  ~ d == 0 -> (1 <= n)%nat ->
  exists index,
    Scorer.reference_index e d n = Some index
    /\ (0 <= index < Z.of_nat n)%Z.
Proof.
  intros Hd Hn. unfold Scorer.reference_index.
  destruct (fmod_progress_nonneg e d Hd) as (r & E & Hr). rewrite E.
  eexists. split; [reflexivity|].
  set (v := Py.round64 (Py.round64 (r / d) * inject_Z (Z.of_nat n))).
  assert (Hv : 0 <= v).
  { unfold v. apply round64_nonneg. apply Qmult_le_0_compat.
    - now apply round64_nonneg.
    - change 0 with (inject_Z 0). rewrite <- Zle_Qle. lia. }
  rewrite (int_floor v Hv).
  assert (0 <= Qfloor v)%Z
    by (change 0%Z with (Qfloor 0); now apply Qfloor_resp_le).
  lia.
Qed.

(** When no operation rounds, the index is the one of the rule over the
    reals. *)
Lemma reference_index_exact (e d : Q) (n : nat) :
  ~ d == 0 -> (1 <= n)%nat ->
  binary64 (Qmod e d) ->
  binary64 (Qmod e d / d) ->
  binary64 (Qmod e d / d * inject_Z (Z.of_nat n)) ->
  Scorer.reference_index e d n
  = Some (clampZ (Qfloor (Qmod e d / d * inject_Z (Z.of_nat n)))
                 0 (Z.of_nat n - 1)).
Proof.
  unfold binary64. intros Hd Hn X1 X2 X3. unfold Scorer.reference_index.
  destruct (fmod_spec e d Hd) as (r & E & Hr). rewrite E.
  assert (Er : r == Qmod e d).
  { destruct Hr as [[Er _]|[Er _]]; [exact Er | now rewrite Er]. }
  set (p := Qmod e d) in *.
  assert (E1 : Py.round64 (r / d) == p / d).
  { rewrite (round64_comp (r / d) (p / d)) by now rewrite Er.
    exact X2. }
  set (c := inject_Z (Z.of_nat n)) in *.
  assert (E2 : Py.round64 (Py.round64 (r / d) * c) == p / d * c).
  { rewrite (round64_comp (Py.round64 (r / d) * c) (p / d * c))
      by now rewrite E1.
    exact X3. }
  destruct (Qmod_progress e d Hd) as [Hp0 _]. fold p in Hp0.
  assert (Hc : 0 <= c)
    by (unfold c; change 0 with (inject_Z 0); rewrite <- Zle_Qle; lia).
  assert (Hpc : 0 <= p / d * c) by now apply Qmult_le_0_compat.
  rewrite int_floor by now rewrite E2.
  rewrite (Qfloor_comp _ _ E2).
  assert (0 <= Qfloor (p / d * c))%Z
    by (change 0%Z with (Qfloor 0); now apply Qfloor_resp_le).
  f_equal. unfold clampZ. lia.
Qed.

(** Two elapsed times one duration apart have the same index: the
    remainder of binary64 numbers is exact, and where Python adds the
    duration to it, it adds it to the same number. *)
Lemma reference_index_period (e1 e2 d : Q) (n : nat) :
  ~ d == 0 -> binary64 e2 -> e2 - e1 == d ->
  Scorer.reference_index e2 d n = Scorer.reference_index e1 d n.
Proof.
  unfold binary64. intros Hd X2 E.
  pose proof (Qmod_period e1 e2 d Hd E) as Ep.
  unfold Scorer.reference_index.
  destruct (fmod_spec e1 d Hd) as (r1 & F1 & H1).
  destruct (fmod_spec e2 d Hd) as (r2 & F2 & H2).
  rewrite F1, F2.
  assert (Er : r2 == r1).
  { destruct H1 as [[E1 S1]|(E1 & S1 & N1)];
      destruct H2 as [[E2 S2]|(E2 & S2 & N2)].
    - now rewrite E1, E2.
    - exfalso. rewrite Ep in N2.
      destruct S1 as [S1|S1]; [|contradiction].
      assert (Eq : e2 / d == e1 / d + 1).
      { assert (Hy : e2 == e1 + d) by lra. rewrite Hy. field. exact Hd. }
      lra.
    - rewrite <- Ep in N1.
      destruct S2 as [S2|S2]; [|contradiction].
      assert (Eq : e2 / d == e1 / d + 1).
      { assert (Hy : e2 == e1 + d) by lra. rewrite Hy. field. exact Hd. }
      assert (Hf : Qfloor (e2 / d) = 0%Z).
      { apply Qfloor_unique; [exact S2|]. change (inject_Z (0 + 1)) with 1.
        lra. }
      assert (Em : Qmod e2 d == e2).
      { unfold Qmod. rewrite Hf. change (inject_Z 0) with 0. ring. }
      rewrite E2, Em, E1.
      rewrite (round64_comp (Qmod e1 d) e2) by now rewrite <- Ep.
      now rewrite X2.
    - rewrite E1, E2. now rewrite (round64_comp _ _ Ep). }
  now rewrite (round64_comp (r2 / d) (r1 / d)) by now rewrite Er.
Qed.

(** What [find_best_reference_match] returns on a non-empty reference. *)
Lemma find_best_reference_match_index `{Scorer.Numpy}
      (user_pose : Scorer.Pose) (t : Q) (self : Scorer.RealTimePoseScorer) :
  Scorer.reference_poses self <> [] ->
  ~ Scorer.ref_duration self == 0 ->
  (forall r, In r (Scorer.reference_poses self) ->
             Scorer.compute_pose_distance user_pose r <> None) ->
  let start := match Scorer.start_time self with Some s => s | None => t end in
  exists index distance self',
    Scorer.find_best_reference_match user_pose t self
    = Some (index, Fin distance, self')
    /\ Scorer.reference_index (Py.round64 (t - start))
                              (Scorer.ref_duration self)
                              (length (Scorer.reference_poses self))
       = Some index
    /\ (0 <= index < Z.of_nat (length (Scorer.reference_poses self)))%Z
    /\ Scorer.start_time self' = Some start
    /\ Scorer.reference_poses self' = Scorer.reference_poses self
    /\ Scorer.reference_timestamps self' = Scorer.reference_timestamps self.
Proof.
  intros Hne Hd Hdist start.
  unfold Scorer.find_best_reference_match.
  destruct (Scorer.reference_poses self) as [|ref0 refs] eqn:Erefs;
    [congruence|].
  set (self1 := match Scorer.start_time self with
                | None => Scorer.set_start_time t self
                | Some _ => self
                end).
  assert (E1 : (match Scorer.start_time self with
                | None => (t, Scorer.set_start_time t self)
                | Some s => (s, self)
                end) = (start, self1)).
  { unfold start, self1. destruct (Scorer.start_time self); reflexivity. }
  rewrite E1.
  assert (Hdur : Scorer.ref_duration self1 = Scorer.ref_duration self).
  { unfold self1. destruct (Scorer.start_time self); reflexivity. }
  assert (Hrefs : Scorer.reference_poses self1 = ref0 :: refs).
  { unfold self1. destruct (Scorer.start_time self); simpl; assumption. }
  assert (Hts : Scorer.reference_timestamps self1
                = Scorer.reference_timestamps self).
  { unfold self1. destruct (Scorer.start_time self); reflexivity. }
  assert (Hst : Scorer.start_time self1 = Some start).
  { unfold self1, start. destruct (Scorer.start_time self) eqn:Es;
      [assumption | reflexivity]. }
  rewrite Hdur, Hrefs.
  set (d := Scorer.ref_duration self) in *.
  set (n := length (ref0 :: refs)).
  assert (Hn : (1 <= n)%nat) by (unfold n; simpl length; lia).
  destruct (reference_index_range (Py.round64 (t - start)) d n Hd Hn)
    as (index & Ei & Hi).
  rewrite Ei.
  assert (Hin : In (nth (Z.to_nat index) (ref0 :: refs) ref0) (ref0 :: refs)).
  { apply nth_In. fold n. lia. }
  destruct (Scorer.compute_pose_distance user_pose _) as [distance|] eqn:Ed.
  - exists index, distance, self1. repeat split; solve [assumption | lia].
  - exfalso. exact (Hdist _ Hin Ed).
Qed.

(** C8 (as amended).  On a non-empty reference whose duration [d] is not
    zero, and for poses whose distance is defined, the match returns the
    index that the binary64 operations of the code give on the elapsed
    time [t - start]: it lies in [0, n - 1]; [start] is the timestamp of
    the first match made on a non-empty reference since construction or
    reset (the current one if there was none, which then becomes the
    start); when the subtraction, the remainder, the division and the
    product are exact, the index is
    clamp(floor(((t - start) mod d) / d * n), 0, n - 1); and a later match
    whose elapsed time is exactly [d] more than this one returns the same
    index. *)
Theorem reference_alignment `{Scorer.Numpy}
        (user_pose : Scorer.Pose) (t : Q) (self : Scorer.RealTimePoseScorer) :
  Scorer.reference_poses self <> [] ->
  ~ Scorer.ref_duration self == 0 ->
  (forall r, In r (Scorer.reference_poses self) ->
             Scorer.compute_pose_distance user_pose r <> None) ->
  let start := match Scorer.start_time self with Some s => s | None => t end in
  let d := Scorer.ref_duration self in
  let n := length (Scorer.reference_poses self) in
  let elapsed := Py.round64 (t - start) in
  exists index distance self',
    Scorer.find_best_reference_match user_pose t self
    = Some (index, Fin distance, self')
    /\ Scorer.reference_index elapsed d n = Some index
    /\ (0 <= index < Z.of_nat n)%Z
    /\ Scorer.start_time self' = Some start
    /\ Scorer.start_time (Scorer.reset self) = None
    /\ (binary64 (t - start) ->
        binary64 (Qmod (t - start) d) ->
        binary64 (Qmod (t - start) d / d) ->
        binary64 (Qmod (t - start) d / d * inject_Z (Z.of_nat n)) ->
        index = aligned_index start t d n)
    /\ forall t2,
        Py.round64 (t2 - start) - elapsed == d ->
        matched_index user_pose t2 self' = Some index.
Proof.
  intros Hne Hd Hdist start d n elapsed.
  destruct (find_best_reference_match_index user_pose t self Hne Hd Hdist)
    as (index & distance & self' & E & Ei & Hi & Hst & Hrefs & Hts).
  fold start d n elapsed in Ei, Hi.
  assert (Hn : (1 <= n)%nat).
  { unfold n. destruct (Scorer.reference_poses self); [congruence|].
    simpl length. lia. }
  exists index, distance, self'.
  split; [exact E|]. split; [exact Ei|]. split; [exact Hi|].
  split; [exact Hst|]. split; [reflexivity|]. split.
  - intros X0 X1 X2 X3. unfold binary64 in X0.
    assert (Em : Qmod elapsed d == Qmod (t - start) d)
      by (apply Qmod_comp; exact X0).
    assert (Ex : Scorer.reference_index elapsed d n
                 = Some (aligned_index start t d n)).
    { unfold aligned_index.
      rewrite (Qfloor_comp
                 (Qmod (t - start) d / d * inject_Z (Z.of_nat n))
                 (Qmod elapsed d / d * inject_Z (Z.of_nat n)))
        by now rewrite Em.
      apply reference_index_exact; try assumption;
        unfold binary64 in *.
      - rewrite (round64_comp _ _ Em). now rewrite Em.
      - rewrite (round64_comp (Qmod elapsed d / d)
                              (Qmod (t - start) d / d))
          by now rewrite Em.
        now rewrite Em.
      - rewrite (round64_comp
                   (Qmod elapsed d / d * inject_Z (Z.of_nat n))
                   (Qmod (t - start) d / d * inject_Z (Z.of_nat n)))
          by now rewrite Em.
        now rewrite Em. }
    congruence.
  - intros t2 Ht2.
    assert (Hd' : Scorer.ref_duration self' = d).
    { unfold d, Scorer.ref_duration. now rewrite Hts. }
    destruct (find_best_reference_match_index user_pose t2 self')
      as (index3 & distance3 & self3 & E3 & Ei3 & _).
    + now rewrite Hrefs.
    + now rewrite Hd'.
    + now rewrite Hrefs.
    + unfold matched_index. rewrite E3. f_equal.
      cbv zeta in Ei3. rewrite Hst, Hd', Hrefs in Ei3.
      cbv iota in Ei3. fold start n in Ei3.
      rewrite (reference_index_period elapsed (Py.round64 (t2 - start)) d n)
        in Ei3; [congruence | exact Hd | apply round64_binary64 | exact Ht2].
Qed.

Lemma reference_alignment_witness :
  matched_index (H := rational_numpy) example_pose (1 # 2) example_session
  = Some 1%Z
  /\ aligned_index 0 (1 # 2) 2 4 = 1%Z
  /\ matched_index (H := rational_numpy) example_pose (5 # 2) example_session
     = Some 1%Z.
Proof.
  assert (Hne : Scorer.reference_poses example_session <> [])
    by discriminate.
  assert (Hd : ~ Scorer.ref_duration example_session == 0)
    by (intro E; discriminate E).
  assert (Hdist : forall r,
             In r (Scorer.reference_poses example_session) ->
             Scorer.compute_pose_distance (H := rational_numpy)
                                          example_pose r <> None).
  { intros r Hr. simpl in Hr.
    destruct Hr as [<-|[<-|[<-|[<-|[]]]]]; discriminate. }
  destruct (reference_alignment (H := rational_numpy) example_pose (1 # 2)
                                example_session Hne Hd Hdist)
    as (index & distance & self' & E & _ & _ & _ & _ & Hexact & Hwrap).
  assert (E0 : Scorer.find_best_reference_match (H := rational_numpy)
                 example_pose (1 # 2) example_session
               = Some (1%Z, Fin 0, example_session))
    by (vm_compute; reflexivity).
  rewrite E0 in E. injection E as Ei _ Es. subst index self'.
  split; [|split].
  - unfold matched_index. now rewrite E0.
  - symmetry. apply Hexact; vm_compute; reflexivity.
  - apply (Hwrap (5 # 2)). vm_compute. reflexivity.
Defined.

(** C8, as first stated, fails in three ways.  A pose scored before any
    reference is loaded does not start the session clock: the clock starts
    at the first timestamp matched against a reference, here 0.5 and not 0,
    so that timestamp matches index 0 where the rule with the first
    timestamp seen gives 1.  On a reference of one pose with generated
    timestamps the duration is 0 and the match raises.  And the code
    rounds: in a session started at 0.6 on ten poses lasting 2 s, the
    elapsed time at timestamp 3 is the binary64 number just below 2.4,
    and the match returns index 1 where the rule gives 2. *)
Lemma alignment_first_statement_fails :
  (exists ps s1,
    Scorer.score_pose (H := rational_numpy) (Scorer.Arr2 example_pose)
                      (Some 0) 0 example_scorer = Some (ps, s1)
    /\ Scorer.timestamp ps = 0
    /\ Scorer.start_time s1 = None
    /\ let s2 := Scorer.load_reference_dance example_reference
                   (Some [0; 1 # 2; 1; 2]) s1 in
       matched_index (H := rational_numpy) example_pose (1 # 2) s2 = Some 0%Z
       /\ aligned_index 0 (1 # 2) (Scorer.ref_duration s2)
                        (length (Scorer.reference_poses s2)) = 1%Z)
  /\ matched_index (H := rational_numpy) example_pose 0
       (Scorer.load_reference_dance [example_pose] None example_scorer)
     = None
  /\ (Scorer.start_time late_session = Some (Py.round64 (6 # 10))
      /\ Scorer.ref_duration late_session = 2
      /\ length (Scorer.reference_poses late_session) = 10%nat
      /\ matched_index (H := rational_numpy) example_pose 3 late_session
         = Some 1%Z
      /\ aligned_index (Py.round64 (6 # 10)) 3 2 10 = 2%Z
      /\ aligned_index (6 # 10) 3 2 10 = 2%Z).
Proof.
  split; [|split].
  - eexists. eexists. split; [vm_compute; reflexivity|]. repeat split.
  - vm_compute. reflexivity.
  - repeat split; vm_compute; reflexivity.
Qed.

(** Timestamps, unlike elapsed times, may be one duration apart and match
    different indices: the subtraction of the start rounds.  In the
    session started at 0.6, timestamps 1 and 3 have the elapsed times
    0.4000000000000000222 and 2.3999999999999999112, which are not 2
    apart, and the indices 2 and 1. *)
Lemma alignment_of_timestamps_rounds :
  matched_index (H := rational_numpy) example_pose 1 late_session
  = Some 2%Z
  /\ matched_index (H := rational_numpy) example_pose 3 late_session
     = Some 1%Z
  /\ Py.round64 (3 - Py.round64 (6 # 10))
     - Py.round64 (1 - Py.round64 (6 # 10)) < 2.
Proof. repeat split; vm_compute; reflexivity. Qed.

(** Generated timestamps are the binary64 quotients [i / 60.0]: on four
    poses the duration is the binary64 number nearest to 0.05, a little
    more than 0.05, so that one second is a little less than twenty loops
    and timestamp 1 matches the last pose; with the duration 3/60 of the
    reals it would match the first. *)
Lemma alignment_generated_timestamps :
  Scorer.ref_duration generated_session = Py.round64 (3 # 60)
  /\ 3 # 60 < Scorer.ref_duration generated_session
  /\ matched_index (H := rational_numpy) example_pose 1 generated_session
     = Some 3%Z
  /\ aligned_index 0 1 (Scorer.ref_duration generated_session) 4 = 3%Z
  /\ aligned_index 0 1 (3 # 60) 4 = 0%Z.
Proof. repeat split; vm_compute; reflexivity. Qed.

(** [Py.round64] against the binary64 operations of the machine, on the
    operations of the example above: 0.6 as a literal, [3 - 0.6], and the
    product with the number of poses, which stays below 2. *)
Section Binary64Alignment.

Import PrimFloat.

Lemma binary64_alignment_rounding :
  Binary64.to_Q (PrimFloat.div 6 10) = Some (Py.round64 (6 # 10))
  /\ Binary64.to_Q (PrimFloat.sub 3 (PrimFloat.div 6 10))
     = Some (Py.round64 (3 - Py.round64 (6 # 10)))
  /\ Binary64.to_Q (PrimFloat.div 3 60) = Some (Py.round64 (3 # 60))
  /\ Binary64.to_Q
       (Binary64.progress_product 3 (PrimFloat.div 6 10) 2 10)
     = Some (Py.round64
               (Py.round64
                  ((Py.round64 (3 - Py.round64 (6 # 10)) - 2) / 2) * 10))
  /\ PrimFloat.ltb
       (Binary64.progress_product 3 (PrimFloat.div 6 10) 2 10) 2
     = true.
Proof. repeat split; vm_compute; reflexivity. Qed.

End Binary64Alignment.

(** ** Scoring without a reference *)

Lemma zip_rows_length (f : Q -> Q -> Q) (xs ys : list Q) :
  length xs = length ys ->
  exists r, Scorer.zip_rows f xs ys = Some r /\ length r = length xs.
Proof.
  revert ys. induction xs as [|x xs IH]; intros [|y ys] Hl;
    try discriminate.
  - exists []. split; reflexivity.
  - destruct (IH ys) as (r & E & Hr); [simpl in Hl; lia|].
    exists (f x y :: r). simpl. rewrite E. split; [reflexivity | simpl; lia].
Qed.

(** Operands of one shape combine item by item. *)
Lemma broadcast_rows_same (f : Q -> Q -> Q) (xs ys : list Q) :
  length xs = length ys ->
  Scorer.broadcast_rows f xs ys = Scorer.zip_rows f xs ys.
Proof.
  destruct xs as [|x [|x' xs]]; destruct ys as [|y [|y' ys]];
    intro Hl; try discriminate Hl; reflexivity.
Qed.

Lemma zip_poses_same (f : Q -> Q -> Q) (p q : Scorer.Pose) :
  length p = length q ->
  Scorer.zip_poses f p q = Scorer.zip_same f p q.
Proof.
  destruct p as [|r [|r' p]]; destruct q as [|r2 [|r2' q]];
    intro Hl; try discriminate Hl; reflexivity.
Qed.

Lemma zip_poses_shape (f : Q -> Q -> Q) (N C : nat) (p q : Scorer.Pose) :
  shape N C p -> shape N C q ->
  exists r, Scorer.zip_poses f p q = Some r /\ shape N C r.
Proof.
  intros Hp Hq.
  rewrite zip_poses_same by (destruct Hp, Hq; congruence).
  revert Hp Hq. unfold shape, rect. revert N q.
  induction p as [|r1 p IH]; intros N [|r2 q] [Hlp Hrp] [Hlq Hrq];
    simpl in Hlp, Hlq; try (exfalso; lia).
  - exists []. repeat split; auto.
  - inversion Hrp as [|? ? Hr1 Hp]; inversion Hrq as [|? ? Hr2 Hq]; subst.
    destruct (zip_rows_length f r1 r2) as (r & Er & Hr); [congruence|].
    destruct (IH (length p) q) as (rest & Erest & Hl & Hrest);
      [split; auto | split; auto; lia |].
    exists (r :: rest). simpl.
    rewrite broadcast_rows_same, Er, Erest by congruence.
    repeat split; [simpl; lia | constructor; assumption].
Qed.

Lemma center_and_scale_shape (N C : nat) (center : list Q) (h : Q)
      (p : Scorer.Pose) :
  shape N C p -> length center = C ->
  shape N C (Scorer.center_and_scale center h p).
Proof.
  unfold shape, rect, Scorer.center_and_scale. intros [Hl Hr] Hc. split.
  - now rewrite length_map.
  - rewrite Forall_forall in *. intros row Hrow.
    apply in_map_iff in Hrow. destruct Hrow as (r & <- & Hin).
    rewrite length_map2; [now apply Hr | rewrite (Hr _ Hin); congruence].
Qed.

(** [normalize_pose] returns, and keeps the shape. *)
Lemma normalize_pose_shape (pose : Scorer.ndarray) (N C : nat) :
  shape N C (Scorer.at_least_2d pose) -> (2 <= C)%nat ->
  exists out, Scorer.normalize_pose pose = Some out /\ shape N C out.
Proof.
  intros Hs HC. pose proof Hs as [_ Hr]. unfold Scorer.normalize_pose.
  set (rows := Scorer.at_least_2d pose) in *.
  destruct rows as [|r0 rest] eqn:Erows; [now exists []|].
  rewrite (valid_mask_rect C) by assumption.
  destruct (existsb (fun b => b) (map joint_valid (r0 :: rest))) eqn:E;
    simpl negb; cbv iota; [|now exists (r0 :: rest)].
  rewrite select_rows_filter.
  set (valid := filter joint_valid (r0 :: rest)).
  assert (Hv : valid <> []).
  { intro Hv. apply existsb_mask in Hv. congruence. }
  assert (Hrv : rect C valid) by (apply rect_filter; assumption).
  destruct (min_coords_spec C valid Hrv Hv) as [Hlmin _].
  destruct (max_coords_spec C valid Hrv Hv) as [Hlmax _].
  eexists. split; [reflexivity|].
  apply (center_and_scale_shape N C); [exact Hs|].
  unfold Scorer.bbox_center. rewrite length_map2; congruence.
Qed.

Lemma Forall_deque_append {A} (P : A -> Prop) (m : nat) (xs : list A) (x : A) :
  Forall P xs -> P x -> Forall P (Scorer.deque_append m xs x).
Proof.
  intros Hxs Hx. unfold Scorer.deque_append.
  apply Forall_forall. intros y Hy.
  assert (Hin : In y (xs ++ [x])).
  { rewrite <- (firstn_skipn (length (xs ++ [x]) - m) (xs ++ [x])).
    apply in_or_app. now right. }
  apply in_app_or in Hin. rewrite Forall_forall in Hxs.
  destruct Hin as [Hin|[<-|[]]]; auto.
Qed.

(** With room for one item, the appended item is the last of the deque. *)
Lemma deque_append_last {A} (m : nat) (xs : list A) (x : A) :
  (0 < m)%nat -> exists front, Scorer.deque_append m xs x = front ++ [x].
Proof.
  intro Hm. unfold Scorer.deque_append.
  exists (skipn (length (xs ++ [x]) - m) xs).
  rewrite skipn_app.
  replace (length (xs ++ [x]) - m - length xs)%nat with 0%nat; [reflexivity|].
  rewrite length_app. simpl. lia.
Qed.

(** [smooth_pose] returns on a history of poses of the shape of the new
    one, and touches nothing but that history. *)
Lemma smooth_pose_shape (N C : nat) (pose : Scorer.Pose)
      (self : Scorer.RealTimePoseScorer) :
  shape N C pose -> Forall (shape N C) (Scorer.pose_history self) ->
  exists smoothed h,
    Scorer.smooth_pose pose self
    = Some (smoothed, Scorer.set_pose_history h self)
    /\ shape N C smoothed.
Proof.
  intros Hp Hh. unfold Scorer.smooth_pose.
  destruct (Scorer.pose_history self) as [|h0 t] eqn:Eh.
  - exists pose. eexists. split; [reflexivity | assumption].
  - assert (Hprev : shape N C (last t h0)).
    { rewrite Forall_forall in Hh. apply Hh.
      destruct t as [|h1 t']; [now left|].
      right. change (In (last (h1 :: t') h0) (h1 :: t')).
      assert (Hne : h1 :: t' <> []) by discriminate.
      destruct (exists_last Hne) as (front & y & ->).
      rewrite last_last. apply in_or_app. right. now left. }
    destruct (zip_poses_shape
                (fun x y => Scorer.smoothing_factor self * x
                            + (1 - Scorer.smoothing_factor self) * y)
                N C pose (last t h0) Hp Hprev) as (sm & E & Hsm).
    rewrite E. exists sm. eexists. split; [reflexivity | assumption].
Qed.

Lemma velocities_shape `{Scorer.Numpy} (N C : nat) (ps : list Scorer.Pose) :
  Forall (shape N C) ps -> exists vs, Scorer.velocities ps = Some vs.
Proof.
  induction 1 as [|a rest Ha Hrest IH]; [now exists []|].
  destruct rest as [|b rest']; [now exists []|].
  destruct IH as (vs & Evs).
  inversion Hrest as [|? ? Hb _]; subst.
  destruct (zip_poses_shape Qminus N C b a Hb Ha) as (d & Ed & _).
  eexists. cbn [Scorer.velocities]. rewrite Ed.
  change (Scorer.velocities (b :: rest')) with (Scorer.velocities (b :: rest')).
  cbn [Scorer.velocities] in Evs. rewrite Evs. reflexivity.
Qed.

Lemma compute_rhythm_score_empty_reference `{Scorer.Numpy} (N C : nat)
      (self : Scorer.RealTimePoseScorer) :
  Scorer.reference_poses self = [] ->
  Forall (shape N C) (Scorer.user_poses self) ->
  exists r, Scorer.compute_rhythm_score self = Some r.
Proof.
  intros Hrefs Hu. unfold Scorer.compute_rhythm_score.
  destruct (length (Scorer.user_poses self) <? 3)%nat; [now eexists|].
  destruct (velocities_shape N C _ Hu) as (vs & ->).
  rewrite Hrefs. simpl. now eexists.
Qed.

(** Against an infinite distance the frame score is 0 when [alpha] is
    positive. *)
Lemma compute_frame_score_inf `{Scorer.Numpy}
      (self : Scorer.RealTimePoseScorer) :
  0 < Scorer.alpha self -> Scorer.compute_frame_score self PInf = Fin 0.
Proof.
  intro Ha. unfold Scorer.compute_frame_score, Scorer.xscale.
  assert (E1 : Py.Qlt_bool 0 (- Scorer.alpha self) = false).
  { apply Qlt_bool_false_iff. lra. }
  assert (E2 : Py.Qlt_bool (- Scorer.alpha self) 0 = true).
  { apply Qlt_bool_iff. lra. }
  rewrite E1, E2. reflexivity.
Qed.

(** C9.  On a session without reference poses and with a positive [alpha],
    [score_pose] returns (for a pose of the shape of those already held) a
    score whose spatial and frame components are 0, and appends it to the
    bounded score history, where it is the last item unless the capacity
    is zero. *)
Theorem score_pose_empty_reference `{Scorer.Numpy}
        (user_pose : Scorer.ndarray) (timestamp : option Q) (clock : Q)
        (self : Scorer.RealTimePoseScorer) (N C : nat) :
  Scorer.reference_poses self = [] ->
  0 < Scorer.alpha self ->
  shape N C (Scorer.at_least_2d user_pose) -> (2 <= C)%nat ->
  Forall (shape N C) (Scorer.pose_history self) ->
  Forall (shape N C) (Scorer.user_poses self) ->
  exists ps self',
    Scorer.score_pose user_pose timestamp clock self = Some (ps, self')
    /\ Scorer.spatial_score ps = Fin 0
    /\ Scorer.frame_score ps = Fin 0
    /\ Scorer.pose_scores self'
       = Scorer.deque_append (Scorer.max_history self)
                             (Scorer.pose_scores self) ps
    /\ ((0 < Scorer.max_history self)%nat ->
        exists front, Scorer.pose_scores self' = front ++ [ps]).
Proof.
  intros Hrefs Ha Hs HC Hh Hu. unfold Scorer.score_pose.
  destruct (normalize_pose_shape user_pose N C Hs HC) as (np & -> & Hnp).
  destruct (smooth_pose_shape N C np self Hnp Hh) as (sm & h & -> & Hsm).
  set (t := match timestamp with None => clock | Some t0 => t0 end).
  set (self2 := Scorer.record_user_pose sm t (Scorer.set_pose_history h self)).
  assert (Hrefs2 : Scorer.reference_poses self2 = []) by exact Hrefs.
  unfold Scorer.find_best_reference_match. rewrite Hrefs2.
  assert (Hu2 : Forall (shape N C) (Scorer.user_poses self2)).
  { unfold self2. simpl. now apply Forall_deque_append. }
  destruct (compute_rhythm_score_empty_reference N C self2 Hrefs2 Hu2)
    as (r & ->).
  assert (Hfs : Scorer.compute_frame_score self2 PInf = Fin 0)
    by (apply compute_frame_score_inf; exact Ha).
  rewrite Hfs.
  eexists. eexists. split; [reflexivity|].
  repeat split.
  intro Hm. apply deque_append_last. exact Hm.
Qed.

Lemma score_pose_empty_reference_witness :
  exists ps self',
    Scorer.score_pose (H := rational_numpy) (Scorer.Arr2 example_pose)
                      (Some (1 # 30)) 0 example_scorer = Some (ps, self')
    /\ Scorer.spatial_score ps = Fin 0
    /\ Scorer.frame_score ps = Fin 0
    /\ Scorer.pose_scores self' = [ps].
Proof.
  destruct (score_pose_empty_reference (H := rational_numpy)
              (Scorer.Arr2 example_pose) (Some (1 # 30)) 0 example_scorer 2 2)
    as (ps & self' & E & Hsp & Hfr & Hps & _).
  - reflexivity.
  - reflexivity.
  - split; [reflexivity | repeat constructor].
  - lia.
  - constructor.
  - constructor.
  - exists ps, self'. repeat split; assumption.
Defined.

(** ** The search for a clean frame *)

Lemma range1_split (o m : Z) :
  (1 <= o < m)%Z ->
  exists post, Sampler.range1 m = Sampler.range1 o ++ o :: post.
Proof.
  intros [Ho Hm]. unfold Sampler.range1.
  replace (Z.to_nat m - 1)%nat
    with ((Z.to_nat o - 1) + S (Z.to_nat m - Z.to_nat o - 1))%nat by lia.
  rewrite seq_app, map_app. cbn [seq map].
  exists (map Z.of_nat
              (seq (S (1 + (Z.to_nat o - 1))) (Z.to_nat m - Z.to_nat o - 1))).
  f_equal. f_equal. lia.
Qed.

Lemma range1_In (o m : Z) : In o (Sampler.range1 m) -> (1 <= o < m)%Z.
Proof.
  unfold Sampler.range1. intro H. apply in_map_iff in H.
  destruct H as (k & <- & Hk). apply in_seq in Hk. lia.
Qed.

Lemma try_directions_dirty (kp : Sampler.Keypoints) (n df o : Z) :
  dirty_at kp n df o 1 -> dirty_at kp n df o (-1) ->
  Sampler.try_directions kp n df o [1; -1]%Z = Some None.
Proof.
  intros (q1 & E1 & N1) (q2 & E2 & N2). unfold probe in *. simpl.
  rewrite E1, N1. simpl. rewrite E2, N2. reflexivity.
Qed.

Lemma search_offsets_dirty (kp : Sampler.Keypoints) (n df : Z)
      (offsets : list Z) :
  (forall o, In o offsets -> dirty_at kp n df o 1 /\ dirty_at kp n df o (-1)) ->
  Sampler.search_offsets kp n df offsets = Some None.
Proof.
  induction offsets as [|o rest IH]; intro H; [reflexivity|].
  cbn [Sampler.search_offsets].
  rewrite try_directions_dirty by (apply H; now left).
  apply IH. intros o' Ho'. apply H. now right.
Qed.

Lemma search_offsets_app_dirty (kp : Sampler.Keypoints) (n df : Z)
      (pre post : list Z) :
  (forall o, In o pre -> dirty_at kp n df o 1 /\ dirty_at kp n df o (-1)) ->
  Sampler.search_offsets kp n df (pre ++ post)
  = Sampler.search_offsets kp n df post.
Proof.
  induction pre as [|o rest IH]; intro H; [reflexivity|].
  cbn [app Sampler.search_offsets].
  rewrite try_directions_dirty by (apply H; now left).
  apply IH. intros o' Ho'. apply H. now right.
Qed.

(** What the [try] block does once the file is loaded and the frame at the
    wrapped index holds a NaN. *)
Lemma load_pose_dirty (w : Sampler.World) (f : string) (raw : Z)
      (st : Sampler.Locals) (kp : Sampler.Keypoints) (c : Sampler.Pose) :
  Sampler.load_keypoint_file w (Sampler.io st) f = Some kp ->
  (0 < Sampler.num_frames kp)%Z ->
  Sampler.frame_at kp (raw mod Sampler.num_frames kp) = Some c ->
  Sampler.has_nan c = true ->
  fst (Sampler.load_pose w f raw st)
  = ((raw mod Sampler.num_frames kp)%Z,
     match Sampler.find_clean_frame kp (Sampler.num_frames kp)
                                    (raw mod Sampler.num_frames kp) with
     | None => None
     | Some (Some pose_data) => Some pose_data
     | Some None => Some Sampler.default_pose
     end).
Proof.
  intros Hload Hn Hc Hnan. unfold Sampler.load_pose. rewrite Hload.
  apply Z.ltb_lt in Hn. rewrite Hn.
  destruct kp as [nf cams|frames|]; [| |discriminate Hc];
    rewrite Hc;
    change (Sampler.candidate_pose
              (Sampler.set_candidate_pose (Some c) (Sampler.tick_io st)))
      with (Some c);
    cbv iota; rewrite Hnan; simpl negb; cbv iota;
    destruct (Sampler.find_clean_frame _ _ _) as [[p|]|]; reflexivity.
Qed.

(** C4 (as amended).  When the file loads and the frame at the wrapped
    index holds a NaN, the offsets 1 .. min(50, frameCount) - 1 are tried
    in order, at each offset the + direction and then the - direction, each
    index wrapped modulo frameCount: the first probe without NaN gives the
    pose, and the default standing pose is written when every probe holds a
    NaN.  The offset min(50, frameCount) itself is not tried. *)
Theorem nan_search_spec (w : Sampler.World) (f : string) (raw : Z)
        (st : Sampler.Locals) (kp : Sampler.Keypoints) (c : Sampler.Pose) :
  let n := Sampler.num_frames kp in
  let dance_frame := (raw mod n)%Z in
  let all_dirty_before (o : Z) :=
    forall o', (1 <= o' < o)%Z ->
               dirty_at kp n dance_frame o' 1
               /\ dirty_at kp n dance_frame o' (-1) in
  Sampler.load_keypoint_file w (Sampler.io st) f = Some kp ->
  (0 < n)%Z ->
  Sampler.frame_at kp dance_frame = Some c ->
  Sampler.has_nan c = true ->
  (forall o p,
      (1 <= o < Z.min 50 n)%Z -> all_dirty_before o ->
      probe kp n dance_frame o 1 = Some p -> Sampler.has_nan p = false ->
      fst (Sampler.load_pose w f raw st) = (dance_frame, Some p))
  /\ (forall o p,
         (1 <= o < Z.min 50 n)%Z -> all_dirty_before o ->
         dirty_at kp n dance_frame o 1 ->
         probe kp n dance_frame o (-1) = Some p -> Sampler.has_nan p = false ->
         fst (Sampler.load_pose w f raw st) = (dance_frame, Some p))
  /\ (all_dirty_before (Z.min 50 n) ->
      fst (Sampler.load_pose w f raw st)
      = (dance_frame, Some Sampler.default_pose)).
Proof.
  intros n dance_frame all_dirty_before Hload Hn Hc Hnan.
  pose proof (load_pose_dirty w f raw st kp c Hload Hn Hc Hnan) as E.
  fold n dance_frame in E. rewrite E. clear E.
  unfold Sampler.find_clean_frame.
  assert (Hpre : forall o, all_dirty_before o ->
                   forall o', In o' (Sampler.range1 o) ->
                     dirty_at kp n dance_frame o' 1
                     /\ dirty_at kp n dance_frame o' (-1)).
  { intros o H o' Ho'. apply H. now apply range1_In. }
  repeat split.
  - intros o p Ho Hbefore Hp Hclean.
    destruct (range1_split o (Z.min 50 n) Ho) as (post & ->).
    rewrite search_offsets_app_dirty by (now apply Hpre).
    cbn [Sampler.search_offsets Sampler.try_directions].
    unfold probe in Hp. rewrite Hp, Hclean. reflexivity.
  - intros o p Ho Hbefore (q & Hq & Hqnan) Hp Hclean.
    destruct (range1_split o (Z.min 50 n) Ho) as (post & ->).
    rewrite search_offsets_app_dirty by (now apply Hpre).
    cbn [Sampler.search_offsets Sampler.try_directions].
    unfold probe in Hp, Hq. rewrite Hq, Hqnan. simpl negb. cbv iota.
    rewrite Hp, Hclean. reflexivity.
  - intro Hall.
    rewrite search_offsets_dirty by (now apply Hpre). reflexivity.
Qed.

Lemma nan_search_spec_witness :
  fst (Sampler.load_pose
         (example_world (Sampler.Arr3 [nan_pose; nan_pose; clean_pose])
                        [] (fun n => n))
         "a.pkl" 3 Sampler.initial_locals)
  = (0%Z, Some clean_pose).
Proof.
  refine (proj1 (proj2 (nan_search_spec
            (example_world (Sampler.Arr3 [nan_pose; nan_pose; clean_pose])
                           [] (fun n => n))
            "a.pkl" 3 Sampler.initial_locals
            (Sampler.Arr3 [nan_pose; nan_pose; clean_pose]) nan_pose
            _ _ _ _)) 1%Z clean_pose _ _ _ _ _).
  - reflexivity.
  - reflexivity.
  - reflexivity.
  - reflexivity.
  - simpl. lia.
  - intros o' H. lia.
  - exists nan_pose. split; reflexivity.
  - reflexivity.
  - reflexivity.
Defined.

(** C4, as first stated, fails on a clip of 100 frames of which only frame
    50 is clean: from frame 0 the offset min(50, 100) = 50 reaches it in the
    + direction, yet the default pose is written, where the search over
    offsets 1 .. 50 returns the clean frame. *)
Lemma nan_search_misses_offset_50 :
  Sampler.num_frames clip_clean_at_50 = 100%Z
  /\ probe clip_clean_at_50 100 0 (Z.min 50 100) 1 = Some clean_pose
  /\ Sampler.has_nan clean_pose = false
  /\ fst (Sampler.load_pose (example_world clip_clean_at_50 [] (fun n => n))
                            "a.pkl" 0 Sampler.initial_locals)
     = (0%Z, Some Sampler.default_pose)
  /\ find_clean_frame_inclusive clip_clean_at_50 100 0
     = Some (Some clean_pose).
Proof.
  repeat split; vm_compute; reflexivity.
Qed.

(** ** Selecting a dance *)

Lemma choose_dance_pool (w : Sampler.World) (intensity : Sampler.DanceIntensity)
      (st : Sampler.Locals) :
  Sampler.choose_dance w intensity st
  = Sampler.random_choice w (pool w intensity) st.
Proof.
  unfold Sampler.choose_dance, pool.
  destruct intensity; simpl;
    destruct (Sampler.high_dances w), (Sampler.medium_dances w),
             (Sampler.low_dances w); reflexivity.
Qed.

Lemma random_choice_some (w : Sampler.World) (xs : list string)
      (st : Sampler.Locals) :
  xs <> [] ->
  exists d,
    Sampler.random_choice w xs st = Some (d, Sampler.tick_rng st)
    /\ nth_error xs (Sampler.random_draw w (Sampler.rng st) mod length xs)
       = Some d.
Proof.
  intro Hne. destruct xs as [|x rest]; [congruence|].
  unfold Sampler.random_choice. eexists. split; [reflexivity|].
  apply nth_error_nth'. apply Nat.mod_upper_bound. discriminate.
Qed.

Lemma random_choice_nonempty (w : Sampler.World) (xs : list string)
      (st : Sampler.Locals) (r : string * Sampler.Locals) :
  Sampler.random_choice w xs st = Some r -> xs <> [].
Proof. destruct xs; [discriminate | discriminate]. Qed.

(** An attempt that was made means the pool is not empty. *)
Lemma retry_loop_pool (w : Sampler.World) (intensity : Sampler.DanceIntensity)
      (retries : nat) (st st1 : Sampler.Locals) :
  Sampler.retry_loop w intensity (S retries) st = Some st1 ->
  pool w intensity <> [].
Proof.
  cbn [Sampler.retry_loop]. unfold Sampler.try_dance.
  rewrite choose_dance_pool.
  destruct (Sampler.random_choice w (pool w intensity) st) as [r|] eqn:E;
    [|discriminate].
  intros _. exact (random_choice_nonempty _ _ _ _ E).
Qed.

(** C2 (as amended).  When the ten attempts all end without a dance being
    taken, the active dance is drawn afresh from the same pool with the
    next random number, without any check; the dance of the last attempt
    stays in [selected_dance] and need not be the active one. *)
Theorem fallback_selection (w : Sampler.World)
        (intensity : Sampler.DanceIntensity) (st st1 : Sampler.Locals) :
  Sampler.retry_loop w intensity Sampler.max_retries
                     (Sampler.clear_current_dance st) = Some st1 ->
  Sampler.current_dance_file st1 = None ->
  exists d st',
    Sampler.select_new_dance w intensity st = Some st'
    /\ nth_error (pool w intensity)
                 (Sampler.random_draw w (Sampler.rng st1)
                  mod length (pool w intensity)) = Some d
    /\ Sampler.current_dance_file st' = Some d
    /\ Sampler.current_dance_elapsed st' = 0
    /\ Sampler.current_intensity st' = Some intensity
    /\ Sampler.current_dance_duration st'
       = fst (Sampler.get_dance_duration w d (Sampler.tick_rng st1))
    /\ Sampler.selected_dance st' = Sampler.selected_dance st1
    /\ Sampler.rng st' = S (Sampler.rng st1).
Proof.
  intros Hloop Hnone. unfold Sampler.select_new_dance.
  rewrite Hloop, Hnone, choose_dance_pool.
  pose proof (retry_loop_pool w intensity _ _ _ Hloop) as Hpool.
  destruct (random_choice_some w (pool w intensity) st1 Hpool)
    as (d & -> & Hd).
  exists d. eexists. split; [reflexivity|].
  repeat split. exact Hd.
Qed.

Lemma fallback_selection_witness :
  exists st',
    Sampler.select_new_dance
      (example_world (Sampler.Arr3 [nan_pose]) [] (fun n => n))
      Sampler.MEDIUM Sampler.initial_locals = Some st'
    /\ Sampler.current_dance_file st' = Some "a.pkl"%string.
Proof.
  destruct (fallback_selection
              (example_world (Sampler.Arr3 [nan_pose]) [] (fun n => n))
              Sampler.MEDIUM Sampler.initial_locals
              (Sampler.mkLocals [] None 0 0 None 0 None None
                                (Some "a.pkl"%string) 20 10))
    as (d & st' & E & Hd & Hf & _).
  - vm_compute. reflexivity.
  - reflexivity.
  - exists st'. split; [exact E|].
    rewrite Hf. f_equal. vm_compute in Hd. congruence.
Defined.

(** C2, as first stated, fails when the last attempt and the fallback draw
    differ: with two dances that always fail the NaN filter and random
    numbers 0, ..., 0, 1 (the 1 at the twenty-first draw), the tenth attempt
    picks a.pkl and the active dance becomes b.pkl. *)
Lemma fallback_is_a_fresh_draw :
  exists st',
    Sampler.select_new_dance
      (example_world (Sampler.Arr3 [nan_pose]) []
                     (fun n => if (n =? 20)%nat then 1%nat else 0%nat))
      Sampler.MEDIUM Sampler.initial_locals = Some st'
    /\ Sampler.selected_dance st' = Some "a.pkl"%string
    /\ Sampler.current_dance_file st' = Some "b.pkl"%string.
Proof.
  eexists. split; [vm_compute; reflexivity|]. split; reflexivity.
Qed.

(** ** What the phases of a segment leave unchanged *)

Ltac break_match :=
  match goal with
  | |- context [match ?x with _ => _ end] => destruct x eqn:?
  end.

Lemma same_output_refl (st : Sampler.Locals) : same_output st st.
Proof. split; reflexivity. Qed.

Lemma same_output_trans (a b c : Sampler.Locals) :
  same_output a b -> same_output b c -> same_output a c.
Proof. intros [H1 H2] [H3 H4]. split; congruence. Qed.

Lemma count_nan_samples_output (w : Sampler.World) (kp : Sampler.Keypoints)
      (n k c : nat) (st : Sampler.Locals) :
  same_output st (snd (Sampler.count_nan_samples w kp n k c st)).
Proof.
  revert c st. induction k as [|k IH]; intros c st; simpl.
  - apply same_output_refl.
  - destruct (Sampler.frame_at kp _); simpl.
    + eapply same_output_trans; [|apply IH]. split; reflexivity.
    + split; reflexivity.
Qed.

Lemma choose_dance_output (w : Sampler.World) (i : Sampler.DanceIntensity)
      (st st' : Sampler.Locals) (d : string) :
  Sampler.choose_dance w i st = Some (d, st') -> st' = Sampler.tick_rng st.
Proof.
  rewrite choose_dance_pool. unfold Sampler.random_choice.
  destruct (pool w i); [discriminate|]. now intros [= _ <-].
Qed.

Lemma try_dance_output (w : Sampler.World) (i : Sampler.DanceIntensity)
      (st st' : Sampler.Locals) (b : bool) :
  Sampler.try_dance w i st = Some (b, st') -> same_output st st'.
Proof.
  unfold Sampler.try_dance.
  destruct (Sampler.choose_dance w i st) as [[d st1]|] eqn:Ec;
    [|discriminate].
  apply choose_dance_output in Ec. subst st1.
  destruct (Sampler.load_keypoint_file w _ d) as [kp|];
    [|intros [= _ <-]; split; reflexivity].
  assert (G : forall kp0,
             match Sampler.count_nan_samples w kp0
                     (Z.to_nat (Sampler.num_frames kp0))
                     (Nat.min 10 (Z.to_nat (Sampler.num_frames kp0))) 0
                     (Sampler.tick_io
                        (Sampler.set_selected_dance d (Sampler.tick_rng st)))
             with
             | (Some nan_count, st4) =>
                 match Py.fdiv (inject_Z (Z.of_nat nan_count))
                         (inject_Z (Z.of_nat
                            (Nat.min 10 (Z.to_nat (Sampler.num_frames kp0)))))
                 with
                 | Some ratio =>
                     if Py.Qlt_bool ratio (3 # 10)
                     then
                       let (duration, st5) :=
                         Sampler.get_dance_duration w d st4 in
                       Some (true, Sampler.set_current_dance d duration i st5)
                     else Some (false, st4)
                 | None => Some (false, st4)
                 end
             | (None, st4) => Some (false, st4)
             end = Some (b, st') -> same_output st st').
  { intro kp0.
    pose proof (count_nan_samples_output w kp0
                  (Z.to_nat (Sampler.num_frames kp0))
                  (Nat.min 10 (Z.to_nat (Sampler.num_frames kp0))) 0
                  (Sampler.tick_io
                     (Sampler.set_selected_dance d (Sampler.tick_rng st))))
      as Hc.
    destruct (Sampler.count_nan_samples _ _ _ _ _ _) as [[c|] st4];
      simpl in Hc.
    - destruct (Py.fdiv _ _); [|now intros [= _ <-]].
      destruct (Py.Qlt_bool _ _); [|now intros [= _ <-]].
      unfold Sampler.get_dance_duration. intros [= _ <-].
      destruct Hc as [H1 H2]. split; simpl; assumption.
    - now intros [= _ <-]. }
  destruct kp; [apply G | apply G | intros [= _ <-]; split; reflexivity].
Qed.

Lemma retry_loop_output (w : Sampler.World) (i : Sampler.DanceIntensity)
      (retries : nat) (st st' : Sampler.Locals) :
  Sampler.retry_loop w i retries st = Some st' -> same_output st st'.
Proof.
  revert st. induction retries as [|r IH]; intro st; simpl.
  - intros [= <-]. apply same_output_refl.
  - destruct (Sampler.try_dance w i st) as [[[] st1]|] eqn:E;
      [| |discriminate].
    + intros [= <-]. eapply try_dance_output, E.
    + intro H. eapply same_output_trans; [eapply try_dance_output, E|].
      now apply IH.
Qed.

Lemma select_new_dance_output (w : Sampler.World)
      (i : Sampler.DanceIntensity) (st st' : Sampler.Locals) :
  Sampler.select_new_dance w i st = Some st' -> same_output st st'.
Proof.
  unfold Sampler.select_new_dance.
  destruct (Sampler.retry_loop w i Sampler.max_retries _) as [st1|] eqn:E;
    [|discriminate].
  apply retry_loop_output in E.
  assert (E0 : same_output st st1).
  { eapply same_output_trans; [|exact E]. split; reflexivity. }
  destruct (Sampler.current_dance_file st1); [now intros [= <-]|].
  destruct (Sampler.choose_dance w i st1) as [[d st2]|] eqn:Ec;
    [|discriminate].
  apply choose_dance_output in Ec. subst st2.
  unfold Sampler.get_dance_duration. intros [= <-].
  destruct E0 as [H1 H2]. split; simpl; assumption.
Qed.

Lemma need_new_dance_output (w : Sampler.World) (frame_rate : Q)
      (i : Sampler.DanceIntensity) (st : Sampler.Locals) :
  same_output st (snd (Sampler.need_new_dance w frame_rate i st)).
Proof.
  unfold Sampler.need_new_dance.
  repeat break_match; simpl; split; reflexivity.
Qed.

Lemma load_pose_output (w : Sampler.World) (f : string) (raw : Z)
      (st : Sampler.Locals) :
  same_output st (snd (Sampler.load_pose w f raw st))
  /\ Sampler.current_dance_file (snd (Sampler.load_pose w f raw st))
     = Sampler.current_dance_file st.
Proof.
  unfold Sampler.load_pose.
  destruct (Sampler.load_keypoint_file w (Sampler.io st) f) as [kp|];
    [|repeat split].
  destruct (0 <? Sampler.num_frames kp)%Z; [|repeat split].
  set (assigned := match kp with
                   | Sampler.ArrOther => Some (Sampler.tick_io st)
                   | _ => _
                   end).
  assert (Ha : forall l, assigned = Some l ->
                 same_output st l
                 /\ Sampler.current_dance_file l
                    = Sampler.current_dance_file st).
  { unfold assigned. intros l.
    destruct kp; try destruct (Sampler.frame_at _ _);
      intros [= <-]; repeat split. }
  destruct assigned as [st2|]; [|repeat split].
  specialize (Ha st2 eq_refl).
  repeat break_match; exact Ha.
Qed.

(** Once the file is loaded with a positive frame count, the index of the
    record is the raw index wrapped, whatever happens to the pose. *)
Lemma load_pose_wrapped (w : Sampler.World) (f : string) (raw : Z)
      (st : Sampler.Locals) (kp : Sampler.Keypoints) :
  Sampler.load_keypoint_file w (Sampler.io st) f = Some kp ->
  (0 < Sampler.num_frames kp)%Z ->
  fst (fst (Sampler.load_pose w f raw st)) = (raw mod Sampler.num_frames kp)%Z.
Proof.
  intros Hload Hn. unfold Sampler.load_pose. rewrite Hload.
  apply Z.ltb_lt in Hn. rewrite Hn.
  repeat break_match; reflexivity.
Qed.

(** When the file does not load, the index of the record is the raw one. *)
Lemma load_pose_unwrapped (w : Sampler.World) (f : string) (raw : Z)
      (st : Sampler.Locals) :
  Sampler.load_keypoint_file w (Sampler.io st) f = None ->
  fst (Sampler.load_pose w f raw st) = (raw, None).
Proof. intro Hload. unfold Sampler.load_pose. now rewrite Hload. Qed.

(** ** One frame *)

(** The record one pass of the frame loop appends. *)
Lemma emit_frame_record (w : Sampler.World) (frame_rate frame_delay start : Q)
      (intensity : Sampler.DanceIntensity) (st : Sampler.Locals) (idx : nat) :
  let st' := Sampler.emit_frame w frame_rate frame_delay start intensity
                                st idx in
  let raw := (Py.int (Sampler.current_dance_elapsed st * frame_rate)
              + Z.of_nat idx)%Z in
  exists r,
    Sampler.pose_sequence st' = Sampler.pose_sequence st ++ [r]
    /\ Sampler.frame_number st' = S (Sampler.frame_number st)
    /\ Sampler.Frame.frame_number r = Sampler.frame_number st
    /\ Sampler.Frame.time r
       == start + inject_Z (Z.of_nat idx) / frame_rate
          + delay_shift frame_delay
    /\ Sampler.Frame.dance_file r = Sampler.current_dance_file st
    /\ (forall f kp,
           Sampler.current_dance_file st = Some f -> f <> EmptyString ->
           Sampler.load_keypoint_file w (Sampler.io st) f = Some kp ->
           (0 < Sampler.num_frames kp)%Z ->
           Sampler.Frame.dance_frame r = (raw mod Sampler.num_frames kp)%Z)
    /\ (forall f,
           Sampler.current_dance_file st = Some f -> f <> EmptyString ->
           Sampler.load_keypoint_file w (Sampler.io st) f = None ->
           Sampler.Frame.dance_frame r = raw
           /\ Sampler.Frame.pose_data r = None).
Proof.
  intros st' raw. unfold st', Sampler.emit_frame. fold raw.
  assert (Ht : (if Py.Qlt_bool 0 frame_delay
                then start + inject_Z (Z.of_nat idx) / frame_rate + frame_delay
                else start + inject_Z (Z.of_nat idx) / frame_rate)
               == start + inject_Z (Z.of_nat idx) / frame_rate
                  + delay_shift frame_delay).
  { unfold delay_shift. destruct (Py.Qlt_bool 0 frame_delay); ring. }
  destruct (Sampler.current_dance_file st) as [f|] eqn:Ef.
  - destruct (Py.truthy f) eqn:Etr.
    + pose proof (load_pose_output w f raw st) as [[Hseq Hnum] Hfile].
      pose proof (load_pose_wrapped w f raw st) as Hwrap.
      pose proof (load_pose_unwrapped w f raw st) as Hunwrap.
      destruct (Sampler.load_pose w f raw st) as [[df pd] st1].
      simpl in Hseq, Hnum, Hfile, Hwrap, Hunwrap.
      eexists. simpl. rewrite Hseq, Hnum, Hfile, Ef.
      repeat split; try reflexivity; try exact Ht; intros;
        repeat match goal with
               | H : Some _ = Some _ |- _ => injection H as <-
               end;
        first [ now apply Hwrap
              | match goal with
                | H : Sampler.load_keypoint_file _ _ _ = None |- _ =>
                    now injection (Hunwrap H)
                end ].
    + eexists. simpl. rewrite Ef.
      repeat split; try reflexivity; try exact Ht; intros;
        repeat match goal with
               | H : Some _ = Some _ |- _ => injection H as <-
               end;
        destruct f; simpl in *; congruence.
  - eexists. simpl. rewrite Ef.
    repeat split; try reflexivity; try exact Ht; intros; discriminate.
Qed.

(** ** The frame loop and the segment loop *)

Lemma generate_frames_invariant (w : Sampler.World)
      (frame_rate frame_delay start : Q) (intensity : Sampler.DanceIntensity)
      (I : nat -> Sampler.Locals -> Prop) (total : nat) (st : Sampler.Locals) :
  (forall idx s, (idx < total)%nat -> I idx s ->
     I (S idx) (Sampler.emit_frame w frame_rate frame_delay start intensity
                                   s idx)) ->
  I 0%nat st ->
  I total (Sampler.generate_frames w frame_rate frame_delay start intensity
                                   total st).
Proof.
  intros Hstep. unfold Sampler.generate_frames.
  assert (G : forall k a s, (a + k = total)%nat -> I a s ->
                I total (fold_left (Sampler.emit_frame w frame_rate frame_delay
                                      start intensity) (seq a k) s)).
  { induction k as [|k IH]; intros a s Hak Ha; simpl.
    - now replace total with a by lia.
    - apply IH; [lia|]. apply Hstep; [lia | assumption]. }
  intro H0. now apply (G total 0%nat st).
Qed.

Lemma run_inv_weaken (b b' : Q) (st : Sampler.Locals) :
  b <= b' -> run_inv b st -> run_inv b' st.
Proof.
  intros Hb (H1 & H2 & H3 & H4). repeat split; try assumption.
  intros r Hr. eapply Qle_trans; [now apply H4 | exact Hb].
Qed.

Lemma run_inv_same_output (b : Q) (st st' : Sampler.Locals) :
  same_output st st' -> run_inv b st -> run_inv b st'.
Proof.
  intros [Hs Hn]. unfold run_inv. now rewrite Hs, Hn.
Qed.

Lemma run_inv_append (b b' : Q) (st st' : Sampler.Locals)
      (r : Sampler.Frame.t) :
  run_inv b st ->
  Sampler.pose_sequence st' = Sampler.pose_sequence st ++ [r] ->
  Sampler.frame_number st' = S (Sampler.frame_number st) ->
  Sampler.Frame.frame_number r = Sampler.frame_number st ->
  b <= Sampler.Frame.time r -> Sampler.Frame.time r <= b' ->
  run_inv b' st'.
Proof.
  intros (Hlen & Hnum & Hsort & Hbound) Hseq Hfn Hr Hlo Hhi.
  unfold run_inv. rewrite Hseq, Hfn.
  set (l := Sampler.pose_sequence st) in *.
  assert (Hnth : forall i x, nth_error (l ++ [r]) i = Some x ->
                   ((i < length l)%nat /\ nth_error l i = Some x)
                   \/ (i = length l /\ x = r)).
  { intros i x Hx. destruct (Nat.lt_ge_cases i (length l)) as [Hi|Hi].
    - left. split; [assumption|]. now rewrite nth_error_app1 in Hx.
    - right. rewrite nth_error_app2 in Hx by assumption.
      destruct (i - length l)%nat as [|k] eqn:Ek.
      + split; [lia|]. simpl in Hx. congruence.
      + simpl in Hx. destruct k; discriminate. }
  repeat split.
  - rewrite length_app. simpl. lia.
  - intros i x Hx. destruct (Hnth i x Hx) as [[_ Hi]|[-> ->]].
    + now apply Hnum.
    + congruence.
  - intros i j ri rj Hij Hi Hj.
    destruct (Hnth j rj Hj) as [[Hjl Hj']|[-> ->]].
    + destruct (Hnth i ri Hi) as [[_ Hi']|[-> _]]; [|lia].
      exact (Hsort i j ri rj Hij Hi' Hj').
    + destruct (Hnth i ri Hi) as [[_ Hi']|[_ ->]]; [|apply Qle_refl].
      eapply Qle_trans; [|exact Hlo].
      apply Hbound. eapply nth_error_In, Hi'.
  - intros x Hx. apply in_app_or in Hx. destruct Hx as [Hx|[<-|[]]].
    + eapply Qle_trans; [now apply Hbound|].
      eapply Qle_trans; [exact Hlo | exact Hhi].
    + exact Hhi.
Qed.

Lemma int_nonpos (x : Q) : x <= 0 -> (Py.int x <= 0)%Z.
Proof.
  destruct x as [n d]. unfold Qle, Py.int. simpl. intro H.
  assert (Hn : (n <= 0)%Z) by lia.
  replace n with (- (- n))%Z by lia.
  rewrite Z.quot_opp_l by lia.
  assert (0 <= Z.quot (- n) (Z.pos d))%Z; [|lia].
  apply Z.quot_pos; lia.
Qed.

(** A segment that yields a frame has a positive product of duration and
    rate, and no more frames than that product. *)
Lemma total_frames_bound (x : Q) :
  (0 < Z.to_nat (Py.int x))%nat ->
  0 < x /\ inject_Z (Z.of_nat (Z.to_nat (Py.int x))) <= x.
Proof.
  intro H.
  assert (Hx : 0 < x).
  { apply Qnot_le_lt. intro Hle. apply int_nonpos in Hle. lia. }
  split; [assumption|].
  rewrite Z2Nat.id by lia. apply int_le. now apply Qlt_le_weak.
Qed.

(** The frames of one segment keep the invariant, and stay within five
    seconds of the start of the segment. *)
Lemma generate_frames_run_inv (w : Sampler.World)
      (frame_rate frame_delay start_time end_time : Q)
      (intensity : Sampler.DanceIntensity) (st : Sampler.Locals) :
  start_time < end_time -> end_time <= start_time + 5 ->
  run_inv (start_time + delay_shift frame_delay) st ->
  run_inv (start_time + 5 + delay_shift frame_delay)
          (Sampler.generate_frames w frame_rate frame_delay start_time
             intensity
             (Z.to_nat (Py.int ((end_time - start_time) * frame_rate))) st).
Proof.
  intros Hse Hes Hinv.
  set (total := Z.to_nat (Py.int ((end_time - start_time) * frame_rate))).
  destruct (Nat.eq_dec total 0) as [E0|Hpos].
  - rewrite E0. unfold Sampler.generate_frames. simpl.
    eapply run_inv_weaken; [|exact Hinv]. lra.
  - destruct (total_frames_bound ((end_time - start_time) * frame_rate))
      as [Hprod Htot]; [fold total; lia|]. fold total in Htot.
    assert (Hrate : 0 < frame_rate).
    { apply Qnot_le_lt. intro Hle.
      assert (0 <= (end_time - start_time) * (- frame_rate)).
      { apply Qmult_le_0_compat; lra. }
      lra. }
    set (T := fun idx : nat =>
                start_time + inject_Z (Z.of_nat idx) / frame_rate
                + delay_shift frame_delay).
    assert (HT : forall idx, T idx <= T (S idx)).
    { intro idx. unfold T. rewrite Nat2Z.inj_succ. unfold Z.succ.
      rewrite inject_Z_plus. change (inject_Z 1) with 1.
      assert (0 <= 1 / frame_rate).
      { apply Qle_shift_div_l; [assumption | lra]. }
      assert (E : (inject_Z (Z.of_nat idx) + 1) / frame_rate
                  == inject_Z (Z.of_nat idx) / frame_rate + 1 / frame_rate).
      { field. lra. }
      rewrite E. lra. }
    apply (run_inv_weaken (T total)).
    + unfold T.
      assert (inject_Z (Z.of_nat total) / frame_rate
              <= end_time - start_time).
      { apply Qle_shift_div_r; [assumption | exact Htot]. }
      lra.
    + apply (generate_frames_invariant w frame_rate frame_delay start_time
               intensity (fun idx s => run_inv (T idx) s)).
      * intros idx s _ Hs.
        destruct (emit_frame_record w frame_rate frame_delay start_time
                    intensity s idx) as (r & Hseq & Hfn & Hr & Ht & _).
        apply (run_inv_append (T idx) (T (S idx)) s _ r Hs Hseq Hfn Hr).
        -- unfold T. rewrite Ht. apply Qle_refl.
        -- rewrite Ht. apply HT.
      * eapply run_inv_weaken; [|exact Hinv]. unfold T. simpl.
        assert (E : inject_Z 0 / frame_rate == 0) by (field; lra).
        rewrite E. lra.
Qed.

(** One segment keeps the invariant and moves its bound by five seconds. *)
Lemma process_segment_run_inv (w : Sampler.World)
      (self : Sampler.DanceMoveSampler)
      (low high frame_rate frame_delay : Q) (na nb : list Q) (i : nat)
      (start_time end_time a b : Q) (st st' : Sampler.Locals) :
  start_time < end_time -> end_time <= start_time + 5 ->
  run_inv (start_time + delay_shift frame_delay) st ->
  Sampler.process_segment w self low high frame_rate frame_delay na nb i
                          (start_time, end_time, a, b) st = Some st' ->
  run_inv (start_time + 5 + delay_shift frame_delay) st'.
Proof.
  intros Hse Hes Hinv. unfold Sampler.process_segment.
  set (intensity := Sampler.classify_intensity _ _ _).
  pose proof (need_new_dance_output w frame_rate intensity st) as Hneed.
  destruct (Sampler.need_new_dance w frame_rate intensity st) as [need st1].
  simpl in Hneed.
  assert (Hsel : forall st2,
             (if need then Sampler.select_new_dance w intensity st1
              else Some st1) = Some st2 -> same_output st st2).
  { intros st2. destruct need.
    - intro E. eapply same_output_trans; [exact Hneed|].
      now apply select_new_dance_output in E.
    - now intros [= <-]. }
  destruct (if need then _ else _) as [st2|]; [|discriminate].
  intros [= <-]. specialize (Hsel st2 eq_refl).
  eapply run_inv_same_output; [|apply generate_frames_run_inv;
                                 [exact Hse | exact Hes |]].
  - split; reflexivity.
  - eapply run_inv_same_output; [|exact Hinv].
    destruct Hsel as [H1 H2]. split; simpl; assumption.
Qed.

Lemma run_segments_run_inv (w : Sampler.World)
      (self : Sampler.DanceMoveSampler)
      (low high frame_rate frame_delay : Q) (na nb : list Q)
      (segs : list Sampler.Segment) :
  forall (i : nat) (st st' : Sampler.Locals),
    seg_chain i segs ->
    run_inv (5 * inject_Z (Z.of_nat i) + delay_shift frame_delay) st ->
    Sampler.run_segments w self low high frame_rate frame_delay na nb i
                         segs st = Some st' ->
    exists bound, run_inv bound st'.
Proof.
  induction segs as [|[[[s e] a] b] rest IH]; intros i st st' Hchain Hinv;
    cbn [Sampler.run_segments].
  - intros [= <-]. eexists. exact Hinv.
  - destruct Hchain as (Hs & Hse & Hes & Hrest).
    destruct (Sampler.process_segment w self low high frame_rate frame_delay
                na nb i (s, e, a, b) st) as [st1|] eqn:E;
      [|discriminate].
    intro Hrun. apply (IH (S i) st1 st' Hrest); [|exact Hrun].
    apply (process_segment_run_inv w self low high frame_rate frame_delay
             na nb i s e a b st st1 Hse Hes) in E.
    + eapply run_inv_weaken; [|exact E].
      rewrite Nat2Z.inj_succ. unfold Z.succ. rewrite inject_Z_plus.
      change (inject_Z 1) with 1. rewrite Hs. lra.
    + eapply run_inv_weaken; [|exact Hinv]. rewrite Hs. lra.
Qed.

Lemma segments_data_chain (w : Sampler.World) (song_duration : Q) :
  seg_chain 0 (Sampler.segments_data w song_duration).
Proof.
  unfold Sampler.segments_data, Sampler.arange5.
  set (m := Z.to_nat (Qceiling (song_duration / 5))).
  assert (G : forall k a, (a + k <= m)%nat ->
            seg_chain a
              (map (fun start_time =>
                      let end_time :=
                        Py.min2 (start_time + 5) song_duration in
                      (start_time, end_time,
                       Sampler.analyze_amplitude w start_time end_time,
                       Sampler.analyze_bpm w start_time end_time))
                   (map (fun k0 => 5 * inject_Z (Z.of_nat k0)) (seq a k)))).
  { induction k as [|k IH]; intros a Ha; [exact I|].
    cbn [seq map seg_chain].
    assert (Hlt : 5 * inject_Z (Z.of_nat a) < song_duration).
    { assert (Hz : (Z.of_nat a <= Qceiling (song_duration / 5) - 1)%Z)
        by (unfold m in Ha; lia).
      rewrite Zle_Qle in Hz.
      pose proof (Qceiling_lt (song_duration / 5)) as Hc.
      assert (inject_Z (Z.of_nat a) < song_duration / 5)
        by (eapply Qle_lt_trans; eassumption).
      assert (E : song_duration == 5 * (song_duration / 5)) by field.
      rewrite E. lra. }
    split; [reflexivity|].
    destruct (min2_cases (5 * inject_Z (Z.of_nat a) + 5) song_duration)
      as [[H ->]|[H ->]].
    - repeat split; [assumption | now apply Qlt_le_weak | apply IH; lia].
    - repeat split; [lra | apply Qle_refl | apply IH; lia]. }
  apply G. lia.
Qed.

Lemma run_inv_initial (bound : Q) : run_inv bound Sampler.initial_locals.
Proof.
  repeat split.
  - intros i r H. destruct i; discriminate.
  - intros i j ri rj _ H. destruct i; discriminate.
  - intros r [].
Qed.

(** The state the segment loop ends in, when the run returns records. *)
Lemma sample_dance_moves_cases (w : Sampler.World)
      (self : Sampler.DanceMoveSampler) (audio_file : string)
      (low high frame_rate frame_delay : Q) (song_duration : option Q) :
  Sampler.sample_dance_moves_for_song w self audio_file low high frame_rate
                                      frame_delay song_duration = []
  \/ exists d na nb st,
      Sampler.run_segments w self low high frame_rate frame_delay na nb 0
                           (Sampler.segments_data w d) Sampler.initial_locals
      = Some st
      /\ Sampler.sample_dance_moves_for_song w self audio_file low high
           frame_rate frame_delay song_duration = Sampler.pose_sequence st.
Proof.
  unfold Sampler.sample_dance_moves_for_song.
  destruct (Sampler.nonempty _); [|now left].
  destruct (Sampler.load_audio w audio_file) as [secs|]; [|now left].
  set (d := match song_duration with None => secs | Some d0 => d0 end).
  destruct (Sampler.normalize_features _ _) as [na nb].
  destruct (Sampler.run_segments _ _ _ _ _ _ _ _ _ _ _) as [st|] eqn:E;
    [|now left].
  right. exists d, na, nb, st. split; [exact E | reflexivity].
Qed.

(** C10.  In the sequence [sample_dance_moves_for_song] returns, the
    record at position [i] carries frame number [i], and the times never
    decrease along the sequence, for every [frame_delay] (so in
    particular for every non-negative one). *)
Theorem frame_numbers_and_times (w : Sampler.World)
        (self : Sampler.DanceMoveSampler) (audio_file : string)
        (low high frame_rate frame_delay : Q) (song_duration : option Q) :
  let out := Sampler.sample_dance_moves_for_song w self audio_file low high
               frame_rate frame_delay song_duration in
  (forall i r, nth_error out i = Some r -> Sampler.Frame.frame_number r = i)
  /\ (forall i j ri rj,
         (i <= j)%nat -> nth_error out i = Some ri ->
         nth_error out j = Some rj ->
         Sampler.Frame.time ri <= Sampler.Frame.time rj).
Proof.
  intro out. unfold out.
  destruct (sample_dance_moves_cases w self audio_file low high frame_rate
              frame_delay song_duration) as [->|(d & na & nb & st & E & ->)].
  - split; intros i; intros; destruct i; discriminate.
  - destruct (run_segments_run_inv w self low high frame_rate frame_delay
                na nb (Sampler.segments_data w d) 0 Sampler.initial_locals st)
      as (bound & _ & Hnum & Hsort & _).
    + apply segments_data_chain.
    + apply run_inv_initial.
    + exact E.
    + split; [exact Hnum | exact Hsort].
Qed.

(** A run over a song of one second at 10 frames per second, delayed by a
    quarter of a second. *)
Example frame_numbers_and_times_example :
  let out :=
    Sampler.sample_dance_moves_for_song
      (example_world (Sampler.Arr3 [clean_pose; nan_pose; clean_pose])
                     [] (fun n => n))
      example_sampler "song" (3 # 10) (7 # 10) 10 (1 # 4) None in
  map Sampler.Frame.frame_number out = seq 0 10
  /\ Forall2 Qeq (map Sampler.Frame.time out)
                 (map (fun k => inject_Z (Z.of_nat k) / 10 + (1 # 4))
                      (seq 0 10)).
Proof.
  cbv zeta. split; [vm_compute; reflexivity|].
  vm_compute. repeat constructor.
Qed.

(** ** The index into the dance *)

Section StableFile.

Variable w : Sampler.World.
Variable f : string.
Variable kp : Sampler.Keypoints.
Variable n : Z.

Hypothesis stable :
  forall call, Sampler.load_keypoint_file w call f = Some kp.
Hypothesis named : f <> EmptyString.
Hypothesis frames : Sampler.num_frames kp = n.
Hypothesis positive : (0 < n)%Z.






End StableFile.




(* ===================================================================== *)
(** * Part III.  Further properties of the code                           *)
(* ===================================================================== *)

(** ** The intensity score and the normalized features *)

(** X1.  For a sequencer built from positive weights, the combined score
    of a normalized amplitude and a normalized tempo in [0, 1] lies in
    [0, 1], between the smaller and the larger of the two. *)
Theorem intensity_score_in_unit_interval
        (a b sd ts : Q) (s : Sampler.DanceMoveSampler) (na nb : Q) :
  0 < a -> 0 < b ->
  Sampler.init a b sd ts = Some s ->
  0 <= na <= 1 -> 0 <= nb <= 1 ->
  0 <= Sampler.calculate_intensity_score s na nb <= 1
  /\ Py.min2 na nb <= Sampler.calculate_intensity_score s na nb
  /\ Sampler.calculate_intensity_score s na nb <= Py.max2 na nb.
Proof.
  intros Ha Hb Hinit [Hna0 Hna1] [Hnb0 Hnb1].
  unfold Sampler.init, Py.fdiv in Hinit.
  assert (Hne : ~ a + b == 0) by lra.
  apply Qeq_bool_false_iff in Hne. rewrite Hne in Hinit.
  apply Qeq_bool_false_iff in Hne.
  injection Hinit as <-. unfold Sampler.calculate_intensity_score. simpl.
  set (aw := a / (a + b)). set (bw := b / (a + b)).
  assert (Haw : 0 <= aw).
  { unfold aw. apply Qle_shift_div_l; lra. }
  assert (Hbw : 0 <= bw).
  { unfold bw. apply Qle_shift_div_l; lra. }
  assert (Hsum : aw + bw == 1) by (unfold aw, bw; field; exact Hne).
  clearbody aw bw.
  assert (Hbw' : bw == 1 - aw) by lra.
  assert (H1 : 0 <= aw * na) by (apply Qmult_le_0_compat; assumption).
  assert (H2 : 0 <= bw * nb) by (apply Qmult_le_0_compat; assumption).
  assert (H3 : 0 <= aw * (1 - na)) by (apply Qmult_le_0_compat; lra).
  assert (H4 : 0 <= bw * (1 - nb)) by (apply Qmult_le_0_compat; lra).
  assert (E3 : aw * (1 - na) == aw - aw * na) by ring.
  assert (E4 : bw * (1 - nb) == bw - bw * nb) by ring.
  split; [lra|].
  assert (E7 : bw * nb == nb - aw * nb) by (rewrite Hbw'; ring).
  assert (E8 : bw * na == na - aw * na) by (rewrite Hbw'; ring).
  destruct (min2_cases na nb) as [[Hlt ->]|[Hle ->]];
    destruct (max2_cases na nb) as [[Hlt' ->]|[Hle' ->]]; split;
    try (assert (H5 : 0 <= aw * (na - nb))
           by (apply Qmult_le_0_compat; lra);
         assert (E5 : aw * (na - nb) == aw * na - aw * nb) by ring);
    try (assert (H6 : 0 <= aw * (nb - na))
           by (apply Qmult_le_0_compat; lra);
         assert (E6 : aw * (nb - na) == aw * nb - aw * na) by ring);
    try (assert (H7 : 0 <= bw * (na - nb))
           by (apply Qmult_le_0_compat; lra);
         assert (E9 : bw * (na - nb) == bw * na - bw * nb) by ring);
    try (assert (H8 : 0 <= bw * (nb - na))
           by (apply Qmult_le_0_compat; lra);
         assert (E10 : bw * (nb - na) == bw * nb - bw * na) by ring);
    lra.
Qed.

Lemma intensity_score_in_unit_interval_witness :
  exists s,
    Sampler.init (6 # 10) (4 # 10) 5 (1 # 10) = Some s
    /\ 0 <= Sampler.calculate_intensity_score s (2 # 10) (8 # 10) <= 1.
Proof.
  destruct (Sampler.init (6 # 10) (4 # 10) 5 (1 # 10)) as [s|] eqn:E;
    [|discriminate E].
  exists s. split; [reflexivity|].
  apply (intensity_score_in_unit_interval (6 # 10) (4 # 10) 5 (1 # 10) s
           (2 # 10) (8 # 10)); try reflexivity; try exact E;
    split; discriminate.
Defined.

Lemma normalize_bpm_range (bpm : Q) : 0 <= Sampler.normalize_bpm bpm <= 1.
Proof.
  unfold Sampler.normalize_bpm.
  set (v := (bpm - 60) / (200 - 60)). clearbody v.
  destruct (min2_cases 1 v) as [[H1 ->]|[H1 ->]];
    [destruct (max2_cases 0 v) as [[H2 ->]|[H2 ->]]
    |destruct (max2_cases 0 1) as [[H2 ->]|[H2 ->]]]; lra.
Qed.

(** X2.  [normalize_features] keeps the two lengths and returns values in
    [0, 1] only (in exact arithmetic); when two amplitudes differ, the
    amplitude at each position is sent to (x - least) / (greatest - least):
    every position that holds the least amplitude to 0 and every position
    that holds the greatest to 1. *)
Theorem normalize_features_range (amplitudes bpms : list Q) :
  let norm_amplitudes := fst (Sampler.normalize_features amplitudes bpms) in
  let norm_bpms := snd (Sampler.normalize_features amplitudes bpms) in
  length norm_amplitudes = length amplitudes
  /\ length norm_bpms = length bpms
  /\ Forall (fun v => 0 <= v <= 1) norm_amplitudes
  /\ Forall (fun v => 0 <= v <= 1) norm_bpms
  /\ ((exists x y, In x amplitudes /\ In y amplitudes /\ ~ x == y) ->
      (exists lo hi,
          least lo amplitudes /\ greatest hi amplitudes /\ lo < hi)
      /\ forall i x lo hi,
          nth_error amplitudes i = Some x ->
          least lo amplitudes -> greatest hi amplitudes ->
          exists v,
            nth_error norm_amplitudes i = Some v
            /\ v == (x - lo) / (hi - lo)
            /\ (least x amplitudes -> v == 0)
            /\ (greatest x amplitudes -> v == 1)).
Proof.
  cbv zeta. unfold Sampler.normalize_features. simpl fst. simpl snd.
  split; [|split; [apply length_map|split; [|split]]].
  - unfold Sampler.normalize_amplitudes.
    destruct amplitudes as [|a rest]; [reflexivity|].
    destruct (Py.Qlt_bool _ _); [apply length_map | apply repeat_length].
  - unfold Sampler.normalize_amplitudes.
    destruct amplitudes as [|a rest]; [constructor|].
    destruct (min_list_spec rest a) as [_ Hlb].
    destruct (max_list_spec rest a) as [_ Hub].
    destruct (Py.Qlt_bool _ _) eqn:E.
    + apply Qlt_bool_iff in E. apply Forall_forall. intros v Hv.
      apply in_map_iff in Hv. destruct Hv as (x & <- & Hx).
      pose proof (Hlb x Hx). pose proof (Hub x Hx). split.
      * apply Qle_shift_div_l; lra.
      * apply Qle_shift_div_r; lra.
    + apply Forall_forall. intros v Hv. apply repeat_spec in Hv. subst v.
      split; discriminate.
  - apply Forall_forall. intros v Hv. apply in_map_iff in Hv.
    destruct Hv as (x & <- & _). apply normalize_bpm_range.
  - intros (x & y & Hx & Hy & Hxy). unfold Sampler.normalize_amplitudes.
    destruct amplitudes as [|a rest]; [destruct Hx|].
    destruct (min_list_spec rest a) as [Hmin Hlb].
    destruct (max_list_spec rest a) as [Hmax Hub].
    set (lo0 := Py.min_list a rest) in *.
    set (hi0 := Py.max_list a rest) in *.
    assert (Hlt : lo0 < hi0).
    { apply Qnot_le_lt. intro Hle. apply Hxy.
      pose proof (Hlb _ Hx). pose proof (Hub _ Hx).
      pose proof (Hlb _ Hy). pose proof (Hub _ Hy). lra. }
    apply Qlt_bool_iff in Hlt as E. rewrite E. split.
    + exists lo0, hi0. repeat split; assumption.
    + intros i x0 lo hi Hi [Hlo1 Hlo2] [Hhi1 Hhi2].
      assert (Elo : lo == lo0).
      { apply Qle_antisym; [apply Hlo2, Hmin | apply Hlb, Hlo1]. }
      assert (Ehi : hi == hi0).
      { apply Qle_antisym; [apply Hub, Hhi1 | apply Hhi2, Hmax]. }
      exists ((x0 - lo0) / (hi0 - lo0)). split; [|split; [|split]].
      * rewrite nth_error_map, Hi. reflexivity.
      * now rewrite Elo, Ehi.
      * intros [Hx1 Hx2].
        assert (Ex : x0 == lo0).
        { apply Qle_antisym; [apply Hx2, Hmin | apply Hlb, Hx1]. }
        rewrite Ex. field. lra.
      * intros [Hx1 Hx2].
        assert (Ex : x0 == hi0).
        { apply Qle_antisym; [apply Hub, Hx1 | apply Hx2, Hmax]. }
        rewrite Ex. field. lra.
Qed.

Lemma normalize_features_range_witness :
  exists v w,
    nth_error (fst (Sampler.normalize_features [3; 1; 2; 1] [])) 3 = Some v
    /\ v == 0
    /\ nth_error (fst (Sampler.normalize_features [3; 1; 2; 1] [])) 0 = Some w
    /\ w == 1.
Proof.
  assert (Hlo : least 1 [3; 1; 2; 1]).
  { split; [right; now left|]. intros x Hx. simpl in Hx.
    destruct Hx as [<-|[<-|[<-|[<-|[]]]]]; discriminate. }
  assert (Hhi : greatest 3 [3; 1; 2; 1]).
  { split; [now left|]. intros x Hx. simpl in Hx.
    destruct Hx as [<-|[<-|[<-|[<-|[]]]]]; discriminate. }
  destruct (normalize_features_range [3; 1; 2; 1] [])
    as (_ & _ & _ & _ & H).
  destruct H as [_ H].
  { exists 3, 1. repeat split; [now left | right; now left | discriminate]. }
  destruct (H 3%nat 1 1 3 eq_refl Hlo Hhi) as (v & Ev & _ & Hv & _).
  destruct (H 0%nat 3 1 3 eq_refl Hlo Hhi) as (w & Ew & _ & _ & Hw).
  exists v, w. repeat split; [exact Ev | now apply Hv | exact Ew | now apply Hw].
Defined.

(** ** The pools of dances *)

Lemma intensity_eqb_eq (a b : Sampler.DanceIntensity) :
  Sampler.intensity_eqb a b = true <-> a = b.
Proof. destruct a, b; simpl; split; congruence. Qed.

(** X3.  [get_dances_by_intensity] returns exactly the files whose position
    carries the wanted label in the mappings, so a file listed beyond the
    end of the mappings is in none of the three pools; the three pools
    together hold as many files as there are positions common to the two
    lists. *)
Theorem get_dances_by_intensity_spec
        (available_dances : list string)
        (intensity_mappings : list Sampler.DanceIntensity) :
  (forall intensity d,
      In d (Sampler.get_dances_by_intensity intensity available_dances
                                            intensity_mappings)
      <-> exists k, nth_error available_dances k = Some d
                    /\ nth_error intensity_mappings k = Some intensity)
  /\ (length (Sampler.get_dances_by_intensity Sampler.HIGH available_dances
                                              intensity_mappings)
      + length (Sampler.get_dances_by_intensity Sampler.MEDIUM
                  available_dances intensity_mappings)
      + length (Sampler.get_dances_by_intensity Sampler.LOW available_dances
                                                intensity_mappings)
      = Nat.min (length available_dances) (length intensity_mappings))%nat.
Proof.
  split.
  - intros intensity. revert available_dances.
    induction intensity_mappings as [|m ms IH]; intros avail d.
    + destruct avail; simpl; (split; [intros []|]); intros (k & _ & Hk);
        destruct k; discriminate.
    + destruct avail as [|a ds].
      * simpl. split; [intros []|]. intros (k & Hk & _).
        destruct k; discriminate.
      * cbn [Sampler.get_dances_by_intensity].
        destruct (Sampler.intensity_eqb m intensity) eqn:E.
        -- apply intensity_eqb_eq in E. subst m. split.
           ++ intros [<-|Hin]; [exists 0%nat; split; reflexivity|].
              apply IH in Hin. destruct Hin as (k & H1 & H2).
              exists (S k). split; assumption.
           ++ intros ([|k] & H1 & H2).
              ** left. simpl in H1. congruence.
              ** right. apply IH. exists k. split; assumption.
        -- split.
           ++ intro Hin. apply IH in Hin. destruct Hin as (k & H1 & H2).
              exists (S k). split; assumption.
           ++ intros ([|k] & H1 & H2).
              ** simpl in H2. injection H2 as ->.
                 assert (Sampler.intensity_eqb intensity intensity = true)
                   by (now apply intensity_eqb_eq).
                 congruence.
              ** apply IH. exists k. split; assumption.
  - revert available_dances.
    induction intensity_mappings as [|m ms IH]; intros avail.
    + destruct avail; reflexivity.
    + destruct avail as [|a ds]; [reflexivity|].
      cbn [Sampler.get_dances_by_intensity length Nat.min].
      rewrite <- (IH ds). destruct m; simpl; lia.
Qed.

(** ** The active dance through a segment *)

Lemma same_dance_refl (st : Sampler.Locals) : same_dance st st.
Proof. repeat split. Qed.

Lemma same_dance_trans (a b c : Sampler.Locals) :
  same_dance a b -> same_dance b c -> same_dance a c.
Proof.
  intros (H1 & H2 & H3 & H4) (H5 & H6 & H7 & H8).
  repeat split; congruence.
Qed.

Lemma load_pose_dance (w : Sampler.World) (f : string) (raw : Z)
      (st : Sampler.Locals) :
  same_dance st (snd (Sampler.load_pose w f raw st)).
Proof.
  unfold Sampler.load_pose.
  destruct (Sampler.load_keypoint_file w (Sampler.io st) f) as [kp|];
    [|repeat split].
  destruct (0 <? Sampler.num_frames kp)%Z; [|repeat split].
  set (assigned := match kp with
                   | Sampler.ArrOther => Some (Sampler.tick_io st)
                   | _ => _
                   end).
  assert (Ha : forall l, assigned = Some l -> same_dance st l).
  { unfold assigned. intros l.
    destruct kp; try destruct (Sampler.frame_at _ _);
      intros [= <-]; repeat split. }
  destruct assigned as [st2|]; [|repeat split].
  specialize (Ha st2 eq_refl).
  repeat break_match; exact Ha.
Qed.

Lemma emit_frame_dance (w : Sampler.World) (frame_rate frame_delay start : Q)
      (intensity : Sampler.DanceIntensity) (st : Sampler.Locals) (idx : nat) :
  same_dance st
    (Sampler.emit_frame w frame_rate frame_delay start intensity st idx).
Proof.
  unfold Sampler.emit_frame.
  destruct (Sampler.current_dance_file st) as [f|] eqn:Ef;
    [destruct (Py.truthy f)|]; try (repeat split; simpl; congruence).
  pose proof (load_pose_dance w f
                (Py.int (Sampler.current_dance_elapsed st * frame_rate)
                 + Z.of_nat idx) st) as H.
  destruct (Sampler.load_pose w f _ st) as [[df pd] st1].
  simpl in H. destruct H as (H1 & H2 & H3 & H4).
  repeat split; simpl; congruence.
Qed.

(** The records of one pass of the frame loop: as many as asked for, all
    naming the active dance and the intensity of the segment. *)
Lemma generate_frames_records (w : Sampler.World)
      (frame_rate frame_delay start : Q) (intensity : Sampler.DanceIntensity)
      (total : nat) (st : Sampler.Locals) :
  let st' := Sampler.generate_frames w frame_rate frame_delay start intensity
                                     total st in
  same_dance st st'
  /\ exists recs,
      Sampler.pose_sequence st' = Sampler.pose_sequence st ++ recs
      /\ length recs = total
      /\ Forall (fun r =>
                   Sampler.Frame.dance_file r = Sampler.current_dance_file st
                   /\ Sampler.Frame.intensity r = Sampler.value intensity)
                recs.
Proof.
  cbv zeta.
  apply (generate_frames_invariant w frame_rate frame_delay start intensity
           (fun idx s =>
              same_dance st s
              /\ exists recs,
                  Sampler.pose_sequence s = Sampler.pose_sequence st ++ recs
                  /\ length recs = idx
                  /\ Forall (fun r =>
                               Sampler.Frame.dance_file r
                               = Sampler.current_dance_file st
                               /\ Sampler.Frame.intensity r
                                  = Sampler.value intensity) recs)).
  - intros idx s _ (Hd & recs & Hseq & Hlen & Hall).
    split; [eapply same_dance_trans; [exact Hd | apply emit_frame_dance]|].
    unfold Sampler.emit_frame.
    set (raw := (Py.int (Sampler.current_dance_elapsed s * frame_rate)
                 + Z.of_nat idx)%Z).
    set (res := match Sampler.current_dance_file s with
                | Some f =>
                    if Py.truthy f then Sampler.load_pose w f raw s
                    else (raw, None, s)
                | None => (raw, None, s)
                end).
    assert (Hres : same_output s (snd res)
                   /\ Sampler.current_dance_file (snd res)
                      = Sampler.current_dance_file s).
    { unfold res. destruct (Sampler.current_dance_file s) as [f|] eqn:Ef;
        [destruct (Py.truthy f)|];
        try (split; [apply same_output_refl | simpl; congruence]).
      pose proof (load_pose_output w f raw s) as [H1 H2].
      split; [exact H1 | congruence]. }
    destruct res as [[df pd] s1]. simpl in Hres.
    destruct Hres as [[Hs1 _] Hf1].
    eexists. cbn [Sampler.append_frame Sampler.pose_sequence].
    rewrite Hs1, Hseq, <- app_assoc. split; [reflexivity|].
    split; [rewrite length_app; simpl; lia|].
    apply Forall_app. split; [exact Hall|].
    constructor; [|constructor]. simpl.
    destruct Hd as (Hd & _). split; [congruence | reflexivity].
  - split; [apply same_dance_refl|].
    exists []. rewrite app_nil_r. repeat split. constructor.
Qed.

(** ** What a selection leaves behind *)

Lemma get_dances_In_available (i : Sampler.DanceIntensity)
      (available_dances : list string)
      (intensity_mappings : list Sampler.DanceIntensity) (d : string) :
  In d (Sampler.get_dances_by_intensity i available_dances intensity_mappings)
  -> In d available_dances.
Proof.
  revert available_dances.
  induction intensity_mappings as [|m ms IH]; intros [|a ds]; simpl;
    try tauto.
  destruct (Sampler.intensity_eqb m i); simpl.
  - intros [<-|H]; [now left | right; now apply IH].
  - intro H. right. now apply IH.
Qed.

Lemma pool_cases (w : Sampler.World) (i : Sampler.DanceIntensity) :
  let own := Sampler.get_dances_by_intensity i (Sampler.available_dances w)
               (Sampler.intensity_mappings w) in
  (own <> [] /\ pool w i = own)
  \/ (own = [] /\ pool w i = Sampler.available_dances w).
Proof.
  unfold pool, Sampler.high_dances, Sampler.medium_dances, Sampler.low_dances.
  destruct i; cbv zeta;
    destruct (Sampler.get_dances_by_intensity _ _ _);
    (right; split; reflexivity) || (left; split; [discriminate|reflexivity]).
Qed.

Lemma pool_available (w : Sampler.World) (i : Sampler.DanceIntensity)
      (d : string) :
  In d (pool w i) -> In d (Sampler.available_dances w).
Proof.
  destruct (pool_cases w i) as [[_ ->]|[_ ->]]; [|tauto].
  apply get_dances_In_available.
Qed.

Lemma choose_dance_In (w : Sampler.World) (i : Sampler.DanceIntensity)
      (st st' : Sampler.Locals) (d : string) :
  Sampler.choose_dance w i st = Some (d, st') -> In d (pool w i).
Proof.
  rewrite choose_dance_pool. intro H.
  assert (Hne : pool w i <> []).
  { intro E. rewrite E in H. discriminate H. }
  destruct (random_choice_some w (pool w i) st Hne) as (d' & E' & Hn).
  rewrite E' in H. injection H as <- _. eapply nth_error_In, Hn.
Qed.

Lemma count_nan_samples_dance (w : Sampler.World) (kp : Sampler.Keypoints)
      (n k c : nat) (st : Sampler.Locals) :
  same_dance st (snd (Sampler.count_nan_samples w kp n k c st)).
Proof.
  revert c st. induction k as [|k IH]; intros c st; simpl.
  - apply same_dance_refl.
  - destruct (Sampler.frame_at kp _); simpl.
    + eapply same_dance_trans; [|apply IH]. repeat split.
    + repeat split.
Qed.

Lemma try_dance_dance (w : Sampler.World) (i : Sampler.DanceIntensity)
      (st st' : Sampler.Locals) (b : bool) :
  Sampler.try_dance w i st = Some (b, st') ->
  if b then selected w i st' else same_dance st st'.
Proof.
  unfold Sampler.try_dance.
  destruct (Sampler.choose_dance w i st) as [[d st1]|] eqn:Ec;
    [|discriminate].
  pose proof (choose_dance_In _ _ _ _ _ Ec) as Hd.
  apply choose_dance_output in Ec. subst st1.
  destruct (Sampler.load_keypoint_file w _ d) as [kp|];
    [|intros [= <- <-]; repeat split].
  assert (G : forall kp0,
             match Sampler.count_nan_samples w kp0
                     (Z.to_nat (Sampler.num_frames kp0))
                     (Nat.min 10 (Z.to_nat (Sampler.num_frames kp0))) 0
                     (Sampler.tick_io
                        (Sampler.set_selected_dance d (Sampler.tick_rng st)))
             with
             | (Some nan_count, st4) =>
                 match Py.fdiv (inject_Z (Z.of_nat nan_count))
                         (inject_Z (Z.of_nat
                            (Nat.min 10 (Z.to_nat (Sampler.num_frames kp0)))))
                 with
                 | Some ratio =>
                     if Py.Qlt_bool ratio (3 # 10)
                     then
                       let (duration, st5) :=
                         Sampler.get_dance_duration w d st4 in
                       Some (true, Sampler.set_current_dance d duration i st5)
                     else Some (false, st4)
                 | None => Some (false, st4)
                 end
             | (None, st4) => Some (false, st4)
             end = Some (b, st') ->
             if b then selected w i st' else same_dance st st').
  { intro kp0.
    pose proof (count_nan_samples_dance w kp0
                  (Z.to_nat (Sampler.num_frames kp0))
                  (Nat.min 10 (Z.to_nat (Sampler.num_frames kp0))) 0
                  (Sampler.tick_io
                     (Sampler.set_selected_dance d (Sampler.tick_rng st))))
      as Hc.
    destruct (Sampler.count_nan_samples _ _ _ _ _ _) as [[c|] st4];
      simpl in Hc.
    - destruct (Py.fdiv _ _); [|now intros [= <- <-]].
      destruct (Py.Qlt_bool _ _); [|now intros [= <- <-]].
      unfold Sampler.get_dance_duration. intros [= <- <-].
      exists d. repeat split. exact Hd.
    - now intros [= <- <-]. }
  destruct kp; [apply G | apply G | intros [= <- <-]; repeat split].
Qed.

Lemma retry_loop_dance (w : Sampler.World) (i : Sampler.DanceIntensity)
      (retries : nat) (st st' : Sampler.Locals) :
  Sampler.retry_loop w i retries st = Some st' ->
  selected w i st' \/ same_dance st st'.
Proof.
  revert st. induction retries as [|r IH]; intro st; simpl.
  - intros [= <-]. right. apply same_dance_refl.
  - destruct (Sampler.try_dance w i st) as [[[] st1]|] eqn:E;
      [| |discriminate]; apply try_dance_dance in E.
    + intros [= <-]. now left.
    + intro H. destruct (IH _ H) as [Hs|Hs]; [now left|].
      right. eapply same_dance_trans; eassumption.
Qed.

Lemma select_new_dance_selected (w : Sampler.World)
      (i : Sampler.DanceIntensity) (st st' : Sampler.Locals) :
  Sampler.select_new_dance w i st = Some st' -> selected w i st'.
Proof.
  unfold Sampler.select_new_dance.
  destruct (Sampler.retry_loop w i Sampler.max_retries _)
    as [st1|] eqn:E; [|discriminate].
  apply retry_loop_dance in E.
  destruct (Sampler.current_dance_file st1) as [f|] eqn:Ef.
  - intros [= <-]. destruct E as [E|(E & _)]; [exact E|].
    simpl in E. congruence.
  - destruct (Sampler.choose_dance w i st1) as [[d st2]|] eqn:Ec;
      [|discriminate].
    pose proof (choose_dance_In _ _ _ _ _ Ec) as Hd.
    unfold Sampler.get_dance_duration. intros [= <-].
    exists d. repeat split. exact Hd.
Qed.

(** X4.  A selection that succeeds leaves a dance of the catalogue active,
    taken from the dances labelled with the wanted intensity whenever
    there is one, with no time elapsed and the wanted intensity recorded. *)
Theorem select_new_dance_spec (w : Sampler.World)
        (intensity : Sampler.DanceIntensity) (st st' : Sampler.Locals) :
  Sampler.select_new_dance w intensity st = Some st' ->
  exists d,
    Sampler.current_dance_file st' = Some d
    /\ In d (Sampler.available_dances w)
    /\ (Sampler.get_dances_by_intensity intensity (Sampler.available_dances w)
                                        (Sampler.intensity_mappings w) <> []
        -> In d (Sampler.get_dances_by_intensity intensity
                   (Sampler.available_dances w) (Sampler.intensity_mappings w)))
    /\ Sampler.current_dance_elapsed st' = 0
    /\ Sampler.current_intensity st' = Some intensity
    /\ same_output st st'.
Proof.
  intro Hsel. pose proof (select_new_dance_output _ _ _ _ Hsel) as Hout.
  pose proof (select_new_dance_selected _ _ _ _ Hsel) as Hs.
  destruct Hs as (d & Hd & Hf & He & Hi).
  exists d. split; [exact Hf|].
  split; [exact (pool_available w intensity d Hd)|].
  split; [|repeat split; assumption || apply Hout].
  intro Hne. destruct (pool_cases w intensity) as [[_ E]|[E _]];
    [now rewrite <- E | contradiction].
Qed.

Lemma select_new_dance_spec_witness :
  exists st',
    Sampler.select_new_dance
      (example_world (Sampler.Arr3 [clean_pose]) [] (fun n => n))
      Sampler.MEDIUM Sampler.initial_locals = Some st'
    /\ Sampler.current_dance_elapsed st' = 0.
Proof.
  destruct (Sampler.select_new_dance
              (example_world (Sampler.Arr3 [clean_pose]) [] (fun n => n))
              Sampler.MEDIUM Sampler.initial_locals) as [st'|] eqn:E;
    [|vm_compute in E; discriminate E].
  exists st'. split; [reflexivity|].
  destruct (select_new_dance_spec _ _ _ _ E) as (d & _ & _ & _ & He & _).
  exact He.
Defined.

Lemma need_new_dance_dance (w : Sampler.World) (frame_rate : Q)
      (i : Sampler.DanceIntensity) (st : Sampler.Locals) :
  same_dance st (snd (Sampler.need_new_dance w frame_rate i st)).
Proof.
  unfold Sampler.need_new_dance.
  repeat break_match; simpl; repeat split.
Qed.

(** A dance is kept only while it is active, has time left, and either
    has the intensity of the segment or has played for at most 2 seconds. *)
Lemma need_new_dance_false (w : Sampler.World) (frame_rate : Q)
      (i : Sampler.DanceIntensity) (st : Sampler.Locals) :
  fst (Sampler.need_new_dance w frame_rate i st) = false ->
  (exists f, Sampler.current_dance_file st = Some f)
  /\ Sampler.current_dance_elapsed st < Sampler.current_dance_duration st
  /\ (Sampler.current_intensity st = Some i
      \/ Sampler.current_dance_elapsed st <= 2).
Proof.
  unfold Sampler.need_new_dance.
  destruct (Sampler.current_dance_file st) as [f|]; [|discriminate].
  destruct (Qle_bool _ _) eqn:E1; [discriminate|].
  apply Qle_bool_false_iff in E1.
  destruct (Sampler.intensity_differs i (Sampler.current_intensity st)
            && Py.Qlt_bool 2 (Sampler.current_dance_elapsed st)) eqn:E2;
    [discriminate|].
  intros _. split; [now exists f|]. split; [exact E1|].
  apply andb_false_iff in E2. destruct E2 as [E2|E2].
  - left. unfold Sampler.intensity_differs in E2.
    destruct (Sampler.current_intensity st) as [c|]; [|discriminate].
    apply negb_false_iff, intensity_eqb_eq in E2. now subst.
  - right. now apply Qlt_bool_false_iff.
Qed.

(** X5.  In exact arithmetic (the code truncates the binary64 product
    and classifies the binary64 score, which may give one record more or
    less, or another label at a threshold): one segment appends
    int(duration * frame_rate) records, all of them naming the dance that
    is active at the end of the segment and the intensity of the segment.  If no new dance was needed, the dance, its
    duration and its intensity are those before the segment (and the dance
    had time left, with the intensity of the segment or at most 2 seconds
    played) and the time elapsed grows by the duration of the segment;
    otherwise a dance of the catalogue is active and the time elapsed is
    the duration of the segment. *)
Theorem process_segment_spec (w : Sampler.World)
        (self : Sampler.DanceMoveSampler)
        (low high frame_rate frame_delay : Q) (na nb : list Q) (i : nat)
        (start_time end_time a b : Q) (st st' : Sampler.Locals) :
  Sampler.process_segment w self low high frame_rate frame_delay na nb i
                          (start_time, end_time, a, b) st = Some st' ->
  let intensity :=
    Sampler.classify_intensity
      (Sampler.calculate_intensity_score self (nth i na 0) (nth i nb 0))
      low high in
  let need := fst (Sampler.need_new_dance w frame_rate intensity st) in
  (exists recs,
      Sampler.pose_sequence st' = Sampler.pose_sequence st ++ recs
      /\ length recs
         = Z.to_nat (Py.int ((end_time - start_time) * frame_rate))
      /\ Forall (fun r =>
                   Sampler.Frame.dance_file r = Sampler.current_dance_file st'
                   /\ Sampler.Frame.intensity r = Sampler.value intensity)
                recs)
  /\ (need = false ->
      Sampler.current_dance_file st' = Sampler.current_dance_file st
      /\ Sampler.current_dance_duration st'
         = Sampler.current_dance_duration st
      /\ Sampler.current_intensity st' = Sampler.current_intensity st
      /\ Sampler.current_dance_elapsed st'
         = Sampler.current_dance_elapsed st + (end_time - start_time)
      /\ Sampler.current_dance_elapsed st < Sampler.current_dance_duration st
      /\ (Sampler.current_intensity st = Some intensity
          \/ Sampler.current_dance_elapsed st <= 2))
  /\ (need = true ->
      (exists d, Sampler.current_dance_file st' = Some d
                 /\ In d (Sampler.available_dances w))
      /\ Sampler.current_intensity st' = Some intensity
      /\ Sampler.current_dance_elapsed st' = 0 + (end_time - start_time)).
Proof.
  intros Hseg intensity need. subst need. revert Hseg.
  unfold Sampler.process_segment. fold intensity.
  pose proof (need_new_dance_output w frame_rate intensity st) as Hout.
  pose proof (need_new_dance_dance w frame_rate intensity st) as Hdance.
  pose proof (need_new_dance_false w frame_rate intensity st) as Hfalse.
  destruct (Sampler.need_new_dance w frame_rate intensity st) as [need st1].
  simpl in Hout, Hdance, Hfalse. simpl fst.
  destruct (if need then Sampler.select_new_dance w intensity st1
            else Some st1) as [st2|] eqn:Esel; [|discriminate].
  intros [= <-].
  set (st3 := Sampler.set_segment_duration (end_time - start_time) st2).
  destruct (generate_frames_records w frame_rate frame_delay start_time
              intensity
              (Z.to_nat (Py.int ((end_time - start_time) * frame_rate))) st3)
    as ((G1 & G2 & G3 & G4) & recs & Hseq & Hlen & Hall).
  set (st4 := Sampler.generate_frames _ _ _ _ _ _ st3) in *.
  assert (Hout2 : same_output st st2).
  { destruct need.
    - eapply same_output_trans; [exact Hout|].
      eapply select_new_dance_output, Esel.
    - injection Esel as <-. exact Hout. }
  split; [|split].
  - exists recs. cbn [Sampler.add_elapsed Sampler.pose_sequence
                      Sampler.current_dance_file].
    rewrite Hseq. split; [|split; [exact Hlen|]].
    + destruct Hout2 as [H _].
      change (Sampler.pose_sequence st3) with (Sampler.pose_sequence st2).
      now rewrite H.
    + rewrite G1. exact Hall.
  - intros ->. injection Esel as <-.
    destruct Hdance as (D1 & D2 & D3 & D4).
    cbn [Sampler.add_elapsed Sampler.current_dance_file
         Sampler.current_dance_duration Sampler.current_intensity
         Sampler.current_dance_elapsed].
    rewrite G1, G2, G3, G4. simpl.
    rewrite D1, D2, D3, D4.
    destruct (Hfalse eq_refl) as (_ & H1 & H2).
    repeat split; assumption.
  - intros ->.
    destruct (select_new_dance_selected _ _ _ _ Esel)
      as (d & Hd0 & Hf & He & Hi).
    pose proof (pool_available w intensity d Hd0) as Hd.
    cbn [Sampler.add_elapsed Sampler.current_dance_file
         Sampler.current_intensity Sampler.current_dance_elapsed].
    rewrite G1, G3, G4. simpl. rewrite Hf, He, Hi.
    repeat split. exists d. split; [reflexivity | exact Hd].
Qed.

Lemma process_segment_spec_witness :
  exists st',
    Sampler.process_segment
      (example_world (Sampler.Arr3 [clean_pose; clean_pose]) [] (fun n => n))
      example_sampler (3 # 10) (7 # 10) 10 0 [1 # 2] [3 # 7] 0
      (0, 1, 1, 120) Sampler.initial_locals = Some st'
    /\ length (Sampler.pose_sequence st') = 10%nat.
Proof.
  destruct (Sampler.process_segment
              (example_world (Sampler.Arr3 [clean_pose; clean_pose]) []
                             (fun n => n))
              example_sampler (3 # 10) (7 # 10) 10 0 [1 # 2] [3 # 7] 0
              (0, 1, 1, 120) Sampler.initial_locals) as [st'|] eqn:E;
    [|vm_compute in E; discriminate E].
  exists st'. split; [reflexivity|].
  destruct (process_segment_spec _ _ _ _ _ _ _ _ _ _ _ _ _ _ _ E)
    as ((recs & Hseq & Hlen & _) & _).
  rewrite Hseq, length_app, Hlen. reflexivity.
Defined.

(** ** The whole run *)

(** The three steps of one segment. *)
Lemma process_segment_steps (w : Sampler.World)
      (self : Sampler.DanceMoveSampler)
      (low high frame_rate frame_delay : Q) (na nb : list Q) (i : nat)
      (s e a b : Q) (st st' : Sampler.Locals) :
  Sampler.process_segment w self low high frame_rate frame_delay na nb i
                          (s, e, a, b) st = Some st' ->
  exists intensity st2,
    same_output st st2
    /\ (selected w intensity st2
        \/ (same_dance st st2
            /\ exists f, Sampler.current_dance_file st = Some f))
    /\ st' = Sampler.add_elapsed (e - s)
               (Sampler.generate_frames w frame_rate frame_delay s intensity
                  (Z.to_nat (Py.int ((e - s) * frame_rate)))
                  (Sampler.set_segment_duration (e - s) st2)).
Proof.
  unfold Sampler.process_segment.
  set (intensity := Sampler.classify_intensity _ _ _).
  pose proof (need_new_dance_output w frame_rate intensity st) as Hout.
  pose proof (need_new_dance_dance w frame_rate intensity st) as Hdance.
  pose proof (need_new_dance_false w frame_rate intensity st) as Hfalse.
  destruct (Sampler.need_new_dance w frame_rate intensity st) as [need st1].
  simpl in Hout, Hdance, Hfalse.
  destruct (if need then Sampler.select_new_dance w intensity st1
            else Some st1) as [st2|] eqn:Esel; [|discriminate].
  intros [= <-]. exists intensity, st2. destruct need.
  - split; [|split; [|reflexivity]].
    + eapply same_output_trans; [exact Hout|].
      eapply select_new_dance_output, Esel.
    + left. eapply select_new_dance_selected, Esel.
  - injection Esel as <-. split; [exact Hout|]. split; [|reflexivity].
    right. split; [exact Hdance|]. apply (Hfalse eq_refl).
Qed.

Lemma value_label (i : Sampler.DanceIntensity) :
  In (Sampler.value i) ["low"%string; "medium"%string; "high"%string].
Proof. destruct i; simpl; tauto. Qed.

Lemma process_segment_catalogue (w : Sampler.World)
      (self : Sampler.DanceMoveSampler)
      (low high frame_rate frame_delay : Q) (na nb : list Q) (i : nat)
      (seg : Sampler.Segment) (st st' : Sampler.Locals) :
  active_from_catalogue w st ->
  Forall (from_catalogue w) (Sampler.pose_sequence st) ->
  Sampler.process_segment w self low high frame_rate frame_delay na nb i
                          seg st = Some st' ->
  active_from_catalogue w st'
  /\ Forall (from_catalogue w) (Sampler.pose_sequence st').
Proof.
  intros Hact Hall. destruct seg as [[[s e] a] b]. intro Hseg.
  destruct (process_segment_steps _ _ _ _ _ _ _ _ _ _ _ _ _ _ _ Hseg)
    as (intensity & st2 & [Hseq _] & Hsel & ->).
  assert (Hd : exists d, Sampler.current_dance_file st2 = Some d
                         /\ In d (Sampler.available_dances w)).
  { destruct Hsel as [(d & Hd & Hf & _)|[(Hf & _) (f & Ef)]].
    - exists d. split; [exact Hf | exact (pool_available w intensity d Hd)].
    - exists f. split; [congruence | now apply Hact]. }
  destruct Hd as (d & Hf & Hd).
  destruct (generate_frames_records w frame_rate frame_delay s intensity
              (Z.to_nat (Py.int ((e - s) * frame_rate)))
              (Sampler.set_segment_duration (e - s) st2))
    as ((G1 & _) & recs & Hrecs & _ & Hforall).
  split.
  - intros f. cbn [Sampler.add_elapsed Sampler.current_dance_file].
    rewrite G1. simpl. rewrite Hf. now intros [= <-].
  - cbn [Sampler.add_elapsed Sampler.pose_sequence]. rewrite Hrecs.
    apply Forall_app. split.
    + simpl. now rewrite Hseq.
    + eapply Forall_impl; [|exact Hforall].
      intros r [Hr1 Hr2]. simpl in Hr1. split.
      * exists d. split; [congruence | exact Hd].
      * rewrite Hr2. apply value_label.
Qed.

Lemma run_segments_catalogue (w : Sampler.World)
      (self : Sampler.DanceMoveSampler)
      (low high frame_rate frame_delay : Q) (na nb : list Q)
      (segs : list Sampler.Segment) :
  forall (i : nat) (st st' : Sampler.Locals),
    active_from_catalogue w st ->
    Forall (from_catalogue w) (Sampler.pose_sequence st) ->
    Sampler.run_segments w self low high frame_rate frame_delay na nb i
                         segs st = Some st' ->
    Forall (from_catalogue w) (Sampler.pose_sequence st').
Proof.
  induction segs as [|seg rest IH]; intros i st st' Hact Hall;
    cbn [Sampler.run_segments].
  - now intros [= <-].
  - destruct (Sampler.process_segment w self low high frame_rate
                frame_delay na nb i seg st) as [st1|] eqn:E;
      [|discriminate].
    destruct (process_segment_catalogue _ _ _ _ _ _ _ _ _ _ _ _ Hact Hall E)
      as [Hact1 Hall1].
    now apply IH.
Qed.

(** X6.  Every record a run returns names a dance file of the catalogue
    (never a missing one) and carries one of the labels low, medium and
    high. *)
Theorem records_from_catalogue (w : Sampler.World)
        (self : Sampler.DanceMoveSampler) (audio_file : string)
        (low high frame_rate frame_delay : Q) (song_duration : option Q)
        (r : Sampler.Frame.t) :
  In r (Sampler.sample_dance_moves_for_song w self audio_file low high
          frame_rate frame_delay song_duration) ->
  (exists d, Sampler.Frame.dance_file r = Some d
             /\ In d (Sampler.available_dances w))
  /\ In (Sampler.Frame.intensity r)
        ["low"%string; "medium"%string; "high"%string].
Proof.
  destruct (sample_dance_moves_cases w self audio_file low high frame_rate
              frame_delay song_duration)
    as [->|(d & na & nb & st & E & ->)]; [intros []|].
  intro Hin.
  pose proof (run_segments_catalogue w self low high frame_rate frame_delay
                na nb (Sampler.segments_data w d) 0 Sampler.initial_locals st)
    as H.
  assert (HF : Forall (from_catalogue w) (Sampler.pose_sequence st)).
  { apply H; [intros f Hf; discriminate Hf | constructor | exact E]. }
  rewrite Forall_forall in HF. exact (HF r Hin).
Qed.

Lemma records_from_catalogue_witness :
  exists r,
    nth_error
      (Sampler.sample_dance_moves_for_song
         (example_world (Sampler.Arr3 [clean_pose; clean_pose]) []
                        (fun n => n))
         example_sampler "song" (3 # 10) (7 # 10) 10 0 None) 3 = Some r
    /\ exists d, Sampler.Frame.dance_file r = Some d.
Proof.
  destruct (nth_error
              (Sampler.sample_dance_moves_for_song
                 (example_world (Sampler.Arr3 [clean_pose; clean_pose]) []
                                (fun n => n))
                 example_sampler "song" (3 # 10) (7 # 10) 10 0 None) 3)
    as [r|] eqn:E; [|vm_compute in E; discriminate E].
  exists r. split; [reflexivity|].
  destruct (records_from_catalogue _ _ _ _ _ _ _ _ r (nth_error_In _ _ E))
    as [(d & Hd & _) _].
  exists d. exact Hd.
Defined.

Lemma pool_nonempty (w : Sampler.World) (i : Sampler.DanceIntensity) :
  Sampler.available_dances w <> [] -> pool w i <> [].
Proof.
  intro H. destruct (pool_cases w i) as [[Hne ->]|[_ ->]]; assumption.
Qed.

Lemma pool_empty (w : Sampler.World) (i : Sampler.DanceIntensity) :
  Sampler.available_dances w = [] -> pool w i = [].
Proof.
  intro H. destruct (pool_cases w i) as [[Hne E]|[_ ->]]; [|exact H].
  exfalso. apply Hne. rewrite H.
  destruct (Sampler.intensity_mappings w); reflexivity.
Qed.

Lemma try_dance_some (w : Sampler.World) (i : Sampler.DanceIntensity)
      (st : Sampler.Locals) :
  pool w i <> [] -> Sampler.try_dance w i st <> None.
Proof.
  intro Hne. unfold Sampler.try_dance. rewrite choose_dance_pool.
  destruct (random_choice_some w (pool w i) st Hne) as (d & -> & _).
  repeat break_match; discriminate.
Qed.

Lemma retry_loop_some (w : Sampler.World) (i : Sampler.DanceIntensity)
      (retries : nat) (st : Sampler.Locals) :
  pool w i <> [] -> Sampler.retry_loop w i retries st <> None.
Proof.
  intro Hne. revert st. induction retries as [|r IH]; intro st; simpl;
    [discriminate|].
  pose proof (try_dance_some w i st Hne) as H.
  destruct (Sampler.try_dance w i st) as [[[] st1]|];
    [discriminate | apply IH | congruence].
Qed.

Lemma select_new_dance_some (w : Sampler.World) (i : Sampler.DanceIntensity)
      (st : Sampler.Locals) :
  pool w i <> [] -> Sampler.select_new_dance w i st <> None.
Proof.
  intro Hne. unfold Sampler.select_new_dance.
  pose proof (retry_loop_some w i Sampler.max_retries
                (Sampler.clear_current_dance st) Hne) as H.
  destruct (Sampler.retry_loop w i Sampler.max_retries _) as [st1|];
    [|congruence].
  destruct (Sampler.current_dance_file st1); [discriminate|].
  rewrite choose_dance_pool.
  destruct (random_choice_some w (pool w i) st1 Hne) as (d & -> & _).
  unfold Sampler.get_dance_duration. discriminate.
Qed.

Lemma process_segment_some (w : Sampler.World)
      (self : Sampler.DanceMoveSampler)
      (low high frame_rate frame_delay : Q) (na nb : list Q) (i : nat)
      (seg : Sampler.Segment) (st : Sampler.Locals) :
  Sampler.available_dances w <> [] ->
  Sampler.process_segment w self low high frame_rate frame_delay na nb i
                          seg st <> None.
Proof.
  intro Hne. destruct seg as [[[s e] a] b]. unfold Sampler.process_segment.
  set (intensity := Sampler.classify_intensity _ _ _).
  destruct (Sampler.need_new_dance w frame_rate intensity st) as [need st1].
  pose proof (select_new_dance_some w intensity st1
                (pool_nonempty w intensity Hne)) as H.
  destruct need; [|discriminate].
  destruct (Sampler.select_new_dance w intensity st1);
    [discriminate | congruence].
Qed.

Lemma run_segments_length (w : Sampler.World)
      (self : Sampler.DanceMoveSampler)
      (low high frame_rate frame_delay : Q) (na nb : list Q)
      (segs : list Sampler.Segment) :
  forall (i : nat) (st st' : Sampler.Locals),
    Sampler.run_segments w self low high frame_rate frame_delay na nb i
                         segs st = Some st' ->
    length (Sampler.pose_sequence st')
    = (length (Sampler.pose_sequence st)
       + frames_of_segments frame_rate segs)%nat.
Proof.
  induction segs as [|seg rest IH]; intros i st st';
    cbn [Sampler.run_segments frames_of_segments fold_right].
  - intros [= <-]. lia.
  - destruct (Sampler.process_segment w self low high frame_rate
                frame_delay na nb i seg st) as [st1|] eqn:E;
      [|discriminate].
    intro Hrun. rewrite (IH _ _ _ Hrun).
    fold (frames_of_segments frame_rate rest).
    destruct seg as [[[s e] a] b].
    destruct (process_segment_steps _ _ _ _ _ _ _ _ _ _ _ _ _ _ _ E)
      as (intensity & st2 & [Hseq _] & _ & ->).
    destruct (generate_frames_records w frame_rate frame_delay s intensity
                (Z.to_nat (Py.int ((e - s) * frame_rate)))
                (Sampler.set_segment_duration (e - s) st2))
      as (_ & recs & Hrecs & Hlen & _).
    cbn [Sampler.add_elapsed Sampler.pose_sequence]. rewrite Hrecs.
    rewrite length_app, Hlen. simpl. rewrite Hseq. lia.
Qed.

Lemma run_segments_some (w : Sampler.World)
      (self : Sampler.DanceMoveSampler)
      (low high frame_rate frame_delay : Q) (na nb : list Q)
      (segs : list Sampler.Segment) :
  Sampler.available_dances w <> [] ->
  forall (i : nat) (st : Sampler.Locals),
    Sampler.run_segments w self low high frame_rate frame_delay na nb i
                         segs st <> None.
Proof.
  intro Hne. induction segs as [|seg rest IH]; intros i st;
    cbn [Sampler.run_segments]; [discriminate|].
  pose proof (process_segment_some w self low high frame_rate frame_delay
                na nb i seg st Hne) as H.
  destruct (Sampler.process_segment _ _ _ _ _ _ _ _ _ _ st) as [st1|];
    [apply IH | congruence].
Qed.

(** X7.  With some intensity mappings, some dance file and a song that
    loads, a run never fails, and in exact arithmetic it returns
    int(duration * frame_rate) records for each of the ceil(D / 5) windows
    of the song: the number of records depends on the length of the song
    and the frame rate only.  (The code truncates the binary64 product: a
    window may give one record more or less than its exact product.) *)
Theorem run_length (w : Sampler.World) (self : Sampler.DanceMoveSampler)
        (audio_file : string) (low high frame_rate frame_delay : Q)
        (song_duration : option Q) (d : Q) :
  Sampler.intensity_mappings w <> [] ->
  Sampler.available_dances w <> [] ->
  run_duration w audio_file song_duration = Some d ->
  length (Sampler.sample_dance_moves_for_song w self audio_file low high
            frame_rate frame_delay song_duration)
  = frames_of_segments frame_rate (Sampler.segments_data w d)
  /\ length (Sampler.segments_data w d) = Z.to_nat (Qceiling (d / 5)).
Proof.
  intros Hmap Havail Hdur. split.
  - unfold Sampler.sample_dance_moves_for_song.
    destruct (Sampler.intensity_mappings w) as [|m ms]; [congruence|].
    cbn [Sampler.nonempty]. unfold run_duration in Hdur.
    destruct (Sampler.load_audio w audio_file) as [secs|]; [|discriminate].
    assert (Ed : match song_duration with
                 | Some d0 => d0
                 | None => secs
                 end = d)
      by (destruct song_duration; congruence).
    rewrite Ed.
    destruct (Sampler.normalize_features _ _) as [na nb].
    pose proof (run_segments_some w self low high frame_rate frame_delay
                  na nb (Sampler.segments_data w d) Havail 0
                  Sampler.initial_locals) as Hsome.
    destruct (Sampler.run_segments _ _ _ _ _ _ _ _ _ _ _) as [st|] eqn:E;
      [|congruence].
    now rewrite (run_segments_length _ _ _ _ _ _ _ _ _ _ _ _ E).
  - unfold Sampler.segments_data, Sampler.arange5.
    now rewrite !length_map, length_seq.
Qed.

Lemma run_length_witness :
  length (Sampler.sample_dance_moves_for_song
            (example_world (Sampler.Arr3 [clean_pose; clean_pose]) []
                           (fun n => n))
            example_sampler "song" (3 # 10) (7 # 10) 30 0 (Some 12))
  = 360%nat.
Proof.
  destruct (run_length
              (example_world (Sampler.Arr3 [clean_pose; clean_pose]) []
                             (fun n => n))
              example_sampler "song" (3 # 10) (7 # 10) 30 0 (Some 12) 12)
    as [H _].
  - discriminate.
  - discriminate.
  - reflexivity.
  - rewrite H. vm_compute. reflexivity.
Defined.

(** In binary64 the product may be rounded across an integer: a window of
    0.7 s at 30 frames per second has the product 21, although 0.7 as a
    binary64 number is less than 7/10, and gives 21 records where the
    exact product of this number gives 20; and the last window of a song
    of 12.1 s lasts [12.1 - 10.0], a little less than 2.1 s, and gives 62
    records where 2.1 s gives 63. *)
Section Binary64Frames.

Import PrimFloat.

Lemma binary64_frame_count :
  PrimFloat.eqb (Binary64.frames_product (PrimFloat.div 7 10) 30) 21 = true
  /\ Binary64.to_Q (PrimFloat.div 7 10) = Some (Py.round64 (7 # 10))
  /\ Py.int (Py.round64 (Py.round64 (7 # 10) * 30)) = 21%Z
  /\ Py.int (Py.round64 (7 # 10) * 30) = 20%Z
  /\ PrimFloat.ltb
       (Binary64.frames_product
          (PrimFloat.sub (PrimFloat.div 121 10) 10) 30) 63 = true
  /\ Py.int (Py.round64 (Py.round64 (Py.round64 (121 # 10) - 10) * 30))
     = 62%Z
  /\ Py.int (((121 # 10) - 10) * 30) = 63%Z.
Proof. repeat split; vm_compute; reflexivity. Qed.

End Binary64Frames.

(** X8.  A run returns no record at all when there are no intensity
    mappings, when the song does not load, and when there is no dance
    file. *)
Theorem run_empty (w : Sampler.World) (self : Sampler.DanceMoveSampler)
        (audio_file : string) (low high frame_rate frame_delay : Q)
        (song_duration : option Q) :
  Sampler.intensity_mappings w = []
  \/ Sampler.load_audio w audio_file = None
  \/ Sampler.available_dances w = [] ->
  Sampler.sample_dance_moves_for_song w self audio_file low high frame_rate
                                      frame_delay song_duration = [].
Proof.
  intros [H|[H|H]]; unfold Sampler.sample_dance_moves_for_song.
  - now rewrite H.
  - rewrite H. now destruct (Sampler.nonempty _).
  - destruct (Sampler.nonempty _); [|reflexivity].
    destruct (Sampler.load_audio w audio_file) as [secs|]; [|reflexivity].
    destruct (Sampler.normalize_features _ _) as [na nb].
    set (segs := Sampler.segments_data w _).
    destruct segs as [|[[[s e] a] b] rest]; [reflexivity|].
    cbn [Sampler.run_segments].
    assert (E : Sampler.process_segment w self low high frame_rate
                  frame_delay na nb 0 (s, e, a, b) Sampler.initial_locals
                = None).
    { unfold Sampler.process_segment.
      set (intensity := Sampler.classify_intensity _ _ _).
      cbn [Sampler.need_new_dance Sampler.initial_locals
           Sampler.current_dance_file].
      unfold Sampler.select_new_dance, Sampler.max_retries.
      cbn [Sampler.retry_loop]. unfold Sampler.try_dance.
      rewrite choose_dance_pool, (pool_empty w intensity H). reflexivity. }
    now rewrite E.
Qed.

Lemma run_empty_witness :
  Sampler.sample_dance_moves_for_song
    (Sampler.mkWorld [Sampler.LOW] [] (fun _ _ => None) (fun _ _ => None)
                     (fun n => n) (fun _ => Some 60) (fun _ _ => 1)
                     (fun _ _ => 120))
    example_sampler "song" (3 # 10) (7 # 10) 30 0 None = [].
Proof.
  apply run_empty. right. right. reflexivity.
Defined.

(** ** Frames are never blank when the files are sound *)

Lemma try_directions_clean (kp : Sampler.Keypoints) (df offset : Z)
      (dirs : list Z) :
  readable kp -> (0 < Sampler.num_frames kp)%Z ->
  exists res,
    Sampler.try_directions kp (Sampler.num_frames kp) df offset dirs
    = Some res
    /\ forall p, res = Some p -> Sampler.has_nan p = false.
Proof.
  intros [_ Hread] Hn. induction dirs as [|dir rest IH]; simpl.
  - exists None. split; [reflexivity | discriminate].
  - destruct (Sampler.frame_at kp
                ((df + offset * dir) mod Sampler.num_frames kp))
      as [c|] eqn:E.
    + destruct (Sampler.has_nan c) eqn:Ec; simpl; [exact IH|].
      exists (Some c). split; [reflexivity|]. now intros p [= <-].
    + exfalso. apply (Hread _ (Z.mod_pos_bound _ _ Hn) E).
Qed.

Lemma search_offsets_clean (kp : Sampler.Keypoints) (df : Z)
      (offsets : list Z) :
  readable kp -> (0 < Sampler.num_frames kp)%Z ->
  exists res,
    Sampler.search_offsets kp (Sampler.num_frames kp) df offsets = Some res
    /\ forall p, res = Some p -> Sampler.has_nan p = false.
Proof.
  intros Hread Hn. induction offsets as [|o rest IH]; cbn [Sampler.search_offsets].
  - exists None. split; [reflexivity | discriminate].
  - destruct (try_directions_clean kp df o [1; -1]%Z Hread Hn)
      as (res & -> & Hres).
    destruct res as [p|]; [|exact IH].
    exists (Some p). split; [reflexivity | exact Hres].
Qed.

Lemma load_pose_clean (w : Sampler.World) (f : string) (df : Z)
      (st : Sampler.Locals) (kp : Sampler.Keypoints) :
  Sampler.load_keypoint_file w (Sampler.io st) f = Some kp ->
  readable kp -> (0 < Sampler.num_frames kp)%Z ->
  exists p,
    snd (fst (Sampler.load_pose w f df st)) = Some p
    /\ Sampler.has_nan p = false.
Proof.
  intros Hload Hread Hn. unfold Sampler.load_pose. rewrite Hload.
  apply Z.ltb_lt in Hn as Hnb. rewrite Hnb.
  destruct Hread as [Hrank Hframes].
  destruct (Sampler.frame_at kp (df mod Sampler.num_frames kp)) as [c|] eqn:Ec;
    [|exfalso; apply (Hframes _ (Z.mod_pos_bound _ _ Hn) Ec)].
  assert (Hassigned :
            match kp with
            | Sampler.ArrOther => Some (Sampler.tick_io st)
            | _ => Some (Sampler.set_candidate_pose (Some c)
                           (Sampler.tick_io st))
            end
            = Some (Sampler.set_candidate_pose (Some c) (Sampler.tick_io st)))
    by (destruct kp; [reflexivity | reflexivity | contradiction]).
  rewrite Hassigned.
  change (Sampler.candidate_pose
            (Sampler.set_candidate_pose (Some c) (Sampler.tick_io st)))
    with (Some c).
  cbv beta iota.
  destruct (Sampler.has_nan c) eqn:Hc; cbn [negb].
  - unfold Sampler.find_clean_frame.
    destruct (search_offsets_clean kp (df mod Sampler.num_frames kp)
                (Sampler.range1 (Z.min 50 (Sampler.num_frames kp)))
                (conj Hrank Hframes) Hn) as (res & -> & Hres).
    destruct res as [p|]; cbn [fst snd].
    + exists p. split; [reflexivity | now apply Hres].
    + exists Sampler.default_pose. split; reflexivity.
  - exists c. split; [reflexivity | exact Hc].
Qed.

Lemma emit_frame_posed (w : Sampler.World) (frame_rate frame_delay start : Q)
      (intensity : Sampler.DanceIntensity) (st : Sampler.Locals) (idx : nat)
      (f : string) :
  well_stocked w ->
  Sampler.current_dance_file st = Some f ->
  In f (Sampler.available_dances w) ->
  exists r,
    Sampler.pose_sequence
      (Sampler.emit_frame w frame_rate frame_delay start intensity st idx)
    = Sampler.pose_sequence st ++ [r]
    /\ posed r.
Proof.
  intros Hw Hf Hin. destruct (Hw f Hin) as [Hname Hload].
  destruct (Hload (Sampler.io st)) as (kp & Hkp & Hread & Hn).
  unfold Sampler.emit_frame. rewrite Hf.
  assert (Ht : Py.truthy f = true) by (destruct f; [congruence | reflexivity]).
  rewrite Ht.
  set (raw := (Py.int (Sampler.current_dance_elapsed st * frame_rate)
               + Z.of_nat idx)%Z).
  destruct (load_pose_clean w f raw st kp Hkp Hread Hn) as (p & Hp & Hclean).
  pose proof (load_pose_output w f raw st) as [[Hseq _] _].
  destruct (Sampler.load_pose w f raw st) as [[df pd] st1].
  cbn [fst snd] in Hp, Hseq. subst pd.
  eexists. split.
  - cbn [Sampler.append_frame Sampler.pose_sequence]. rewrite Hseq.
    reflexivity.
  - exists p. split; [reflexivity | exact Hclean].
Qed.

Lemma generate_frames_posed (w : Sampler.World)
      (frame_rate frame_delay start : Q) (intensity : Sampler.DanceIntensity)
      (total : nat) (st : Sampler.Locals) (f : string) :
  well_stocked w ->
  Sampler.current_dance_file st = Some f ->
  In f (Sampler.available_dances w) ->
  Forall posed (Sampler.pose_sequence st) ->
  Forall posed
    (Sampler.pose_sequence
       (Sampler.generate_frames w frame_rate frame_delay start intensity
                                total st)).
Proof.
  intros Hw Hf Hin Hall.
  apply (generate_frames_invariant w frame_rate frame_delay start intensity
           (fun _ s =>
              Sampler.current_dance_file s = Some f
              /\ Forall posed (Sampler.pose_sequence s))); [|now split].
  intros idx s _ [Hs Hposed]. split.
  - destruct (emit_frame_dance w frame_rate frame_delay start intensity s idx)
      as [H _].
    congruence.
  - destruct (emit_frame_posed w frame_rate frame_delay start intensity s idx
                f Hw Hs Hin) as (r & -> & Hr).
    apply Forall_app. split; [exact Hposed | now constructor].
Qed.

Lemma process_segment_posed (w : Sampler.World)
      (self : Sampler.DanceMoveSampler)
      (low high frame_rate frame_delay : Q) (na nb : list Q) (i : nat)
      (seg : Sampler.Segment) (st st' : Sampler.Locals) :
  well_stocked w ->
  active_from_catalogue w st ->
  Forall posed (Sampler.pose_sequence st) ->
  Sampler.process_segment w self low high frame_rate frame_delay na nb i
                          seg st = Some st' ->
  Forall posed (Sampler.pose_sequence st').
Proof.
  intros Hw Hact Hall. destruct seg as [[[s e] a] b]. intro Hseg.
  destruct (process_segment_steps _ _ _ _ _ _ _ _ _ _ _ _ _ _ _ Hseg)
    as (intensity & st2 & [Hseq _] & Hsel & ->).
  assert (Hd : exists d, Sampler.current_dance_file st2 = Some d
                         /\ In d (Sampler.available_dances w)).
  { destruct Hsel as [(d & Hd & Hf & _)|[(Hf & _) (f & Ef)]].
    - exists d. split; [exact Hf | exact (pool_available w intensity d Hd)].
    - exists f. split; [congruence | now apply Hact]. }
  destruct Hd as (d & Hf & Hd).
  cbn [Sampler.add_elapsed Sampler.pose_sequence].
  apply (generate_frames_posed w frame_rate frame_delay s intensity _ _ d Hw);
    [exact Hf | exact Hd |].
  simpl. now rewrite Hseq.
Qed.

Lemma run_segments_posed (w : Sampler.World)
      (self : Sampler.DanceMoveSampler)
      (low high frame_rate frame_delay : Q) (na nb : list Q)
      (segs : list Sampler.Segment) :
  well_stocked w ->
  forall (i : nat) (st st' : Sampler.Locals),
    active_from_catalogue w st ->
    Forall (from_catalogue w) (Sampler.pose_sequence st) ->
    Forall posed (Sampler.pose_sequence st) ->
    Sampler.run_segments w self low high frame_rate frame_delay na nb i
                         segs st = Some st' ->
    Forall posed (Sampler.pose_sequence st').
Proof.
  intro Hw. induction segs as [|seg rest IH];
    intros i st st' Hact Hcat Hall; cbn [Sampler.run_segments].
  - now intros [= <-].
  - destruct (Sampler.process_segment w self low high frame_rate
                frame_delay na nb i seg st) as [st1|] eqn:E;
      [|discriminate].
    destruct (process_segment_catalogue _ _ _ _ _ _ _ _ _ _ _ _ Hact Hcat E)
      as [Hact1 Hcat1].
    apply IH; try assumption.
    exact (process_segment_posed _ _ _ _ _ _ _ _ _ _ _ _ Hw Hact Hall E).
Qed.

(** X9.  When every dance file of the catalogue has a name and loads, at
    every call, as an array of rank 3 or 4 with at least one frame, all of
    them readable, no record of a run is left without a pose, and no pose
    of a record holds a NaN: a frame with NaN is replaced by a clean frame
    nearby or by the default pose. *)
Theorem records_never_blank (w : Sampler.World)
        (self : Sampler.DanceMoveSampler) (audio_file : string)
        (low high frame_rate frame_delay : Q) (song_duration : option Q)
        (r : Sampler.Frame.t) :
  well_stocked w ->
  In r (Sampler.sample_dance_moves_for_song w self audio_file low high
          frame_rate frame_delay song_duration) ->
  exists p, Sampler.Frame.pose_data r = Some p /\ Sampler.has_nan p = false.
Proof.
  intro Hw.
  destruct (sample_dance_moves_cases w self audio_file low high frame_rate
              frame_delay song_duration)
    as [->|(d & na & nb & st & E & ->)]; [intros []|].
  intro Hin.
  assert (HF : Forall posed (Sampler.pose_sequence st)).
  { apply (run_segments_posed w self low high frame_rate frame_delay na nb
             (Sampler.segments_data w d) Hw 0 Sampler.initial_locals st);
      [intros f Hf; discriminate Hf | constructor | constructor | exact E]. }
  rewrite Forall_forall in HF. exact (HF r Hin).
Qed.

Lemma example_world_well_stocked (kp : Sampler.Keypoints)
      (draw : nat -> nat) :
  readable kp -> (0 < Sampler.num_frames kp)%Z ->
  well_stocked (example_world kp [] draw).
Proof.
  intros Hread Hn f Hin. split.
  - destruct Hin as [<-|[<-|[]]]; discriminate.
  - intro call. exists kp. split; [reflexivity | now split].
Qed.

Lemma readable_Arr3 (frames : list Sampler.Pose) :
  readable (Sampler.Arr3 frames).
Proof.
  split; [discriminate|]. intros i Hi. simpl in *.
  apply nth_error_Some. lia.
Qed.

Lemma records_never_blank_witness :
  exists r p,
    nth_error
      (Sampler.sample_dance_moves_for_song
         (example_world (Sampler.Arr3 [nan_pose; nan_pose]) []
                        (fun n => n))
         example_sampler "song" (3 # 10) (7 # 10) 10 0 None) 3 = Some r
    /\ Sampler.Frame.pose_data r = Some p /\ Sampler.has_nan p = false.
Proof.
  destruct (nth_error
              (Sampler.sample_dance_moves_for_song
                 (example_world (Sampler.Arr3 [nan_pose; nan_pose]) []
                                (fun n => n))
                 example_sampler "song" (3 # 10) (7 # 10) 10 0 None) 3)
    as [r|] eqn:E; [|vm_compute in E; discriminate E].
  destruct (records_never_blank _ _ _ _ _ _ _ _ r
              (example_world_well_stocked _ _
                 (readable_Arr3 [nan_pose; nan_pose]) eq_refl)
              (nth_error_In _ _ E))
    as (p & Hp & Hclean).
  exists r, p. split; [reflexivity | split; assumption].
Defined.

(** ** The scores of one pose *)

Lemma unit_consistency (x : Q) :
  0 <= x -> unit_interval (Py.max2 (1 - Py.min2 x 1) 0).
Proof.
  intro Hx. unfold unit_interval.
  destruct (min2_cases x 1) as [[H1 E1]|[H1 E1]]; rewrite E1;
    match goal with
    | |- context [Py.max2 ?a ?b] =>
        destruct (max2_cases a b) as [[H2 E2]|[H2 E2]]; rewrite E2
    end; lra.
Qed.

Lemma clip_unit (x : Q) : unit_interval (Py.clip x 0 1).
Proof.
  unfold unit_interval, Py.clip.
  destruct (max2_cases x 0) as [[H1 E1]|[H1 E1]]; rewrite E1;
    match goal with
    | |- context [Py.min2 ?a ?b] =>
        destruct (min2_cases a b) as [[H2 E2]|[H2 E2]]; rewrite E2
    end; lra.
Qed.

Lemma Qdiv_nonneg (a b : Q) : 0 <= a -> 0 <= b -> 0 <= a / b.
Proof.
  intros Ha Hb. unfold Qdiv. apply Qmult_le_0_compat; [exact Ha|].
  now apply Qinv_le_0_compat.
Qed.

Lemma sumQ_nonneg (xs : list Q) :
  Forall (fun x => 0 <= x) xs -> 0 <= Py.sumQ xs.
Proof.
  induction 1 as [|x xs Hx _ IH]; simpl; [lra|]. lra.
Qed.

Lemma lenQ_nonneg {A} (xs : list A) : 0 <= Py.lenQ xs.
Proof.
  unfold Py.lenQ. change 0 with (inject_Z 0). rewrite <- Zle_Qle. lia.
Qed.

Lemma mean_nonneg (xs : list Q) :
  Forall (fun x => 0 <= x) xs -> 0 <= Py.mean xs.
Proof.
  intro H. apply Qdiv_nonneg; [now apply sumQ_nonneg | apply lenQ_nonneg].
Qed.

Lemma velocities_cons `{Scorer.Numpy} (a b : Scorer.Pose)
      (rest : list Scorer.Pose) :
  Scorer.velocities (a :: b :: rest)
  = match Scorer.zip_poses Qminus b a, Scorer.velocities (b :: rest) with
    | Some d, Some vs => Some (Scorer.norm (Scorer.flatten d) :: vs)
    | _, _ => None
    end.
Proof. reflexivity. Qed.

Lemma velocities_nonneg `{Scorer.Numpy} :
  (forall q, 0 <= Scorer.np_sqrt q) ->
  forall ps vs, Scorer.velocities ps = Some vs ->
                Forall (fun v => 0 <= v) vs.
Proof.
  intro Hs. induction ps as [|a rest IH]; intro vs.
  - intros [= <-]. constructor.
  - destruct rest as [|b rest'].
    + intros [= <-]. constructor.
    + rewrite velocities_cons.
      destruct (Scorer.zip_poses Qminus b a); [|discriminate].
      destruct (Scorer.velocities (b :: rest')) as [vs'|]; [|discriminate].
      intros [= <-]. constructor; [apply Hs | now apply IH].
Qed.

Lemma compute_timing_score_unit `{Scorer.Numpy}
      (self : Scorer.RealTimePoseScorer) :
  (forall q, 0 <= Scorer.np_sqrt q) ->
  unit_interval (Scorer.compute_timing_score self).
Proof.
  intro Hs. unfold Scorer.compute_timing_score.
  destruct (length (Scorer.user_timestamps self) <? 2)%nat;
    [unfold unit_interval; lra|].
  destruct (Sampler.nonempty _); [|unfold unit_interval; lra].
  apply unit_consistency.
  apply Qdiv_nonneg; [apply Hs | apply Qdiv_nonneg; lra].
Qed.

Lemma compute_rhythm_score_unit `{Scorer.Numpy}
      (self : Scorer.RealTimePoseScorer) (r : Q) :
  (forall q, 0 <= Scorer.np_sqrt q) ->
  Scorer.compute_rhythm_score self = Some r -> unit_interval r.
Proof.
  intro Hs. unfold Scorer.compute_rhythm_score.
  destruct (length (Scorer.user_poses self) <? 3)%nat;
    [intros [= <-]; unfold unit_interval; lra|].
  destruct (Scorer.velocities (Scorer.user_poses self)) as [uv|] eqn:Euv;
    [|discriminate].
  pose proof (velocities_nonneg Hs _ _ Euv) as Hnn. clear Euv.
  set (fallback := if (2 <=? length uv)%nat then _ else 1 # 2).
  assert (Hfb : unit_interval fallback).
  { unfold fallback. destruct (2 <=? length uv)%nat;
      [|unfold unit_interval; lra].
    apply unit_consistency. apply Qdiv_nonneg; [apply Hs|].
    pose proof (mean_nonneg uv Hnn). lra. }
  destruct (2 <=? length (Scorer.reference_poses self))%nat;
    [|now intros [= <-]].
  destruct (Scorer.velocities _) as [rv|]; [|discriminate].
  destruct ((3 <=? length uv)%nat && (3 <=? length rv)%nat);
    [|now intros [= <-]].
  destruct (Py.Qlt_bool 0 _ && Py.Qlt_bool 0 _); [|now intros [= <-]].
  destruct (Scorer.corrcoef _ _); intros [= <-];
    [apply clip_unit | | |]; unfold unit_interval; lra.
Qed.

Lemma compute_frame_score_fin `{Scorer.Numpy}
      (self : Scorer.RealTimePoseScorer) (d : Q) :
  exists q, Scorer.compute_frame_score self (Fin d) = Fin q
            /\ unit_interval q.
Proof.
  eexists. split; [reflexivity | apply clip_unit].
Qed.

Lemma compute_frame_score_pinf `{Scorer.Numpy}
      (self : Scorer.RealTimePoseScorer) :
  (0 < Scorer.alpha self /\ Scorer.compute_frame_score self PInf = Fin 0)
  \/ (Scorer.alpha self < 0
      /\ Scorer.compute_frame_score self PInf = Fin 1)
  \/ (Scorer.alpha self == 0
      /\ Scorer.compute_frame_score self PInf = NaN).
Proof.
  unfold Scorer.compute_frame_score, Scorer.xscale.
  destruct (Py.Qlt_bool 0 (- Scorer.alpha self)) eqn:E1.
  - apply Qlt_bool_iff in E1. right. left. split; [lra | reflexivity].
  - apply Qlt_bool_false_iff in E1.
    destruct (Py.Qlt_bool (- Scorer.alpha self) 0) eqn:E2.
    + apply Qlt_bool_iff in E2. left. split; [lra | reflexivity].
    + apply Qlt_bool_false_iff in E2. right. right.
      split; [lra | reflexivity].
Qed.

Lemma same_setup_refl (s : Scorer.RealTimePoseScorer) : same_setup s s.
Proof. repeat split. Qed.

Lemma same_setup_trans (s1 s2 s3 : Scorer.RealTimePoseScorer) :
  same_setup s1 s2 -> same_setup s2 s3 -> same_setup s1 s3.
Proof.
  unfold same_setup.
  intros (A1 & A2 & A3 & A4 & A5 & A6 & A7 & A8)
         (B1 & B2 & B3 & B4 & B5 & B6 & B7 & B8).
  repeat split; congruence.
Qed.

Lemma smooth_pose_setup (pose smoothed : Scorer.Pose)
      (self self' : Scorer.RealTimePoseScorer) :
  Scorer.smooth_pose pose self = Some (smoothed, self') ->
  same_setup self self'
  /\ Scorer.user_poses self' = Scorer.user_poses self
  /\ Scorer.user_timestamps self' = Scorer.user_timestamps self
  /\ Scorer.pose_scores self' = Scorer.pose_scores self
  /\ Scorer.start_time self' = Scorer.start_time self
  /\ Scorer.pose_history self'
     = Scorer.deque_append 5 (Scorer.pose_history self) smoothed.
Proof.
  unfold Scorer.smooth_pose.
  destruct (Scorer.pose_history self) as [|h t] eqn:Eh.
  - intros [= <- <-]. repeat split.
  - destruct (Scorer.zip_poses _ _ _) as [sm|]; [|discriminate].
    intros [= <- <-]. repeat split.
Qed.

Lemma find_best_reference_match_setup `{Scorer.Numpy}
      (user_pose : Scorer.Pose) (t : Q) (i : Z) (dist : xfloat)
      (self self' : Scorer.RealTimePoseScorer) :
  Scorer.find_best_reference_match user_pose t self = Some (i, dist, self') ->
  same_setup self self'
  /\ Scorer.user_poses self' = Scorer.user_poses self
  /\ Scorer.user_timestamps self' = Scorer.user_timestamps self
  /\ Scorer.pose_scores self' = Scorer.pose_scores self
  /\ Scorer.pose_history self' = Scorer.pose_history self
  /\ ((Scorer.reference_poses self = [] /\ dist = PInf /\ self' = self)
      \/ (Scorer.reference_poses self <> [] /\ exists d, dist = Fin d)).
Proof.
  unfold Scorer.find_best_reference_match.
  destruct (Scorer.reference_poses self) as [|ref0 refs] eqn:Er.
  - intros [= <- <- <-]. repeat split. left. repeat split.
  - destruct (Scorer.start_time self) as [s|];
      (destruct (Scorer.reference_index _ _ _) as [m|]; [|discriminate]);
      (destruct (Scorer.compute_pose_distance _ _) as [d|]; [|discriminate]);
      intros [= <- <- <-];
      (repeat split; try assumption);
      right; (split; [discriminate | now exists d]).
Qed.

Lemma length_deque_append {A} (m : nat) (xs : list A) (x : A) :
  length (Scorer.deque_append m xs x) = Nat.min m (S (length xs)).
Proof.
  unfold Scorer.deque_append. rewrite length_skipn, length_app. simpl. lia.
Qed.

Lemma find_best_reference_match_start `{Scorer.Numpy}
      (user_pose : Scorer.Pose) (t : Q) (i : Z) (dist : xfloat)
      (self self' : Scorer.RealTimePoseScorer) :
  Scorer.find_best_reference_match user_pose t self = Some (i, dist, self') ->
  Scorer.start_time self'
  = match Scorer.reference_poses self with
    | [] => Scorer.start_time self
    | _ => Some (match Scorer.start_time self with
                 | Some s => s
                 | None => t
                 end)
    end.
Proof.
  unfold Scorer.find_best_reference_match.
  destruct (Scorer.reference_poses self) as [|ref0 refs] eqn:Er.
  - now intros [= <- <- <-].
  - destruct (Scorer.start_time self) as [s|] eqn:Es;
      (destruct (Scorer.reference_index _ _ _) as [m|]; [|discriminate]);
      (destruct (Scorer.compute_pose_distance _ _) as [d|]; [|discriminate]);
      intros [= <- <- <-]; [exact Es | reflexivity].
Qed.

(** The steps of a call of [score_pose] that returns. *)
Lemma score_pose_steps `{Scorer.Numpy} (user_pose : Scorer.ndarray)
      (timestamp : option Q) (clock : Q)
      (self self' : Scorer.RealTimePoseScorer) (ps : Scorer.PoseScore) :
  Scorer.score_pose user_pose timestamp clock self = Some (ps, self') ->
  let t := match timestamp with None => clock | Some t0 => t0 end in
  exists normalized smoothed self1 i dist self3,
    Scorer.normalize_pose user_pose = Some normalized
    /\ Scorer.smooth_pose normalized self = Some (smoothed, self1)
    /\ Scorer.find_best_reference_match
         smoothed t (Scorer.record_user_pose smoothed t self1)
       = Some (i, dist, self3)
    /\ Scorer.compute_rhythm_score self3 = Some (Scorer.rhythm_score ps)
    /\ ps = Scorer.mkPoseScore (Scorer.compute_frame_score self3 dist)
                               (Scorer.compute_timing_score self3)
                               (Scorer.rhythm_score ps)
                               (Scorer.compute_frame_score self3 dist) t
    /\ self' = Scorer.record_pose_score ps self3.
Proof.
  intros Hs t. unfold Scorer.score_pose in Hs. fold t in Hs.
  destruct (Scorer.normalize_pose user_pose) as [normalized|] eqn:En;
    [|discriminate].
  destruct (Scorer.smooth_pose normalized self) as [[smoothed self1]|]
    eqn:Esm; [|discriminate].
  destruct (Scorer.find_best_reference_match smoothed t _)
    as [[[i dist] self3]|] eqn:Ef; [|discriminate].
  destruct (Scorer.compute_rhythm_score self3) as [r|] eqn:Er;
    [|discriminate].
  injection Hs as <- <-.
  exists normalized, smoothed, self1, i, dist, self3.
  repeat split; assumption.
Qed.

(** A score [score_pose] returns has its components in [0, 1], unless
    the reference is empty and [alpha] is 0. *)
Lemma score_pose_unit `{Scorer.Numpy} (user_pose : Scorer.ndarray)
      (timestamp : option Q) (clock : Q)
      (self self' : Scorer.RealTimePoseScorer) (ps : Scorer.PoseScore) :
  (forall q, 0 <= Scorer.np_sqrt q) ->
  Scorer.reference_poses self <> [] \/ ~ Scorer.alpha self == 0 ->
  Scorer.score_pose user_pose timestamp clock self = Some (ps, self') ->
  unit_pose_score ps.
Proof.
  intros Hsqrt Hfin Hs.
  destruct (score_pose_steps _ _ _ _ _ _ Hs)
    as (normalized & smoothed & self1 & i & dist & self3
        & _ & Hsm & Hfind & Hr & Hps & _).
  destruct (smooth_pose_setup _ _ _ _ Hsm) as [S1 _].
  destruct (find_best_reference_match_setup _ _ _ _ _ _ Hfind)
    as (S3 & _ & _ & _ & _ & Hdist).
  assert (Halpha : Scorer.alpha self3 = Scorer.alpha self).
  { destruct S1 as (_ & _ & _ & A1 & _).
    destruct S3 as (_ & _ & _ & A3 & _). simpl in A3. congruence. }
  assert (Hrefs : Scorer.reference_poses self1 = Scorer.reference_poses self).
  { now destruct S1 as (_ & _ & _ & _ & _ & _ & A1 & _). }
  split; [|split].
  - rewrite Hps. cbn [Scorer.spatial_score Scorer.frame_score].
    destruct Hdist as [(He & -> & _)|(_ & d & ->)].
    + simpl in He. rewrite Hrefs in He.
      destruct (compute_frame_score_pinf self3) as [[_ E]|[[_ E]|[Ha E]]].
      * exists 0. rewrite E. repeat split; unfold unit_interval; lra.
      * exists 1. rewrite E. repeat split; unfold unit_interval; lra.
      * exfalso. rewrite Halpha in Ha.
        destruct Hfin as [Hfin|Hfin]; [exact (Hfin He) | exact (Hfin Ha)].
    + destruct (compute_frame_score_fin self3 d) as (q & E & Hq).
      exists q. now rewrite E.
  - rewrite Hps. apply (compute_timing_score_unit self3 Hsqrt).
  - exact (compute_rhythm_score_unit self3 _ Hsqrt Hr).
Qed.

(** X10.  For poses, of the user and of the reference, whose coordinates
    are finite numbers, and in exact arithmetic: whatever [np.sqrt]
    computes, as long as it is never negative, every score [score_pose]
    returns has its timing and its rhythm component in [0, 1] and equal
    spatial and frame components, which are a number of [0, 1] too,
    except in a session without reference poses whose [alpha] is 0,
    where they are NaN.  (A coordinate that is NaN goes through the
    normalization, the distance and the clipping, and the scores are NaN
    then: the poses here have no such coordinate.) *)
Theorem score_pose_unit_scores `{Scorer.Numpy} (user_pose : Scorer.ndarray)
        (timestamp : option Q) (clock : Q)
        (self self' : Scorer.RealTimePoseScorer) (ps : Scorer.PoseScore) :
  (forall q, 0 <= Scorer.np_sqrt q) ->
  Scorer.score_pose user_pose timestamp clock self = Some (ps, self') ->
  0 <= Scorer.timing_score ps <= 1
  /\ 0 <= Scorer.rhythm_score ps <= 1
  /\ Scorer.spatial_score ps = Scorer.frame_score ps
  /\ ((exists q, Scorer.frame_score ps = Fin q /\ 0 <= q <= 1)
      \/ (Scorer.frame_score ps = NaN
          /\ Scorer.reference_poses self = []
          /\ Scorer.alpha self == 0)).
Proof.
  intros Hsqrt Hs.
  destruct (score_pose_steps _ _ _ _ _ _ Hs)
    as (normalized & smoothed & self1 & i & dist & self3
        & _ & Hsm & Hfind & Hr & Hps & _).
  destruct (smooth_pose_setup _ _ _ _ Hsm) as [S1 _].
  destruct (find_best_reference_match_setup _ _ _ _ _ _ Hfind)
    as (S3 & _ & _ & _ & _ & Hdist).
  assert (Halpha : Scorer.alpha self3 = Scorer.alpha self).
  { destruct S1 as (_ & _ & _ & A1 & _).
    destruct S3 as (_ & _ & _ & A3 & _). simpl in A3. congruence. }
  assert (Hrefs : Scorer.reference_poses self1 = Scorer.reference_poses self).
  { now destruct S1 as (_ & _ & _ & _ & _ & _ & A1 & _). }
  split; [|split; [|split]].
  - rewrite Hps. apply (compute_timing_score_unit self3 Hsqrt).
  - exact (compute_rhythm_score_unit self3 _ Hsqrt Hr).
  - now rewrite Hps.
  - rewrite Hps. cbn [Scorer.frame_score].
    destruct Hdist as [(He & -> & _)|(_ & d & ->)].
    + simpl in He. rewrite Hrefs in He.
      destruct (compute_frame_score_pinf self3) as [[_ E]|[[_ E]|[Ha E]]];
        rewrite E.
      * left. exists 0. split; [reflexivity | lra].
      * left. exists 1. split; [reflexivity | lra].
      * right. rewrite <- Halpha. now repeat split.
    + left. destruct (compute_frame_score_fin self3 d) as (q & -> & Hq).
      now exists q.
Qed.

Lemma babylonian_pos (k : nat) (q : Q) :
  0 < q -> forall x, 0 < x -> 0 < babylonian k q x.
Proof.
  intro Hq. induction k as [|k IH]; intros x Hx; simpl; [exact Hx|].
  apply IH.
  pose proof (Qred_correct ((x + q / x) / 2)) as E. rewrite E. clear E.
  assert (0 < q / x) by (apply Qlt_shift_div_l; lra).
  apply Qlt_shift_div_l; lra.
Qed.

Lemma rational_sqrt_nonneg (q : Q) :
  0 <= @Scorer.np_sqrt rational_numpy q.
Proof.
  change (0 <= (if Qle_bool q 0 then 0 else babylonian 6 q 1)).
  destruct (Qle_bool q 0) eqn:E; [lra|].
  apply Qlt_le_weak, babylonian_pos; [|lra].
  now apply Qle_bool_false_iff.
Qed.

Lemma score_pose_unit_scores_witness :
  exists ps self',
    @Scorer.score_pose rational_numpy (Scorer.Arr2 [[1; 2]; [2; 4]])
                       (Some (1 # 2)) 0 example_session = Some (ps, self')
    /\ 0 <= Scorer.rhythm_score ps <= 1.
Proof.
  destruct (@Scorer.score_pose rational_numpy (Scorer.Arr2 [[1; 2]; [2; 4]])
                               (Some (1 # 2)) 0 example_session)
    as [[ps self']|] eqn:E; [|vm_compute in E; discriminate E].
  exists ps, self'. split; [reflexivity|].
  exact (proj1 (proj2 (@score_pose_unit_scores rational_numpy _ _ _ _ _ _
                         rational_sqrt_nonneg E))).
Defined.

(** X11.  A call of [score_pose] that returns leaves the configuration and
    the reference as they were, adds one item to each of the three bounded
    histories (so none ever holds more than [max_history] items, and the
    poses and their timestamps stay paired), keeps at most five smoothed
    poses, and, on a non-empty reference, fixes the start of the session
    at the first timestamp scored. *)
Theorem score_pose_bookkeeping `{Scorer.Numpy} (user_pose : Scorer.ndarray)
        (timestamp : option Q) (clock : Q)
        (self self' : Scorer.RealTimePoseScorer) (ps : Scorer.PoseScore) :
  Scorer.score_pose user_pose timestamp clock self = Some (ps, self') ->
  let t := match timestamp with None => clock | Some t0 => t0 end in
  let m := Scorer.max_history self in
  same_setup self self'
  /\ length (Scorer.user_poses self')
     = Nat.min m (S (length (Scorer.user_poses self)))
  /\ Scorer.user_timestamps self'
     = Scorer.deque_append m (Scorer.user_timestamps self) t
  /\ length (Scorer.user_timestamps self')
     = Nat.min m (S (length (Scorer.user_timestamps self)))
  /\ Scorer.pose_scores self'
     = Scorer.deque_append m (Scorer.pose_scores self) ps
  /\ length (Scorer.pose_scores self')
     = Nat.min m (S (length (Scorer.pose_scores self)))
  /\ length (Scorer.pose_history self')
     = Nat.min 5 (S (length (Scorer.pose_history self)))
  /\ Scorer.timestamp ps = t
  /\ Scorer.start_time self'
     = match Scorer.reference_poses self with
       | [] => Scorer.start_time self
       | _ => Some (match Scorer.start_time self with
                    | Some s => s
                    | None => t
                    end)
       end.
Proof.
  intros Hs t m.
  destruct (score_pose_steps _ _ _ _ _ _ Hs)
    as (normalized & smoothed & self1 & i & dist & self3
        & _ & Hsm & Hfind & _ & Hps & ->).
  fold t in Hfind, Hps.
  destruct (smooth_pose_setup _ _ _ _ Hsm)
    as (S1 & U1 & T1 & P1 & St1 & H1).
  destruct (find_best_reference_match_setup _ _ _ _ _ _ Hfind)
    as (S3 & U3 & T3 & P3 & H3 & _).
  pose proof (find_best_reference_match_start _ _ _ _ _ _ Hfind) as St3.
  simpl in U3, T3, P3, H3, St3.
  assert (S2 : same_setup self1 (Scorer.record_user_pose smoothed t self1))
    by (repeat split).
  pose proof (same_setup_trans _ _ _ S1 (same_setup_trans _ _ _ S2 S3))
    as S13.
  assert (Hm : Scorer.max_history self3 = m) by apply S13.
  assert (Hm1 : Scorer.max_history self1 = m) by apply S1.
  assert (Hrefs : Scorer.reference_poses self1 = Scorer.reference_poses self)
    by apply S1.
  cbn [Scorer.record_pose_score Scorer.user_poses Scorer.user_timestamps
       Scorer.pose_scores Scorer.pose_history Scorer.start_time].
  split; [|split; [|split; [|split; [|split; [|split; [|split; [|split]]]]]]].
  - eapply same_setup_trans; [exact S13 | repeat split].
  - rewrite U3, length_deque_append, U1, Hm1. reflexivity.
  - rewrite T3, T1, Hm1. reflexivity.
  - rewrite T3, length_deque_append, T1, Hm1. reflexivity.
  - rewrite Hm, P3, P1. reflexivity.
  - rewrite length_deque_append, Hm, P3, P1. reflexivity.
  - rewrite H3, H1, length_deque_append. reflexivity.
  - now rewrite Hps.
  - rewrite St3, Hrefs, St1. reflexivity.
Qed.

Lemma score_pose_bookkeeping_witness :
  exists ps self',
    @Scorer.score_pose rational_numpy (Scorer.Arr2 [[1; 2]; [2; 4]])
                       (Some (1 # 2)) 0 example_session = Some (ps, self')
    /\ length (Scorer.pose_scores self') = 1%nat.
Proof.
  destruct (@Scorer.score_pose rational_numpy (Scorer.Arr2 [[1; 2]; [2; 4]])
                               (Some (1 # 2)) 0 example_session)
    as [[ps self']|] eqn:E; [|vm_compute in E; discriminate E].
  exists ps, self'. split; [reflexivity|].
  destruct (@score_pose_bookkeeping rational_numpy _ _ _ _ _ _ E)
    as (_ & _ & _ & _ & _ & Hlen & _).
  exact Hlen.
Defined.

(** ** Smoothing *)

Lemma zip_rows_nth (f : Q -> Q -> Q) (xs ys r : list Q) :
  Scorer.zip_rows f xs ys = Some r ->
  length r = length xs
  /\ forall j x y, nth_error xs j = Some x -> nth_error ys j = Some y ->
                   nth_error r j = Some (f x y).
Proof.
  revert ys r. induction xs as [|x0 xs IH]; intros [|y0 ys] r; simpl;
    try discriminate.
  - intros [= <-]. split; [reflexivity|]. intros [|j] x y; discriminate.
  - destruct (Scorer.zip_rows f xs ys) as [r'|] eqn:E; [|discriminate].
    intros [= <-]. destruct (IH ys r' E) as [Hl Hn].
    split; [simpl; congruence|].
    intros [|j] x y; simpl; [congruence | apply Hn].
Qed.

Lemma zip_poses_coord (f : Q -> Q -> Q) (N C : nat) (p q r : Scorer.Pose) :
  shape N C p -> shape N C q ->
  Scorer.zip_poses f p q = Some r ->
  shape N C r
  /\ forall i j x y, coord p i j = Some x -> coord q i j = Some y ->
                     coord r i j = Some (f x y).
Proof.
  intros Hp Hq E.
  destruct (zip_poses_shape f N C p q Hp Hq) as (r' & E' & Hr').
  assert (Er : r' = r) by congruence. subst r'. split; [exact Hr'|].
  rewrite zip_poses_same in E by (destruct Hp, Hq; congruence).
  clear E' Hr'. destruct Hp as [_ Hp]. destruct Hq as [_ Hq].
  unfold rect in Hp, Hq.
  revert q r Hq E. induction p as [|r1 p IH]; intros [|r2 q] r Hq; simpl;
    try discriminate.
  - intros [= <-]. intros [|i] j x y; discriminate.
  - inversion Hp as [|? ? Hr1 Hp']; inversion Hq as [|? ? Hr2 Hq']; subst.
    rewrite broadcast_rows_same by congruence.
    destruct (Scorer.zip_rows f r1 r2) as [row|] eqn:Er; [|discriminate].
    destruct (Scorer.zip_same f p q) as [rest|] eqn:E; [|discriminate].
    intros [= <-]. intros [|i] j x y; unfold coord; simpl.
    + now apply (zip_rows_nth f r1 r2 row Er).
    + now apply (IH Hp' q rest Hq' E).
Qed.

Lemma convex_between (f x y : Q) :
  0 <= f <= 1 ->
  Py.min2 x y <= f * x + (1 - f) * y <= Py.max2 x y.
Proof.
  intros [H0 H1].
  assert (E : f * x + (1 - f) * y == y + f * (x - y)) by ring.
  rewrite E. clear E.
  destruct (Qlt_le_dec x y) as [Hxy|Hxy].
  - assert (A : 0 <= f * (y - x)) by (apply Qmult_le_0_compat; lra).
    assert (B : 0 <= (1 - f) * (y - x)) by (apply Qmult_le_0_compat; lra).
    assert (Ea : f * (y - x) == - (f * (x - y))) by ring.
    assert (Eb : (1 - f) * (y - x) == (y - x) + f * (x - y)) by ring.
    rewrite Ea in A. rewrite Eb in B. clear Ea Eb.
    destruct (min2_cases x y) as [[? ->]|[? ->]];
      destruct (max2_cases x y) as [[? ->]|[? ->]]; lra.
  - assert (A : 0 <= f * (x - y)) by (apply Qmult_le_0_compat; lra).
    assert (B : 0 <= (1 - f) * (x - y)) by (apply Qmult_le_0_compat; lra).
    assert (Eb : (1 - f) * (x - y) == (x - y) - f * (x - y)) by ring.
    rewrite Eb in B. clear Eb.
    destruct (min2_cases x y) as [[? ->]|[? ->]];
      destruct (max2_cases x y) as [[? ->]|[? ->]]; lra.
Qed.

(** X12.  The first pose of a session is returned unsmoothed.  Every
    later one that has the shape of the pose returned by the call before
    is blended with it, coordinate by coordinate, and keeps this shape:
    factor * new + (1 - factor) * previous, which in exact arithmetic and
    for a factor in [0, 1] lies between the two.  (Where the shapes
    differ numpy raises, or stretches a single row or column.)  The pose
    returned is the one the next call blends with. *)
Theorem smooth_pose_between (pose smoothed : Scorer.Pose)
        (self self' : Scorer.RealTimePoseScorer) :
  0 <= Scorer.smoothing_factor self <= 1 ->
  Scorer.smooth_pose pose self = Some (smoothed, self') ->
  (Scorer.pose_history self = [] -> smoothed = pose)
  /\ (forall front prev N C,
        Scorer.pose_history self = front ++ [prev] ->
        shape N C pose -> shape N C prev ->
        shape N C smoothed
        /\ forall i j x y,
            coord pose i j = Some x -> coord prev i j = Some y ->
            coord smoothed i j
            = Some (Scorer.smoothing_factor self * x
                    + (1 - Scorer.smoothing_factor self) * y)
            /\ Py.min2 x y
               <= Scorer.smoothing_factor self * x
                  + (1 - Scorer.smoothing_factor self) * y
               <= Py.max2 x y)
  /\ exists front, Scorer.pose_history self' = front ++ [smoothed].
Proof.
  intros Hf Hs.
  destruct (smooth_pose_setup _ _ _ _ Hs) as (_ & _ & _ & _ & _ & Hh).
  split; [|split].
  - intro He. unfold Scorer.smooth_pose in Hs. rewrite He in Hs.
    now injection Hs as <- _.
  - intros front prev N C He Hpose Hprev. unfold Scorer.smooth_pose in Hs.
    destruct (Scorer.pose_history self) as [|h t] eqn:Eh;
      [now destruct front|].
    assert (Hlast : last t h = prev).
    { assert (E : last (h :: t) h = prev) by (rewrite He; apply last_last).
      destruct t; exact E. }
    rewrite Hlast in Hs.
    destruct (Scorer.zip_poses _ pose prev) as [sm|] eqn:Ez; [|discriminate].
    injection Hs as <- _.
    destruct (zip_poses_coord _ N C _ _ _ Hpose Hprev Ez) as [Hl Hn].
    split; [exact Hl|]. intros i j x y Hx Hy.
    split; [exact (Hn i j x y Hx Hy) | now apply convex_between].
  - rewrite Hh. apply deque_append_last. lia.
Qed.

Lemma smooth_pose_between_witness :
  exists smoothed self',
    Scorer.smooth_pose [[2; 4]]
      (Scorer.set_pose_history [[[0; 0]]] example_scorer)
    = Some (smoothed, self')
    /\ shape 1 2 smoothed
    /\ coord smoothed 0 1 = Some ((3 # 10) * 4 + (1 - (3 # 10)) * 0).
Proof.
  destruct (Scorer.smooth_pose [[2; 4]]
              (Scorer.set_pose_history [[[0; 0]]] example_scorer))
    as [[smoothed self']|] eqn:E; [|vm_compute in E; discriminate E].
  exists smoothed, self'. split; [reflexivity|].
  assert (Hf : 0 <= Scorer.smoothing_factor
                      (Scorer.set_pose_history [[[0; 0]]] example_scorer)
                <= 1)
    by (split; discriminate).
  destruct (smooth_pose_between _ _ _ _ Hf E) as (_ & H & _).
  destruct (H [] [[0; 0]] 1%nat 2%nat eq_refl) as [Hshape Hc];
    [split; [reflexivity | repeat constructor]
    | split; [reflexivity | repeat constructor] |].
  split; [exact Hshape|].
  exact (proj1 (Hc 0%nat 1%nat 4 0 eq_refl eq_refl)).
Defined.

(** A single row in the history is stretched over the rows of the next
    pose, as numpy does: the smoothed pose then has the rows of the new
    pose; and a new pose of a single row after a history of two rows comes
    back with two rows. *)
Lemma smooth_pose_broadcasts :
  let scorer :=
    Scorer.mkScorer 1 0 0 2 (1 # 2) 100 [] [] [] [] [] [] None 0 in
  (exists smoothed self',
      Scorer.smooth_pose [[2; 4]; [6; 8]]
        (Scorer.set_pose_history [[[0; 0]]] scorer)
      = Some (smoothed, self')
      /\ map (map Qred) smoothed = [[1; 2]; [3; 4]])
  /\ (exists smoothed self',
      Scorer.smooth_pose [[2; 4]]
        (Scorer.set_pose_history [[[0; 0]; [2; 2]]] scorer)
      = Some (smoothed, self')
      /\ map (map Qred) smoothed = [[1; 2]; [2; 3]])
  /\ Scorer.smooth_pose [[2; 4]; [6; 8]; [1; 1]]
       (Scorer.set_pose_history [[[0; 0]; [2; 2]]] scorer)
     = None.
Proof.
  cbv zeta. split; [|split].
  - eexists. eexists. split; reflexivity.
  - eexists. eexists. split; reflexivity.
  - reflexivity.
Qed.

(** ** The reference *)

Lemma last_map_seq (f : nat -> Q) (n : nat) (d : Q) :
  last (map f (seq 0 (S n))) d = f n.
Proof.
  rewrite seq_S, map_app. simpl. apply last_last.
Qed.

Lemma find_best_reference_match_zero_duration `{Scorer.Numpy}
      (user_pose : Scorer.Pose) (t : Q) (self : Scorer.RealTimePoseScorer) :
  Scorer.reference_poses self <> [] ->
  Scorer.ref_duration self == 0 ->
  Scorer.find_best_reference_match user_pose t self = None.
Proof.
  intros Hne Hd. unfold Scorer.find_best_reference_match.
  destruct (Scorer.reference_poses self) as [|ref0 refs]; [congruence|].
  assert (E : forall x s n,
             Scorer.ref_duration s == 0 ->
             Scorer.reference_index x (Scorer.ref_duration s) n = None).
  { intros x s n Hs. unfold Scorer.reference_index, Py.fmod.
    apply Qeq_bool_iff in Hs. now rewrite Hs. }
  destruct (Scorer.start_time self); now rewrite E.
Qed.

(** Rounding keeps a number that is at least the least positive binary64
    number away from zero. *)
Lemma round_half_even_floor (x : Q) : (Qfloor x <= Py.round_half_even x)%Z.
Proof.
  unfold Py.round_half_even.
  destruct (Py.Qlt_bool _ _); [lia|].
  destruct (Py.Qlt_bool _ _); [lia|].
  destruct (Z.even _); lia.
Qed.

Lemma round64_pos (x : Q) : 2 ^ (-1074) <= x -> 0 < Py.round64 x.
Proof.
  intro Hx. pose proof (pow2_pos (-1074)) as H0.
  unfold Py.round64.
  pose proof (Qred_correct x) as E. set (q := Qred x) in *.
  assert (Hq : 0 < q) by lra.
  assert (E0 : Qeq_bool q 0 = false) by (apply Qeq_bool_false_iff; lra).
  apply Qlt_bool_iff in Hq as E1. rewrite E0, E1, Qred_correct.
  unfold Py.round_positive.
  destruct (ilog2_spec q Hq) as [L1 _].
  set (u := Z.max (Py.ilog2 q - 52) (-1074)).
  pose proof (pow2_pos u) as Hu.
  assert (Huq : 2 ^ u <= q).
  { unfold u. destruct (Z.max_spec (Py.ilog2 q - 52) (-1074))
      as [[_ ->]|[_ ->]]; [lra|].
    apply Qle_trans with (2 ^ Py.ilog2 q); [|exact L1].
    apply Qpower_le_compat_l; [lia | lra]. }
  apply Qmult_lt_0_compat; [|exact Hu].
  change 0 with (inject_Z 0). rewrite <- Zlt_Qlt.
  assert (1 <= Qfloor (q / 2 ^ u))%Z.
  { change 1%Z with (Qfloor 1). apply Qfloor_resp_le.
    apply Qle_shift_div_l; lra. }
  pose proof (round_half_even_floor (q / 2 ^ u)). lia.
Qed.

(** X13.  Without timestamps, [load_reference_dance] stamps pose [i] with
    the binary64 quotient i / 60.0, so a reference of n >= 1 poses lasts
    the binary64 number nearest to (n - 1) / 60 seconds (an empty one
    counts as 1 second), which is positive from two poses on.  A reference
    of a single pose lasts 0 seconds, and every call of [score_pose] on it
    raises. *)
Theorem generated_reference_timestamps `{Scorer.Numpy}
        (poses : list Scorer.Pose) (self : Scorer.RealTimePoseScorer) :
  let s := Scorer.load_reference_dance poses None self in
  Scorer.reference_poses s = poses
  /\ length (Scorer.reference_timestamps s) = length poses
  /\ (forall i, (i < length poses)%nat ->
        nth_error (Scorer.reference_timestamps s) i
        = Some (Py.round64 (inject_Z (Z.of_nat i) / 60)))
  /\ (forall t, In t (Scorer.reference_timestamps s) -> binary64 t)
  /\ (poses = [] -> Scorer.ref_duration s = 1)
  /\ (poses <> [] ->
      Scorer.ref_duration s
      = Py.round64 (inject_Z (Z.of_nat (length poses - 1)) / 60))
  /\ ((2 <= length poses)%nat -> 0 < Scorer.ref_duration s)
  /\ (length poses = 1%nat ->
      Scorer.ref_duration s = 0
      /\ forall user_pose timestamp clock,
          Scorer.score_pose user_pose timestamp clock s = None).
Proof.
  cbv zeta.
  assert (Hd : poses <> [] ->
               Scorer.ref_duration
                 (Scorer.load_reference_dance poses None self)
               = Py.round64 (inject_Z (Z.of_nat (length poses - 1)) / 60)).
  { intro Hne. unfold Scorer.ref_duration. simpl.
    destruct poses as [|p ps]; [congruence|].
    cbn [length]. rewrite last_map_seq.
    now replace (S (length ps) - 1)%nat with (length ps) by lia. }
  split; [reflexivity|].
  split; [|split; [|split; [|split; [|split; [|split]]]]].
  - simpl. now rewrite length_map, length_seq.
  - intros i Hi. simpl.
    rewrite nth_error_map, nth_error_seq.
    apply Nat.ltb_lt in Hi. now rewrite Hi.
  - intros t Ht. simpl in Ht. apply in_map_iff in Ht.
    destruct Ht as (i & <- & _). apply round64_binary64.
  - now intros ->.
  - exact Hd.
  - intro Hlen.
    rewrite Hd by (destruct poses; [simpl in Hlen; lia | congruence]).
    apply round64_pos.
    apply Qle_trans with (1 # 60).
    + apply Qle_trans with (2 ^ (-6)); [|discriminate].
      apply Qpower_le_compat_l; [lia | lra].
    + apply Qle_shift_div_l; [lra|].
      assert (E : (1 # 60) * 60 == inject_Z 1) by reflexivity.
      rewrite E, <- Zle_Qle. lia.
  - intros Hlen.
    destruct poses as [|p [|p' ps]]; try discriminate.
    split; [reflexivity|]. intros user_pose timestamp clock.
    unfold Scorer.score_pose.
    destruct (Scorer.normalize_pose user_pose) as [normalized|];
      [|reflexivity].
    destruct (Scorer.smooth_pose normalized _) as [[smoothed self1]|] eqn:Es;
      [|reflexivity].
    destruct (smooth_pose_setup _ _ _ _ Es)
      as ((_ & _ & _ & _ & _ & _ & Hr & Ht) & _).
    rewrite find_best_reference_match_zero_duration; [reflexivity | |].
    + simpl. rewrite Hr. discriminate.
    + unfold Scorer.ref_duration. simpl. rewrite Ht. reflexivity.
Qed.

(** ** The distance between two poses *)

Lemma take_rows_ext (indices : list nat) (p p' : Scorer.Pose) :
  (forall i, In i indices -> nth_error p i = nth_error p' i) ->
  Scorer.take_rows indices p = Scorer.take_rows indices p'.
Proof.
  induction indices as [|i rest IH]; intro Hext; simpl; [reflexivity|].
  rewrite (Hext i) by now left.
  rewrite IH; [reflexivity|]. intros k Hk. apply Hext. now right.
Qed.

Lemma take_rows_none (indices : list nat) (p : Scorer.Pose) (i : nat) :
  In i indices -> nth_error p i = None -> Scorer.take_rows indices p = None.
Proof.
  induction indices as [|k rest IH]; intros Hin Hnone; [destruct Hin|].
  simpl. destruct Hin as [->|Hin].
  - now rewrite Hnone.
  - rewrite (IH Hin Hnone). now destruct (nth_error p k).
Qed.

(** X14.  Between poses of 17 joints or more the distance looks at joints
    5 to 16 only: two pairs of poses that agree on these joints are at the
    same distance, whatever the other joints hold.  When the first pose
    has 17 joints or more and the second has fewer, the call raises. *)
Theorem compute_pose_distance_upper_body `{Scorer.Numpy}
        (pose1 pose2 : Scorer.Pose) :
  (17 <= length pose1)%nat ->
  ((length pose2 < 17)%nat ->
   Scorer.compute_pose_distance pose1 pose2 = None)
  /\ (forall pose1' pose2',
        (17 <= length pose1')%nat ->
        (forall i, (5 <= i < 17)%nat ->
                   nth_error pose1' i = nth_error pose1 i) ->
        (forall i, (5 <= i < 17)%nat ->
                   nth_error pose2' i = nth_error pose2 i) ->
        Scorer.compute_pose_distance pose1' pose2'
        = Scorer.compute_pose_distance pose1 pose2).
Proof.
  intro H1. apply Nat.leb_le in H1 as Hb. split.
  - intro H2. unfold Scorer.compute_pose_distance. rewrite Hb.
    rewrite (take_rows_none (seq 5 12) pose2 16).
    + now destruct (Scorer.take_rows (seq 5 12) pose1).
    + apply in_seq. lia.
    + apply nth_error_None. lia.
  - intros pose1' pose2' H1' Hp1 Hp2.
    apply Nat.leb_le in H1' as Hb'.
    unfold Scorer.compute_pose_distance. rewrite Hb, Hb'.
    rewrite (take_rows_ext (seq 5 12) pose1' pose1),
            (take_rows_ext (seq 5 12) pose2' pose2); [reflexivity | |];
      intros i Hi; apply in_seq in Hi; [apply Hp2 | apply Hp1]; lia.
Qed.

Lemma compute_pose_distance_upper_body_witness :
  @Scorer.compute_pose_distance rational_numpy
     (repeat [0; 0] 17) (repeat [0; 0] 16) = None.
Proof.
  assert (H1 : (17 <= length (repeat [0; 0] 17))%nat)
    by (rewrite repeat_length; lia).
  assert (H2 : (length (repeat [0; 0] 16) < 17)%nat)
    by (rewrite repeat_length; lia).
  exact (proj1 (@compute_pose_distance_upper_body rational_numpy
                  (repeat [0; 0] 17) (repeat [0; 0] 16) H1) H2).
Defined.

(** ** Starting over *)

(** X15.  [reset] forgets the whole session: from any two states with one
    configuration and one reference it gives the same scorer, the one that
    construction with this configuration followed by
    [load_reference_dance] with this reference and these timestamps
    gives. *)
Theorem reset_forgets (s s' : Scorer.RealTimePoseScorer) :
  same_setup s s' ->
  Scorer.reset s' = Scorer.reset s
  /\ exists fresh,
      Scorer.init (Scorer.spatial_weight s) (Scorer.timing_weight s)
                  (Scorer.rhythm_weight s) (Scorer.alpha s)
                  (Scorer.smoothing_factor s)
                  (Z.of_nat (Scorer.max_history s)) = Some fresh
      /\ Scorer.reset s'
         = Scorer.load_reference_dance
             (Scorer.reference_poses s)
             (Some (Scorer.reference_timestamps s)) fresh.
Proof.
  intros (A1 & A2 & A3 & A4 & A5 & A6 & A7 & A8).
  assert (E : Scorer.reset s' = Scorer.reset s)
    by (unfold Scorer.reset; congruence).
  split; [exact E|]. unfold Scorer.init.
  destruct (Z.of_nat (Scorer.max_history s) <? 0)%Z eqn:Hneg;
    [apply Z.ltb_lt in Hneg; lia|].
  eexists. split; [reflexivity|]. rewrite E.
  unfold Scorer.reset, Scorer.load_reference_dance. simpl.
  now rewrite Nat2Z.id.
Qed.

Lemma reset_forgets_witness :
  Scorer.reset example_session
  = Scorer.reset (Scorer.load_reference_dance example_reference
                    (Some [0; 1 # 2; 1; 2]) example_scorer).
Proof.
  apply (reset_forgets
           (Scorer.load_reference_dance example_reference
              (Some [0; 1 # 2; 1; 2]) example_scorer) example_session).
  repeat split.
Defined.

(** ** Overall scores *)

Lemma lenQ_cons {A} (x : A) (xs : list A) :
  Py.lenQ (x :: xs) == 1 + Py.lenQ xs.
Proof.
  unfold Py.lenQ. cbn [length].
  rewrite Nat2Z.inj_succ, <- Z.add_1_l, inject_Z_plus. reflexivity.
Qed.

Lemma sumQ_bounds (xs : list Q) :
  Forall unit_interval xs -> 0 <= Py.sumQ xs <= Py.lenQ xs.
Proof.
  induction 1 as [|x xs [Hx0 Hx1] _ IH].
  - unfold Py.lenQ. simpl. split; apply Qle_refl.
  - rewrite lenQ_cons. simpl. lra.
Qed.

Lemma mean_unit (xs : list Q) :
  xs <> [] -> Forall unit_interval xs -> unit_interval (Py.mean xs).
Proof.
  intros Hne Hall. destruct (sumQ_bounds xs Hall) as [H0 H1].
  assert (Hlen : 0 < Py.lenQ xs).
  { destruct xs as [|x xs]; [congruence|]. rewrite lenQ_cons.
    pose proof (lenQ_nonneg xs). lra. }
  unfold unit_interval, Py.mean. split.
  - apply Qle_shift_div_l; [exact Hlen | lra].
  - apply Qle_shift_div_r; [exact Hlen | lra].
Qed.

Lemma xmean_fin (qs : list Q) :
  Scorer.xmean (map Fin qs) = Fin (Py.mean qs).
Proof.
  unfold Scorer.xmean, Py.mean, Py.lenQ. rewrite length_map.
  assert (E : fold_right Scorer.xadd (Fin 0) (map Fin qs)
              = Fin (Py.sumQ qs)).
  { induction qs as [|q qs IH]; simpl; [reflexivity|]. now rewrite IH. }
  now rewrite E.
Qed.

Lemma unit_scores_columns (scores : list Scorer.PoseScore) :
  Forall unit_pose_score scores ->
  exists qs,
    map Scorer.spatial_score scores = map Fin qs
    /\ map Scorer.frame_score scores = map Fin qs
    /\ Forall unit_interval qs
    /\ Forall unit_interval (map Scorer.timing_score scores)
    /\ Forall unit_interval (map Scorer.rhythm_score scores)
    /\ length qs = length scores.
Proof.
  induction 1 as [|ps scores ((q & Es & Ef & Hq) & Ht & Hr) _ IH].
  - exists []. repeat split; constructor.
  - destruct IH as (qs & E1 & E2 & H1 & H2 & H3 & H4).
    exists (q :: qs). simpl. rewrite Es, Ef, E1, E2.
    repeat split; try (constructor; assumption). now rewrite H4.
Qed.


(** The weighted sum of three percentages, for weights that are not
    negative and sum to 1. *)
Lemma weighted_percent (a b c x y z : Q) :
  0 <= a -> 0 <= b -> 0 <= c -> a + b + c == 1 ->
  unit_interval x -> unit_interval y -> unit_interval z ->
  0 <= a * x + b * y + c * z <= 1.
Proof.
  unfold unit_interval. intros Ha Hb Hc Hs [Hx0 Hx1] [Hy0 Hy1] [Hz0 Hz1].
  assert (A0 : 0 <= a * x) by (apply Qmult_le_0_compat; lra).
  assert (B0 : 0 <= b * y) by (apply Qmult_le_0_compat; lra).
  assert (C0 : 0 <= c * z) by (apply Qmult_le_0_compat; lra).
  assert (A1 : 0 <= a * (1 - x)) by (apply Qmult_le_0_compat; lra).
  assert (B1 : 0 <= b * (1 - y)) by (apply Qmult_le_0_compat; lra).
  assert (C1 : 0 <= c * (1 - z)) by (apply Qmult_le_0_compat; lra).
  assert (Ea : a * (1 - x) == a - a * x) by ring.
  assert (Eb : b * (1 - y) == b - b * y) by ring.
  assert (Ec : c * (1 - z) == c - c * z) by ring.
  rewrite Ea in A1. rewrite Eb in B1. rewrite Ec in C1. lra.
Qed.



Lemma unit_scores_averages (scores : list Scorer.PoseScore) :
  scores <> [] -> Forall unit_pose_score scores ->
  exists ms,
    Scorer.xmean (map Scorer.spatial_score scores) = Fin ms
    /\ Scorer.xmean (map Scorer.frame_score scores) = Fin ms
    /\ unit_interval ms
    /\ unit_interval (Py.mean (map Scorer.timing_score scores))
    /\ unit_interval (Py.mean (map Scorer.rhythm_score scores)).
Proof.
  intros Hne Hall.
  destruct (unit_scores_columns scores Hall)
    as (qs & E1 & E2 & H1 & H2 & H3 & H4).
  exists (Py.mean qs). rewrite E1, E2, xmean_fin.
  destruct scores as [|ps scores]; [congruence|].
  assert (Hq : qs <> []) by (destruct qs; [discriminate H4 | discriminate]).
  split; [reflexivity|]. split; [reflexivity|].
  split; [now apply mean_unit|].
  split; apply mean_unit; try assumption; discriminate.
Qed.

Lemma weighted_score_percent (s : Scorer.RealTimePoseScorer) (x y z : Q) :
  normalized_weights s ->
  unit_interval x -> unit_interval y -> unit_interval z ->
  0 <= 100 * (Scorer.spatial_weight s * x + Scorer.timing_weight s * y
              + Scorer.rhythm_weight s * z) <= 100.
Proof.
  intros (Ha & Hb & Hc & Hs) Hx Hy Hz.
  pose proof (weighted_percent _ _ _ x y z Ha Hb Hc Hs Hx Hy Hz). lra.
Qed.



(** ** A whole performance *)

Lemma score_pose_history `{Scorer.Numpy} (user_pose : Scorer.ndarray)
      (timestamp : option Q) (clock : Q)
      (self self' : Scorer.RealTimePoseScorer) (ps : Scorer.PoseScore) :
  Scorer.score_pose user_pose timestamp clock self = Some (ps, self') ->
  same_setup self self'
  /\ Scorer.pose_scores self'
     = Scorer.deque_append (Scorer.max_history self)
                           (Scorer.pose_scores self) ps.
Proof.
  intro Hs.
  destruct (score_pose_steps _ _ _ _ _ _ Hs)
    as (normalized & smoothed & self1 & i & dist & self3
        & _ & Hsm & Hfind & _ & _ & ->).
  destruct (smooth_pose_setup _ _ _ _ Hsm) as (S1 & _ & _ & P1 & _).
  destruct (find_best_reference_match_setup _ _ _ _ _ _ Hfind)
    as (S3 & _ & _ & P3 & _).
  simpl in P3.
  assert (S2 : same_setup self1
                 (Scorer.record_user_pose
                    smoothed
                    match timestamp with Some t0 => t0 | None => clock end
                    self1))
    by (repeat split).
  pose proof (same_setup_trans _ _ _ S1 (same_setup_trans _ _ _ S2 S3))
    as S13.
  assert (Hm : Scorer.max_history self3 = Scorer.max_history self)
    by apply S13.
  split.
  - eapply same_setup_trans; [exact S13 | repeat split].
  - cbn [Scorer.record_pose_score Scorer.pose_scores].
    now rewrite Hm, P3, P1.
Qed.

Lemma score_pose_zero_duration `{Scorer.Numpy} (user_pose : Scorer.ndarray)
      (timestamp : option Q) (clock : Q) (self : Scorer.RealTimePoseScorer) :
  Scorer.reference_poses self <> [] ->
  Scorer.ref_duration self == 0 ->
  Scorer.score_pose user_pose timestamp clock self = None.
Proof.
  intros Hne Hd. unfold Scorer.score_pose.
  destruct (Scorer.normalize_pose user_pose) as [normalized|];
    [|reflexivity].
  destruct (Scorer.smooth_pose normalized self) as [[smoothed self1]|] eqn:Es;
    [|reflexivity].
  destruct (smooth_pose_setup _ _ _ _ Es)
    as ((_ & _ & _ & _ & _ & _ & Hr & Ht) & _).
  rewrite find_best_reference_match_zero_duration; [reflexivity | |].
  - simpl. now rewrite Hr.
  - unfold Scorer.ref_duration in *. simpl. now rewrite Ht.
Qed.

Lemma same_setup_ref_duration (s s' : Scorer.RealTimePoseScorer) :
  same_setup s s' -> Scorer.ref_duration s' = Scorer.ref_duration s.
Proof.
  intros (_ & _ & _ & _ & _ & _ & _ & Ht). unfold Scorer.ref_duration.
  now rewrite Ht.
Qed.

Lemma score_all_cons `{Scorer.Numpy} (user_timestamps : option (list Q))
      (clock : nat -> Q) (pose : Scorer.ndarray)
      (rest : list Scorer.ndarray) (i : nat)
      (scorer scorer' : Scorer.RealTimePoseScorer) :
  Scorer.score_all i (pose :: rest) user_timestamps clock scorer
  = Some scorer' ->
  exists timestamp ps scorer1,
    Scorer.score_pose pose (Some timestamp) 0 scorer = Some (ps, scorer1)
    /\ Scorer.score_all (S i) rest user_timestamps clock scorer1
       = Some scorer'
    /\ (forall ts, user_timestamps = Some ts -> ts <> [] ->
                   nth_error ts i = Some timestamp).
Proof.
  cbn [Scorer.score_all].
  set (generated := clock i + inject_Z (Z.of_nat i) * (33 # 1000)).
  destruct (match user_timestamps with
            | Some ts => if Sampler.nonempty ts then nth_error ts i
                         else Some generated
            | None => Some generated
            end) as [timestamp|] eqn:Et; [|discriminate].
  destruct (Scorer.score_pose pose (Some timestamp) 0 scorer)
    as [[ps scorer1]|] eqn:Es; [|discriminate].
  intro Hrest. exists timestamp, ps, scorer1.
  split; [exact Es|]. split; [exact Hrest|].
  intros ts -> Hne. destruct ts; [congruence | exact Et].
Qed.

Lemma score_all_setup `{Scorer.Numpy} (user_timestamps : option (list Q))
      (clock : nat -> Q) (user_poses : list Scorer.ndarray) :
  forall (i : nat) (scorer scorer' : Scorer.RealTimePoseScorer),
    Scorer.score_all i user_poses user_timestamps clock scorer
    = Some scorer' ->
    same_setup scorer scorer'.
Proof.
  induction user_poses as [|pose rest IH]; intros i scorer scorer' Hs.
  - injection Hs as <-. apply same_setup_refl.
  - destruct (score_all_cons _ _ _ _ _ _ _ Hs)
      as (t & ps & scorer1 & Hp & Hrest & _).
    destruct (score_pose_history _ _ _ _ _ _ Hp) as [S1 _].
    exact (same_setup_trans _ _ _ S1 (IH _ _ _ Hrest)).
Qed.

Lemma score_all_length `{Scorer.Numpy} (user_timestamps : option (list Q))
      (clock : nat -> Q) (user_poses : list Scorer.ndarray) :
  forall (i : nat) (scorer scorer' : Scorer.RealTimePoseScorer),
    Scorer.score_all i user_poses user_timestamps clock scorer
    = Some scorer' ->
    (length (Scorer.pose_scores scorer) <= Scorer.max_history scorer)%nat ->
    length (Scorer.pose_scores scorer')
    = Nat.min (Scorer.max_history scorer)
              (length (Scorer.pose_scores scorer) + length user_poses).
Proof.
  induction user_poses as [|pose rest IH]; intros i scorer scorer' Hs Hlen.
  - injection Hs as <-. simpl. lia.
  - destruct (score_all_cons _ _ _ _ _ _ _ Hs)
      as (t & ps & scorer1 & Hp & Hrest & _).
    destruct (score_pose_history _ _ _ _ _ _ Hp) as [S1 P1].
    assert (Hm : Scorer.max_history scorer1 = Scorer.max_history scorer)
      by apply S1.
    assert (L1 : length (Scorer.pose_scores scorer1)
                 = Nat.min (Scorer.max_history scorer)
                           (S (length (Scorer.pose_scores scorer))))
      by (rewrite P1; apply length_deque_append).
    rewrite (IH _ _ _ Hrest) by lia.
    rewrite Hm, L1. cbn [length]. lia.
Qed.

Lemma score_all_timestamps `{Scorer.Numpy} (ts : list Q)
      (clock : nat -> Q) (user_poses : list Scorer.ndarray) :
  ts <> [] ->
  forall (i : nat) (scorer scorer' : Scorer.RealTimePoseScorer),
    Scorer.score_all i user_poses (Some ts) clock scorer = Some scorer' ->
    user_poses <> [] ->
    (i + length user_poses <= length ts)%nat.
Proof.
  intro Hts.
  induction user_poses as [|pose rest IH]; intros i scorer scorer' Hs Hne;
    [congruence|].
  destruct (score_all_cons _ _ _ _ _ _ _ Hs)
    as (t & ps & scorer1 & _ & Hrest & Ht).
  assert (Hi : (i < length ts)%nat).
  { apply nth_error_Some. rewrite (Ht ts eq_refl Hts). discriminate. }
  destruct rest as [|pose' rest']; [simpl; lia|].
  pose proof (IH _ _ _ Hrest ltac:(discriminate)) as Hl.
  cbn [length] in *. lia.
Qed.

Lemma score_all_unit `{Scorer.Numpy} (user_timestamps : option (list Q))
      (clock : nat -> Q) (user_poses : list Scorer.ndarray) :
  (forall q, 0 <= Scorer.np_sqrt q) ->
  forall (i : nat) (scorer scorer' : Scorer.RealTimePoseScorer),
    Scorer.score_all i user_poses user_timestamps clock scorer
    = Some scorer' ->
    Scorer.reference_poses scorer <> [] \/ ~ Scorer.alpha scorer == 0 ->
    Forall unit_pose_score (Scorer.pose_scores scorer) ->
    Forall unit_pose_score (Scorer.pose_scores scorer').
Proof.
  intro Hsqrt.
  induction user_poses as [|pose rest IH];
    intros i scorer scorer' Hs Hfin Hall.
  - now injection Hs as <-.
  - destruct (score_all_cons _ _ _ _ _ _ _ Hs)
      as (t & ps & scorer1 & Hp & Hrest & _).
    destruct (score_pose_history _ _ _ _ _ _ Hp) as [S1 P1].
    pose proof (score_pose_unit _ _ _ _ _ _ Hsqrt Hfin Hp) as Hps.
    apply (IH _ _ _ Hrest).
    + destruct S1 as (_ & _ & _ & Ea & _ & _ & Er & _).
      rewrite Ea, Er. exact Hfin.
    + rewrite P1. now apply Forall_deque_append.
Qed.

Lemma create_pose_scorer_fresh (reference_poses : list Scorer.Pose)
      (reference_timestamps : option (list Q))
      (sw tw rw a sf : Q) (mh : Z) (scorer : Scorer.RealTimePoseScorer) :
  Scorer.create_pose_scorer reference_poses reference_timestamps
                            sw tw rw a sf mh = Some scorer ->
  (0 <= mh)%Z
  /\ scorer
     = Scorer.load_reference_dance
         reference_poses reference_timestamps
         (Scorer.mkScorer sw tw rw a sf (Z.to_nat mh) [] [] [] [] [] []
                          None 0).
Proof.
  unfold Scorer.create_pose_scorer, Scorer.init.
  destruct (mh <? 0)%Z eqn:E; [discriminate|].
  intros [= <-]. apply Z.ltb_ge in E. split; [exact E | reflexivity].
Qed.

(** X17.  When [score_complete_performance] returns, the capacity is not
    negative; the result counts min(capacity, number of user poses)
    poses; with no user pose or no capacity it is the all-zero result
    [No poses scored]; with a user pose and a reference that is not
    empty, the reference does not last 0 seconds (scoring against it
    would raise): without reference timestamps among the keyword
    arguments it does not consist of a single pose, with them the last
    one is not 0; and a non-empty list of user timestamps has a timestamp
    for every user pose. *)
Theorem score_complete_performance_spec `{Scorer.Numpy}
        (reference_poses : list Scorer.Pose)
        (user_poses : list Scorer.ndarray)
        (user_timestamps : option (list Q)) (clock : nat -> Q)
        (reference_timestamps : option (list Q))
        (sw tw rw a sf : Q) (mh : Z) (r : Scorer.Final.t) :
  Scorer.score_complete_performance reference_poses user_poses
    user_timestamps clock reference_timestamps sw tw rw a sf mh = Some r ->
  (0 <= mh)%Z
  /\ Scorer.Final.total_poses r
     = Nat.min (Z.to_nat mh) (length user_poses)
  /\ (user_poses = [] \/ mh = 0%Z ->
      r = Scorer.Final.mk (Fin 0) (Fin 0) 0 0 0 (Fin 0)
                          "No poses scored"%string)
  /\ (user_poses <> [] -> reference_poses <> [] ->
      match reference_timestamps with
      | None => length reference_poses <> 1%nat
      | Some ts => ~ last ts 1 == 0
      end)
  /\ (forall ts, user_timestamps = Some ts -> ts <> [] ->
                 (length user_poses <= length ts)%nat).
Proof.
  unfold Scorer.score_complete_performance.
  destruct (Scorer.create_pose_scorer _ _ _ _ _ _ _ _) as [scorer|] eqn:Ec;
    [|discriminate].
  destruct (Scorer.score_all 0 _ _ _ scorer) as [scorer1|] eqn:Es;
    [|discriminate].
  intros [= <-].
  destruct (create_pose_scorer_fresh _ _ _ _ _ _ _ _ _ Ec) as [Hmh Hfresh].
  assert (Hm : Scorer.max_history scorer = Z.to_nat mh)
    by (rewrite Hfresh; reflexivity).
  assert (Hp0 : Scorer.pose_scores scorer = [])
    by (rewrite Hfresh; reflexivity).
  pose proof (score_all_length _ _ _ _ _ _ Es) as Hlen.
  rewrite Hp0, Hm in Hlen. simpl in Hlen.
  specialize (Hlen ltac:(lia)).
  assert (Htotal : Scorer.Final.total_poses (Scorer.get_final_score scorer1)
                   = length (Scorer.pose_scores scorer1)).
  { unfold Scorer.get_final_score.
    now destruct (Scorer.pose_scores scorer1). }
  split; [exact Hmh|]. split; [now rewrite Htotal|].
  split; [|split].
  - intro Hzero.
    assert (E : Scorer.pose_scores scorer1 = []).
    { apply length_zero_iff_nil. rewrite Hlen.
      destruct Hzero as [->| ->]; simpl; lia. }
    unfold Scorer.get_final_score. now rewrite E.
  - intros Hne Hrefs.
    destruct user_poses as [|pose rest]; [congruence|].
    destruct (score_all_cons _ _ _ _ _ _ _ Es)
      as (t & ps & scorer2 & Hp & _ & _).
    assert (Hdur : ~ Scorer.ref_duration scorer == 0).
    { intro Hz. rewrite score_pose_zero_duration in Hp;
        [discriminate | | exact Hz].
      rewrite Hfresh. exact Hrefs. }
    rewrite Hfresh in Hdur.
    destruct reference_timestamps as [ts|]; [exact Hdur|].
    intro Hone. apply Hdur.
    destruct reference_poses as [|p [|p' ps']]; try discriminate Hone.
    reflexivity.
  - intros ts -> Hts.
    destruct user_poses as [|pose rest]; [simpl; lia|].
    exact (score_all_timestamps ts clock _ Hts _ _ _ Es ltac:(discriminate)).
Qed.

Lemma score_complete_performance_spec_witness :
  exists r,
    @Scorer.score_complete_performance rational_numpy
      example_reference
      [Scorer.Arr2 [[1; 2]; [2; 4]]] (Some [0]) (fun _ => 0) None
      (4 # 10) (3 # 10) (3 # 10) 2 (3 # 10) 100 = Some r
    /\ Scorer.Final.total_poses r = 1%nat.
Proof.
  destruct (@Scorer.score_complete_performance rational_numpy
              example_reference
              [Scorer.Arr2 [[1; 2]; [2; 4]]] (Some [0]) (fun _ => 0) None
              (4 # 10) (3 # 10) (3 # 10) 2 (3 # 10) 100)
    as [r|] eqn:E; [|vm_compute in E; discriminate E].
  exists r. split; [reflexivity|].
  exact (proj1 (proj2 (@score_complete_performance_spec rational_numpy
                         _ _ _ _ _ _ _ _ _ _ _ _ E))).
Defined.

(** A reference of a single pose is scored against when the keyword
    arguments bring its timestamp, and the timestamp is not 0. *)
Lemma score_complete_performance_single_reference :
  exists r,
    @Scorer.score_complete_performance rational_numpy
      [example_pose] [Scorer.Arr2 [[1; 2]; [2; 4]]] (Some [0]) (fun _ => 0)
      (Some [2]) (4 # 10) (3 # 10) (3 # 10) 2 (3 # 10) 100 = Some r
    /\ Scorer.Final.total_poses r = 1%nat.
Proof.
  eexists. split; [vm_compute; reflexivity | reflexivity].
Qed.

(** X18.  For poses, of the user and of the reference, whose coordinates
    are finite numbers, and in exact arithmetic: with a square root that
    is never negative, weights that are not negative and sum to 1, and a
    reference that is not empty or an [alpha] that is not 0, every result
    of [score_complete_performance] has its overall, spatial, timing and
    rhythm scores and its alignment quality in [0, 100], whether or not
    the keyword arguments bring reference timestamps.  (A pose holding a
    NaN makes the stored scores NaN: the poses here hold none.) *)
Theorem score_complete_performance_percentages `{Scorer.Numpy}
        (reference_poses : list Scorer.Pose)
        (user_poses : list Scorer.ndarray)
        (user_timestamps : option (list Q)) (clock : nat -> Q)
        (reference_timestamps : option (list Q))
        (sw tw rw a sf : Q) (mh : Z) (r : Scorer.Final.t) :
  (forall q, 0 <= Scorer.np_sqrt q) ->
  0 <= sw -> 0 <= tw -> 0 <= rw -> sw + tw + rw == 1 ->
  reference_poses <> [] \/ ~ a == 0 ->
  Scorer.score_complete_performance reference_poses user_poses
    user_timestamps clock reference_timestamps sw tw rw a sf mh = Some r ->
  (exists o, Scorer.Final.overall_score r = Fin o /\ 0 <= o <= 100)
  /\ (exists s, Scorer.Final.spatial_score r = Fin s /\ 0 <= s <= 100)
  /\ 0 <= Scorer.Final.timing_score r <= 100
  /\ 0 <= Scorer.Final.rhythm_score r <= 100
  /\ (exists q, Scorer.Final.alignment_quality r = Fin q /\ 0 <= q <= 100).
Proof.
  intros Hsqrt Hsw Htw Hrw Hsum Hfin.
  unfold Scorer.score_complete_performance.
  destruct (Scorer.create_pose_scorer _ _ _ _ _ _ _ _) as [scorer|] eqn:Ec;
    [|discriminate].
  destruct (Scorer.score_all 0 _ _ _ scorer) as [scorer1|] eqn:Es;
    [|discriminate].
  intros [= <-].
  destruct (create_pose_scorer_fresh _ _ _ _ _ _ _ _ _ Ec) as [Hmh Hfresh].
  assert (Hall : Forall unit_pose_score (Scorer.pose_scores scorer1)).
  { apply (score_all_unit _ _ _ Hsqrt _ _ _ Es).
    - rewrite Hfresh. exact Hfin.
    - rewrite Hfresh. constructor. }
  pose proof (score_all_setup _ _ _ _ _ _ Es)
    as (E1 & E2 & E3 & _).
  assert (Hw : normalized_weights scorer1).
  { unfold normalized_weights. rewrite E1, E2, E3, Hfresh. simpl.
    repeat split; assumption. }
  destruct (Scorer.pose_scores scorer1) as [|ps0 rest] eqn:Ep.
  - unfold Scorer.get_final_score. rewrite Ep. simpl.
    repeat split; try (exists 0; split; [reflexivity | lra]); lra.
  - rewrite <- Ep in Hall.
    assert (Hne : Scorer.pose_scores scorer1 <> []) by congruence.
    destruct (unit_scores_averages _ Hne Hall)
      as (ms & Esp & Ef & Hms & Hmt & Hmr).
    pose proof (weighted_score_percent scorer1 ms _ _ Hw Hms Hmt Hmr) as Ho.
    unfold Scorer.get_final_score.
    replace (Sampler.nonempty (Scorer.pose_scores scorer1)) with true
      by (now rewrite Ep).
    rewrite Esp, Ef. cbn [negb].
    set (mt := Py.mean (map Scorer.timing_score (Scorer.pose_scores scorer1)))
      in *.
    set (mr := Py.mean (map Scorer.rhythm_score (Scorer.pose_scores scorer1)))
      in *.
    cbn [Scorer.xscale Scorer.xadd Scorer.Final.overall_score
         Scorer.Final.spatial_score Scorer.Final.timing_score
         Scorer.Final.rhythm_score Scorer.Final.alignment_quality].
    unfold unit_interval in Hms, Hmt, Hmr.
    split; [|split; [|split; [|split]]].
    + eexists. split; [reflexivity|].
      match goal with
      | |- 0 <= ?o <= 100 =>
          assert (E : o == 100 * (Scorer.spatial_weight scorer1 * ms
                                  + Scorer.timing_weight scorer1 * mt
                                  + Scorer.rhythm_weight scorer1 * mr))
            by ring;
          rewrite E; exact Ho
      end.
    + eexists. split; [reflexivity | lra].
    + lra.
    + lra.
    + eexists. split; [reflexivity | lra].
Qed.

Lemma score_complete_performance_percentages_witness :
  exists r o,
    @Scorer.score_complete_performance rational_numpy
      example_reference
      [Scorer.Arr2 [[1; 2]; [2; 4]]] (Some [0]) (fun _ => 0) None
      (4 # 10) (3 # 10) (3 # 10) 2 (3 # 10) 100 = Some r
    /\ Scorer.Final.overall_score r = Fin o /\ 0 <= o <= 100.
Proof.
  destruct (@Scorer.score_complete_performance rational_numpy
              example_reference
              [Scorer.Arr2 [[1; 2]; [2; 4]]] (Some [0]) (fun _ => 0) None
              (4 # 10) (3 # 10) (3 # 10) 2 (3 # 10) 100)
    as [r|] eqn:E; [|vm_compute in E; discriminate E].
  assert (H0 : 0 <= 4 # 10) by discriminate.
  assert (H1 : 0 <= 3 # 10) by discriminate.
  assert (H2 : (4 # 10) + (3 # 10) + (3 # 10) == 1) by reflexivity.
  assert (H3 : example_reference <> [] \/ ~ 2 == 0)
    by (left; discriminate).
  destruct (@score_complete_performance_percentages rational_numpy
              _ _ _ _ _ _ _ _ _ _ _ _
              rational_sqrt_nonneg H0 H1 H1 H2 H3 E)
    as [(o & Ho & Hrange) _].
  exists r, o. split; [reflexivity | split; assumption].
Defined.

(** ** Loading keypoints *)

Lemma assign_xy_length (landmark joint : list xfloat) :
  length landmark = 3%nat ->
  length (Loader.assign_xy landmark joint) = 3%nat.
Proof.
  intro Hl. destruct landmark as [|a [|b [|c [|d rest]]]]; try discriminate.
  destruct joint as [|x [|y [|z rest]]]; reflexivity.
Qed.

(** The loop over the COCO table, unrolled on a frame of 17 joints. *)
Lemma map_coco_unrolled (frame : list (list xfloat)) :
  length frame = 17%nat ->
  let j (c : nat) := Loader.assign_xy zero_landmark (nth c frame []) in
  let z := zero_landmark in
  Loader.map_coco 17 frame
  = [j 0; z; j 1; z; z; j 2; z; j 3; j 4; z; z; j 5; j 6; j 7; j 8; j 9;
     j 10; z; z; z; z; z; z; j 11; j 12; j 13; j 14; j 15; j 16;
     z; z; z; z]%nat.
Proof.
  intro Hl.
  do 17 (destruct frame as [|? frame]; [discriminate Hl|]).
  destruct frame; [|discriminate Hl].
  reflexivity.
Qed.

Lemma map_coco_shape (frame : list (list xfloat)) :
  length frame = 17%nat ->
  length (Loader.map_coco 17 frame) = 33%nat
  /\ Forall (fun row => length row = 3%nat) (Loader.map_coco 17 frame).
Proof.
  intro Hl. rewrite (map_coco_unrolled frame Hl). split; [reflexivity|].
  repeat constructor; apply assign_xy_length; reflexivity.
Qed.

Lemma zero_landmarks_rows (k : nat) :
  Forall (fun row => length row = 3%nat) (repeat zero_landmark k).
Proof.
  induction k; simpl; constructor; [reflexivity | assumption].
Qed.

Lemma map_direct_shape (joints : nat) (frame : list (list xfloat)) :
  length frame = joints ->
  length (Loader.map_direct joints frame) = 33%nat
  /\ Forall (fun row => length row = 3%nat) (Loader.map_direct joints frame).
Proof.
  intro Hl. unfold Loader.map_direct.
  set (k := Nat.min joints 33).
  change Loader.zero_landmarks with (repeat zero_landmark 33).
  split.
  - rewrite length_app, length_map, length_combine, !length_firstn,
      length_skipn, repeat_length. lia.
  - apply Forall_app. split.
    + apply Forall_forall. intros row Hrow.
      apply in_map_iff in Hrow as ([landmark joint] & <- & Hin).
      apply in_combine_l in Hin.
      apply assign_xy_length.
      assert (Hz : In landmark (repeat zero_landmark 33)).
      { rewrite <- (firstn_skipn k (repeat zero_landmark 33)).
        apply in_or_app. now left. }
      apply repeat_spec in Hz. now subst.
    + apply Forall_forall. intros row Hrow.
      assert (Hz : In row (repeat zero_landmark 33)).
      { rewrite <- (firstn_skipn k (repeat zero_landmark 33)).
        apply in_or_app. now right. }
      apply repeat_spec in Hz. now subst.
Qed.

Lemma shaped_map (joints coords : nat) (f : list (list xfloat) ->
                                            list (list xfloat))
      (frames : list (list (list xfloat))) :
  shaped joints coords frames ->
  (forall frame, length frame = joints ->
                 length (f frame) = 33%nat
                 /\ Forall (fun row => length row = 3%nat) (f frame)) ->
  shaped 33 3 (map f frames).
Proof.
  intros Hs Hf. unfold shaped in *. apply Forall_map.
  eapply Forall_impl; [|exact Hs]. intros frame [Hl _]. now apply Hf.
Qed.

(** X19.  [convert_to_mediapipe_format] accepts arrays of rank 3 whose
    joints have one or two coordinates, and raises on all others.  What it
    returns has shape (frames, 33, 3), with the frame count of its
    argument. *)
Theorem convert_to_mediapipe_format_cases (keypoints : Loader.ndarray) :
  (forall joints coords frames,
      keypoints = Loader.Rank3 joints coords frames ->
      (coords = 1 \/ coords = 2)%nat ->
      shaped joints coords frames ->
      exists landmarks,
        Loader.convert_to_mediapipe_format keypoints
        = Some (Loader.Rank3 33 3 landmarks)
        /\ length landmarks = length frames
        /\ shaped 33 3 landmarks)
  /\ ((forall joints frames,
          keypoints <> Loader.Rank3 joints 1 frames
          /\ keypoints <> Loader.Rank3 joints 2 frames) ->
      Loader.convert_to_mediapipe_format keypoints = None).
Proof.
  split.
  - intros joints coords frames -> Hc Hs.
    unfold Loader.convert_to_mediapipe_format.
    assert (E : ((coords =? 2) || (coords =? 1))%nat = true)
      by (destruct Hc as [-> | ->]; reflexivity).
    rewrite E. eexists. split; [reflexivity|].
    destruct (joints =? 17)%nat eqn:Ej.
    + apply Nat.eqb_eq in Ej. subst joints.
      split; [apply length_map|].
      apply (shaped_map 17 coords); [exact Hs | apply map_coco_shape].
    + split; [apply length_map|].
      apply (shaped_map joints coords); [exact Hs|].
      apply map_direct_shape.
  - intro Hno. destruct keypoints as [| |joints coords frames| |];
      try reflexivity.
    unfold Loader.convert_to_mediapipe_format.
    destruct ((coords =? 2) || (coords =? 1))%nat eqn:E; [|reflexivity].
    exfalso. destruct (Hno joints frames) as [H1 H2].
    apply orb_true_iff in E as [E|E]; apply Nat.eqb_eq in E; subst coords;
      congruence.
Qed.

(** X20.  On frames of 17 joints (COCO) with two coordinates, every pair
    (c, m) of the table sends the x and y of joint c to landmark m, whose
    z is 0, and the 16 landmarks the table does not name stay at zero. *)
Theorem convert_to_mediapipe_format_coco
        (frames landmarks : list (list (list xfloat))) :
  shaped 17 2 frames ->
  Loader.convert_to_mediapipe_format (Loader.Rank3 17 2 frames)
  = Some (Loader.Rank3 33 3 landmarks) ->
  forall f frame, nth_error frames f = Some frame ->
    exists out,
      nth_error landmarks f = Some out
      /\ (forall c m x y,
             In (c, m) Loader.coco_to_mediapipe ->
             nth_error frame c = Some [x; y] ->
             nth_error out m = Some [x; y; Fin 0])
      /\ (forall m, (m < 33)%nat -> ~ In m mapped_landmarks ->
                    nth_error out m = Some zero_landmark).
Proof.
  intros Hs Hc f frame Hf.
  injection Hc as <-.
  exists (Loader.map_coco 17 frame).
  split; [now rewrite nth_error_map, Hf|].
  assert (Hl : length frame = 17%nat).
  { unfold shaped in Hs. rewrite Forall_forall in Hs.
    now apply (Hs frame (nth_error_In _ _ Hf)). }
  rewrite (map_coco_unrolled frame Hl). cbv zeta. split.
  - intros c m x y Hin Hxy.
    assert (Hn : nth c frame [] = [x; y]) by now apply nth_error_nth.
    simpl in Hin.
    repeat (destruct Hin as [Hin|Hin];
            [injection Hin as <- <-; cbn [nth_error]; rewrite Hn;
             reflexivity|]).
    destruct Hin.
  - intros m Hm Hun.
    do 33 (destruct m as [|m];
           [first [reflexivity
                  | exfalso; apply Hun; unfold mapped_landmarks; simpl;
                    repeat (first [now left | right])]|]).
    lia.
Qed.

Lemma convert_to_mediapipe_format_coco_witness :
  exists landmarks out,
    Loader.convert_to_mediapipe_format
      (Loader.Rank3 17 2
         [map (fun k => [Fin (inject_Z (Z.of_nat k)); Fin 1]) (seq 0 17)])
    = Some (Loader.Rank3 33 3 landmarks)
    /\ nth_error landmarks 0 = Some out
    /\ nth_error out 28 = Some [Fin 16; Fin 1; Fin 0].
Proof.
  eexists.
  destruct (convert_to_mediapipe_format_coco
              [map (fun k => [Fin (inject_Z (Z.of_nat k)); Fin 1]) (seq 0 17)]
              _ ltac:(repeat constructor) eq_refl 0%nat _ eq_refl)
    as (out & Hout & Hmap & _).
  exists out. split; [reflexivity|]. split; [exact Hout|].
  apply (Hmap 16%nat 28%nat (Fin 16) (Fin 1)).
  - unfold Loader.coco_to_mediapipe. do 16 right. left. reflexivity.
  - reflexivity.
Defined.

Lemma nth_error_combine {A B} (xs : list A) (ys : list B) (i : nat)
      (a : A) (b : B) :
  nth_error xs i = Some a -> nth_error ys i = Some b ->
  nth_error (combine xs ys) i = Some (a, b).
Proof.
  revert ys i. induction xs as [|x xs IH]; intros [|y ys] [|i]; simpl;
    try discriminate.
  - now intros [= ->] [= ->].
  - apply IH.
Qed.

Lemma nth_error_firstn_lt {A} (k i : nat) (xs : list A) :
  (i < k)%nat -> nth_error (firstn k xs) i = nth_error xs i.
Proof.
  revert i xs. induction k as [|k IH]; intros i xs Hi; [lia|].
  destruct xs as [|x xs]; [now destruct i|].
  destruct i as [|i]; [reflexivity|]. simpl. apply IH. lia.
Qed.

Lemma nth_error_zero_landmarks (m : nat) :
  (m < 33)%nat -> nth_error Loader.zero_landmarks m = Some zero_landmark.
Proof.
  intro Hm. unfold Loader.zero_landmarks.
  change [Fin 0; Fin 0; Fin 0] with zero_landmark.
  now apply nth_error_repeat.
Qed.

(** X21.  On frames whose joint count is not 17, joint j goes to landmark
    j, for j below 33: its x and y are copied and its z is 0.  Landmarks
    from the joint count on stay at zero, and joints from 33 on are
    dropped. *)
Theorem convert_to_mediapipe_format_direct (joints : nat)
        (frames landmarks : list (list (list xfloat))) :
  joints <> 17%nat ->
  shaped joints 2 frames ->
  Loader.convert_to_mediapipe_format (Loader.Rank3 joints 2 frames)
  = Some (Loader.Rank3 33 3 landmarks) ->
  forall f frame, nth_error frames f = Some frame ->
    exists out,
      nth_error landmarks f = Some out
      /\ length out = 33%nat
      /\ (forall j x y,
             (j < 33)%nat -> nth_error frame j = Some [x; y] ->
             nth_error out j = Some [x; y; Fin 0])
      /\ (forall m, (joints <= m < 33)%nat ->
                    nth_error out m = Some zero_landmark).
Proof.
  intros Hj Hs Hc f frame Hf.
  unfold Loader.convert_to_mediapipe_format in Hc.
  apply Nat.eqb_neq in Hj. rewrite Hj in Hc. simpl in Hc.
  injection Hc as <-.
  exists (Loader.map_direct joints frame).
  split; [now rewrite nth_error_map, Hf|].
  assert (Hl : length frame = joints).
  { unfold shaped in Hs. rewrite Forall_forall in Hs.
    now apply (Hs frame (nth_error_In _ _ Hf)). }
  split; [now apply map_direct_shape|].
  unfold Loader.map_direct. set (k := Nat.min joints 33).
  assert (Hlen : length (map (fun '(landmark, joint) =>
                                Loader.assign_xy landmark joint)
                             (combine (firstn k Loader.zero_landmarks)
                                      (firstn k frame))) = k).
  { rewrite length_map, length_combine, !length_firstn.
    unfold Loader.zero_landmarks. rewrite repeat_length. lia. }
  split.
  - intros j x y Hj33 Hxy.
    assert (Hjk : (j < k)%nat).
    { assert (j < length frame)%nat
        by (apply nth_error_Some; rewrite Hxy; discriminate).
      lia. }
    rewrite nth_error_app1 by (rewrite Hlen; exact Hjk).
    rewrite nth_error_map.
    rewrite (nth_error_combine _ _ j zero_landmark [x; y]).
    + reflexivity.
    + rewrite nth_error_firstn_lt by exact Hjk.
      now apply nth_error_zero_landmarks.
    + now rewrite nth_error_firstn_lt by exact Hjk.
  - intros m [Hm1 Hm2].
    rewrite nth_error_app2 by (rewrite Hlen; lia).
    rewrite Hlen, nth_error_skipn.
    replace (k + (m - k))%nat with m by lia.
    now apply nth_error_zero_landmarks.
Qed.

Lemma convert_to_mediapipe_format_direct_witness :
  exists landmarks out,
    Loader.convert_to_mediapipe_format
      (Loader.Rank3 2 2 [[[Fin 1; Fin 2]; [Fin 3; Fin 4]]])
    = Some (Loader.Rank3 33 3 landmarks)
    /\ nth_error landmarks 0 = Some out
    /\ nth_error out 1 = Some [Fin 3; Fin 4; Fin 0].
Proof.
  eexists.
  destruct (convert_to_mediapipe_format_direct
              2 [[[Fin 1; Fin 2]; [Fin 3; Fin 4]]] _
              ltac:(discriminate) ltac:(repeat constructor) eq_refl
              0%nat _ eq_refl)
    as (out & Hout & _ & Hmap & _).
  exists out. split; [reflexivity|]. split; [exact Hout|].
  apply (Hmap 1%nat (Fin 3) (Fin 4)); [lia | reflexivity].
Defined.

Lemma chunks_spec {A} (count n : nat) :
  forall xs : list A,
    length xs = (count * n)%nat ->
    length (Loader.chunks count n xs) = count
    /\ Forall (fun c => length c = n) (Loader.chunks count n xs)
    /\ concat (Loader.chunks count n xs) = xs.
Proof.
  induction count as [|k IH]; intros xs Hl; simpl in *.
  - apply length_zero_iff_nil in Hl. subst. repeat split. constructor.
  - destruct (IH (skipn n xs)) as (H1 & H2 & H3).
    { rewrite length_skipn. lia. }
    split; [now rewrite H1|]. split.
    + constructor; [|exact H2]. rewrite length_firstn. lia.
    + rewrite H3. apply firstn_skipn.
Qed.

Lemma reshape3_spec (frames joints coords : nat) (xs : list xfloat) :
  length xs = (frames * (joints * coords))%nat ->
  length (Loader.reshape3 frames joints coords xs) = frames
  /\ shaped joints coords (Loader.reshape3 frames joints coords xs)
  /\ concat (map (@concat xfloat) (Loader.reshape3 frames joints coords xs))
     = xs.
Proof.
  intro Hl. unfold Loader.reshape3.
  destruct (chunks_spec frames (joints * coords) xs Hl) as (H1 & H2 & H3).
  split; [now rewrite length_map|]. split.
  - unfold shaped. apply Forall_map.
    eapply Forall_impl; [|exact H2]. intros chunk Hc.
    destruct (chunks_spec joints coords chunk Hc) as (G1 & G2 & _).
    now split.
  - rewrite map_map.
    rewrite <- H3 at 2. f_equal.
    rewrite <- (map_id (Loader.chunks frames (joints * coords) xs)) at 2.
    apply map_ext_in. intros chunk Hin.
    rewrite Forall_forall in H2.
    now destruct (chunks_spec joints coords chunk (H2 chunk Hin))
      as (_ & _ & G3).
Qed.

(** X22.  A flat array whose length is a multiple of 34 is cut, in order,
    into frames of 17 joints with two coordinates; failing that, one whose
    length is a multiple of 50 into frames of 25 joints; any other flat
    array is returned as it is, and [convert_to_mediapipe_format] then
    raises on it. *)
Theorem normalize_keypoints_format_flat (xs : list xfloat) :
  ((length xs mod 34 = 0)%nat ->
   exists frames,
     Loader.normalize_keypoints_format (Loader.Rank1 xs)
     = Some (Loader.Rank3 17 2 frames)
     /\ length frames = (length xs / 34)%nat
     /\ shaped 17 2 frames
     /\ concat (map (@concat xfloat) frames) = xs)
  /\ ((length xs mod 34 <> 0)%nat -> (length xs mod 50 = 0)%nat ->
      exists frames,
        Loader.normalize_keypoints_format (Loader.Rank1 xs)
        = Some (Loader.Rank3 25 2 frames)
        /\ length frames = (length xs / 50)%nat
        /\ shaped 25 2 frames
        /\ concat (map (@concat xfloat) frames) = xs)
  /\ ((length xs mod 34 <> 0)%nat -> (length xs mod 50 <> 0)%nat ->
      Loader.normalize_keypoints_format (Loader.Rank1 xs)
      = Some (Loader.Rank1 xs)
      /\ Loader.convert_to_mediapipe_format (Loader.Rank1 xs) = None).
Proof.
  unfold Loader.normalize_keypoints_format. split; [|split].
  - intro H34. apply Nat.eqb_eq in H34 as E. rewrite E.
    eexists. split; [reflexivity|].
    apply (reshape3_spec (length xs / 34) 17 2).
    apply Nat.Div0.div_exact in H34. lia.
  - intros H34 H50. apply Nat.eqb_neq in H34 as E34.
    apply Nat.eqb_eq in H50 as E50. rewrite E34, E50.
    eexists. split; [reflexivity|].
    apply (reshape3_spec (length xs / 50) 25 2).
    apply Nat.Div0.div_exact in H50. lia.
  - intros H34 H50. apply Nat.eqb_neq in H34, H50.
    rewrite H34, H50. split; reflexivity.
Qed.

Lemma convert_to_mediapipe_format_some (joints coords : nat)
      (frames : list (list (list xfloat))) :
  (coords = 1 \/ coords = 2)%nat ->
  shaped joints coords frames ->
  exists landmarks,
    Loader.convert_to_mediapipe_format (Loader.Rank3 joints coords frames)
    = Some (Loader.Rank3 33 3 landmarks)
    /\ length landmarks = length frames
    /\ shaped 33 3 landmarks.
Proof.
  intros Hc Hs. unfold Loader.convert_to_mediapipe_format.
  assert (E : ((coords =? 2) || (coords =? 1))%nat = true)
    by (destruct Hc as [-> | ->]; reflexivity).
  rewrite E. eexists. split; [reflexivity|].
  destruct (joints =? 17)%nat eqn:Ej.
  - apply Nat.eqb_eq in Ej. subst joints.
    split; [apply length_map|].
    apply (shaped_map 17 coords); [exact Hs | apply map_coco_shape].
  - split; [apply length_map|].
    apply (shaped_map joints coords); [exact Hs | apply map_direct_shape].
Qed.

Lemma shaped_truncate (joints coords : nat)
      (frames : list (list (list xfloat))) :
  (2 <= coords)%nat -> shaped joints coords frames ->
  shaped joints 2 (map (map (firstn 2)) frames).
Proof.
  intros Hc Hs. unfold shaped in *. apply Forall_map.
  eapply Forall_impl; [|exact Hs]. intros frame [Hl Hrows].
  split; [now rewrite length_map|].
  apply Forall_map. eapply Forall_impl; [|exact Hrows].
  intros row Hrow. cbv beta in Hrow. rewrite length_firstn. lia.
Qed.

(** What [load_dance_sequence] does with an array of rank 3. *)
Lemma load_rank3 (filename : string) (joints coords : nat)
      (frames : list (list (list xfloat))) :
  shaped joints coords frames ->
  ((1 <= coords)%nat ->
   exists seq landmarks,
     Loader.load_dance_sequence
       true (Some (Loader.Rank3 joints coords frames)) filename
     = Some (Some seq)
     /\ Loader.keypoints seq = Loader.Rank3 33 3 landmarks
     /\ length landmarks = length frames
     /\ shaped 33 3 landmarks
     /\ Loader.frame_rate seq = 30
     /\ Loader.filename seq = filename)
  /\ (coords = 0%nat ->
      Loader.load_dance_sequence
        true (Some (Loader.Rank3 joints coords frames)) filename = None).
Proof.
  intro Hs. unfold Loader.load_dance_sequence,
              Loader.normalize_keypoints_format. cbn [negb]. split.
  - intro Hc. destruct (2 <? coords)%nat eqn:E2.
    + apply Nat.ltb_lt in E2.
      destruct (convert_to_mediapipe_format_some
                  joints 2 (map (map (firstn 2)) frames))
        as (lm & -> & Hl & Hlm);
        [now right | apply (shaped_truncate joints coords); [lia|exact Hs] |].
      eexists. exists lm. split; [reflexivity|].
      rewrite length_map in Hl. now repeat split.
    + apply Nat.ltb_ge in E2.
      destruct (convert_to_mediapipe_format_some joints coords frames)
        as (lm & -> & Hl & Hlm); [lia | exact Hs |].
      eexists. exists lm. split; [reflexivity|]. now repeat split.
  - intros ->. reflexivity.
Qed.

(** X23.  [load_dance_sequence] returns [None] when the file is missing
    or does not unpickle to an array.  From an array of rank 3, or from
    camera 0 of an array of rank 4, whose joints have at least one
    coordinate, it returns a sequence at 30 frames per second holding one
    frame of 33 landmarks with 3 coordinates for each frame of the
    source.  It raises when the joints have no coordinate, when an array
    of rank 4 has no camera, when a matrix has rows of neither one nor two
    values, and on arrays of rank 0 or above 4. *)
Theorem load_dance_sequence_cases (file_exists : bool)
        (raw : option Loader.ndarray) (filename : string) :
  (file_exists = false \/ raw = None ->
   Loader.load_dance_sequence file_exists raw filename = Some None)
  /\ (file_exists = true ->
      forall joints coords frames,
        (raw = Some (Loader.Rank3 joints coords frames)
         \/ exists cams,
             raw = Some (Loader.Rank4 joints coords (frames :: cams))) ->
        shaped joints coords frames ->
        ((1 <= coords)%nat ->
         exists seq landmarks,
           Loader.load_dance_sequence file_exists raw filename
           = Some (Some seq)
           /\ Loader.keypoints seq = Loader.Rank3 33 3 landmarks
           /\ length landmarks = length frames
           /\ shaped 33 3 landmarks
           /\ Loader.frame_rate seq = 30
           /\ Loader.filename seq = filename)
        /\ (coords = 0%nat ->
            Loader.load_dance_sequence file_exists raw filename = None))
  /\ (file_exists = true ->
      (exists joints coords, raw = Some (Loader.Rank4 joints coords []))
      \/ raw = Some Loader.RankOther
      \/ (exists coords rows,
             raw = Some (Loader.Rank2 coords rows)
             /\ coords <> 1%nat /\ coords <> 2%nat) ->
      Loader.load_dance_sequence file_exists raw filename = None).
Proof.
  split; [|split].
  - intros [-> | ->]; [reflexivity|].
    unfold Loader.load_dance_sequence. now destruct (negb file_exists).
  - intros -> joints coords frames Hraw Hs.
    assert (E : Loader.load_dance_sequence true raw filename
                = Loader.load_dance_sequence
                    true (Some (Loader.Rank3 joints coords frames))
                    filename).
    { destruct Hraw as [-> | (cams & ->)]; reflexivity. }
    rewrite E. now apply load_rank3.
  - intros -> [(joints & coords & ->)|[-> |(coords & rows & -> & H1 & H2)]];
      try reflexivity.
    unfold Loader.load_dance_sequence, Loader.normalize_keypoints_format,
      Loader.convert_to_mediapipe_format. cbn [negb].
    apply Nat.eqb_neq in H1, H2. now rewrite H1, H2.
Qed.

Lemma normalize_keypoints_format_flat_witness :
  exists frames,
    Loader.normalize_keypoints_format (Loader.Rank1 (repeat (Fin 1) 68))
    = Some (Loader.Rank3 17 2 frames)
    /\ length frames = 2%nat.
Proof.
  destruct (proj1 (normalize_keypoints_format_flat (repeat (Fin 1) 68))
                  eq_refl)
    as (frames & E & Hl & _).
  exists frames. split; [exact E | exact Hl].
Defined.

Lemma load_dance_sequence_cases_witness :
  exists seq landmarks,
    Loader.load_dance_sequence
      true (Some (Loader.Rank4 1 3 [[[[Fin 1; Fin 2; Fin 3]]]]))
      "gBR_sBM_cAll_d04_mBR0_ch01.pkl"
    = Some (Some seq)
    /\ Loader.keypoints seq = Loader.Rank3 33 3 landmarks
    /\ length landmarks = 1%nat.
Proof.
  destruct (proj1 (proj2 (load_dance_sequence_cases
                            true
                            (Some (Loader.Rank4
                                     1 3 [[[[Fin 1; Fin 2; Fin 3]]]]))
                            "gBR_sBM_cAll_d04_mBR0_ch01.pkl"))
                  eq_refl 1%nat 3%nat [[[Fin 1; Fin 2; Fin 3]]]
                  (or_intror (ex_intro _ [] eq_refl))
                  ltac:(repeat constructor))
    as [H _].
  destruct (H ltac:(lia)) as (seq & lm & E & Hk & Hl & _).
  exists seq, lm. split; [exact E | split; [exact Hk | exact Hl]].
Defined.

(** ** File names *)

Lemma has_char_app (c : ascii) (s t : string) :
  has_char c (s ++ t) = has_char c s || has_char c t.
Proof.
  induction s as [|d s IH]; simpl; [reflexivity|].
  now rewrite IH, orb_assoc.
Qed.

Lemma remove_pkl_cons (c : ascii) (s : string) :
  Ascii.eqb c "." = false ->
  Loader.remove_pkl (String c s) = String c (Loader.remove_pkl s).
Proof.
  intro Hc.
  destruct c as [[] [] [] [] [] [] [] []];
    try reflexivity; discriminate Hc.
Qed.

Lemma remove_pkl_suffix (s : string) :
  has_char "." s = false -> Loader.remove_pkl (s ++ ".pkl") = s.
Proof.
  induction s as [|c s IH]; intro H; [reflexivity|].
  simpl in H. apply orb_false_iff in H as [Hc Hs].
  change (String c s ++ ".pkl")%string with (String c (s ++ ".pkl")).
  rewrite remove_pkl_cons by exact Hc. now rewrite IH.
Qed.

Lemma split_underscore_nonempty (s : string) :
  Loader.split_underscore s <> [].
Proof.
  destruct s as [|c s]; simpl; [discriminate|].
  destruct (Ascii.eqb c "_"); [discriminate|].
  destruct (Loader.split_underscore s); discriminate.
Qed.

Lemma split_underscore_plain (s : string) :
  has_char "_" s = false -> Loader.split_underscore s = [s].
Proof.
  induction s as [|c s IH]; intro H; [reflexivity|].
  simpl in H. apply orb_false_iff in H as [Hc Hs].
  simpl. rewrite Hc, IH by exact Hs. reflexivity.
Qed.

Lemma split_underscore_app (s t : string) :
  has_char "_" s = false ->
  Loader.split_underscore (s ++ "_" ++ t)
  = s :: Loader.split_underscore t.
Proof.
  induction s as [|c s IH]; intro H; [reflexivity|].
  simpl in H. apply orb_false_iff in H as [Hc Hs].
  change (String c s ++ "_" ++ t)%string
    with (String c (s ++ "_" ++ t)).
  cbn [Loader.split_underscore]. rewrite Hc, IH by exact Hs. reflexivity.
Qed.

Lemma split_join (parts : list string) :
  parts <> [] -> Forall plain parts ->
  Loader.split_underscore (join_underscore parts) = parts
  /\ has_char "." (join_underscore parts) = false.
Proof.
  intros Hne Hall. induction Hall as [|p rest [Hu Hd] Hrest IH];
    [congruence|].
  destruct rest as [|q rest'].
  - simpl. split; [now apply split_underscore_plain | exact Hd].
  - destruct IH as [IH1 IH2]; [discriminate|].
    change (join_underscore (p :: q :: rest'))
      with (p ++ "_" ++ join_underscore (q :: rest'))%string.
    split.
    + rewrite split_underscore_app by exact Hu. now rewrite IH1.
    + rewrite !has_char_app, Hd, IH2. reflexivity.
Qed.

(** X24.  [parse_filename] undoes the naming scheme: for a name made of
    pieces without underscore and dot, joined by underscores and followed
    by [.pkl], the six fields are the six first pieces in order, and a
    field whose piece is missing is [unknown].  The first field is never
    missing. *)
Theorem parse_filename_roundtrip (parts : list string) :
  parts <> [] -> Forall plain parts ->
  let metadata :=
    Loader.parse_filename (join_underscore parts ++ ".pkl") in
  let unknown := "unknown"%string in
  Loader.meta_dance_style metadata = nth 0 parts unknown
  /\ Loader.meta_motion_type metadata = nth 1 parts unknown
  /\ Loader.meta_choreography metadata = nth 2 parts unknown
  /\ Loader.meta_difficulty metadata = nth 3 parts unknown
  /\ Loader.meta_music metadata = nth 4 parts unknown
  /\ Loader.meta_character metadata = nth 5 parts unknown
  /\ In (Loader.meta_dance_style metadata) parts.
Proof.
  intros Hne Hall. cbv zeta.
  destruct (split_join parts Hne Hall) as [Hsplit Hdot].
  unfold Loader.parse_filename.
  rewrite (remove_pkl_suffix _ Hdot), Hsplit.
  assert (Hpart : forall k,
             (if (k <? length parts)%nat then nth k parts EmptyString
              else "unknown"%string)
             = nth k parts "unknown"%string).
  { intro k. destruct (k <? length parts)%nat eqn:E.
    - apply Nat.ltb_lt in E. now apply nth_indep.
    - apply Nat.ltb_ge in E. now rewrite nth_overflow. }
  cbn [Loader.meta_dance_style Loader.meta_motion_type
       Loader.meta_choreography Loader.meta_difficulty Loader.meta_music
       Loader.meta_character].
  rewrite !Hpart. repeat split.
  destruct parts as [|p rest]; [congruence | now left].
Qed.

Lemma parse_filename_roundtrip_witness :
  Loader.meta_difficulty
    (Loader.parse_filename "gBR_sBM_cAll_d04_mBR0_ch01.pkl")
  = "d04"%string.
Proof.
  assert (Hne : ["gBR"; "sBM"; "cAll"; "d04"; "mBR0"; "ch01"]%string <> [])
    by discriminate.
  assert (Hall : Forall plain
                   ["gBR"; "sBM"; "cAll"; "d04"; "mBR0"; "ch01"]%string)
    by (repeat constructor).
  exact (proj1 (proj2 (proj2 (proj2
           (parse_filename_roundtrip _ Hne Hall))))).
Defined.

(** ** The intensity mappings *)

Lemma fold_dict (rows : list (Z * string))
      (acc : list (Z * Sampler.DanceIntensity)) :
  fold_left (fun d '(index, m) =>
               (index, Sampler.intensity_of_letter m) :: d) rows acc
  = rev (map (fun '(index, m) => (index, Sampler.intensity_of_letter m))
             rows) ++ acc.
Proof.
  revert acc. induction rows as [|[i m] rows IH]; intro acc; simpl;
    [reflexivity|].
  rewrite IH, <- app_assoc. reflexivity.
Qed.

Lemma fold_max_spec (l : list Z) :
  forall a,
    (a <= fold_left Z.max l a)%Z
    /\ (forall x, In x l -> (x <= fold_left Z.max l a)%Z)
    /\ (fold_left Z.max l a = a \/ In (fold_left Z.max l a) l).
Proof.
  induction l as [|y l IH]; intro a; simpl.
  - split; [lia|]. split; [intros x []|now left].
  - destruct (IH (Z.max a y)) as (H1 & H2 & H3). split; [lia|]. split.
    + intros x [<-|Hx]; [lia | now apply H2].
    + destruct H3 as [H3|H3]; [|now right; right].
      rewrite H3. destruct (Z.max_spec a y) as [[_ ->]|[_ ->]];
        [right; now left | now left].
Qed.

Lemma dict_get_skip (i : Z) (d1 d2 : list (Z * Sampler.DanceIntensity)) :
  (forall k v, In (k, v) d1 -> k <> i) ->
  Sampler.dict_get i (d1 ++ d2) = Sampler.dict_get i d2.
Proof.
  induction d1 as [|[k v] d1 IH]; intro Hno; simpl; [reflexivity|].
  assert (k <> i) by (apply (Hno k v); now left).
  destruct (Z.eqb_spec k i); [contradiction|].
  apply IH. intros k' v' Hin. apply (Hno k' v'). now right.
Qed.

Lemma in_dict (rows : list (Z * string)) (k : Z)
      (v : Sampler.DanceIntensity) :
  In (k, v)
     (rev (map (fun '(index, m) => (index, Sampler.intensity_of_letter m))
               rows)) ->
  exists m, In (k, m) rows /\ v = Sampler.intensity_of_letter m.
Proof.
  intro Hin. apply in_rev, in_map_iff in Hin as ([i m] & [= <- <-] & Hin).
  now exists m.
Qed.

Lemma lower_single (m : string) (c : ascii) :
  Sampler.lower m = String c EmptyString ->
  exists d, m = String d EmptyString /\ Sampler.lower_ascii d = c.
Proof.
  destruct m as [|d [|e rest]]; simpl; try discriminate.
  intros [= <-]. now exists d.
Qed.

Lemma lower_ascii_h (d : ascii) :
  Sampler.lower_ascii d = "h"%char -> d = "h"%char \/ d = "H"%char.
Proof.
  destruct d as [[] [] [] [] [] [] [] []]; vm_compute;
    intro H; try discriminate H; auto.
Qed.

Lemma lower_ascii_l (d : ascii) :
  Sampler.lower_ascii d = "l"%char -> d = "l"%char \/ d = "L"%char.
Proof.
  destruct d as [[] [] [] [] [] [] [] []]; vm_compute;
    intro H; try discriminate H; auto.
Qed.

(** X25.  The mappings [load_intensity_mappings] builds from the rows of
    the CSV file have one entry for each index from 0 to the greatest
    index of a row.  The entry at an index is given by the last row with
    that index: HIGH for the letter h, LOW for the letter l, in either
    case, and MEDIUM for anything else; an index without a row is
    MEDIUM. *)
Theorem load_intensity_mappings_spec (rows : list (Z * string)) :
  let mappings := Sampler.load_intensity_mappings (Some rows) in
  (forall top m,
      In (top, m) rows ->
      (forall i m', In (i, m') rows -> (i <= top)%Z) ->
      length mappings = Z.to_nat (top + 1))
  /\ (forall front i m back,
         rows = front ++ (i, m) :: back ->
         (forall m', ~ In (i, m') back) ->
         (0 <= i)%Z ->
         nth_error mappings (Z.to_nat i)
         = Some (Sampler.intensity_of_letter m))
  /\ (forall k,
         (k < length mappings)%nat ->
         (forall m, ~ In (Z.of_nat k, m) rows) ->
         nth_error mappings k = Some Sampler.MEDIUM)
  /\ (forall m,
         (Sampler.intensity_of_letter m = Sampler.HIGH
          <-> m = "h"%string \/ m = "H"%string)
         /\ (Sampler.intensity_of_letter m = Sampler.LOW
             <-> m = "l"%string \/ m = "L"%string)).
Proof.
  cbv zeta. unfold Sampler.load_intensity_mappings.
  rewrite fold_dict, app_nil_r.
  set (g := fun '(index, m) => (index, Sampler.intensity_of_letter m)).
  set (d := rev (map g rows)).
  assert (Hkeys : forall k v, In (k, v) d ->
                    exists m, In (k, m) rows
                              /\ v = Sampler.intensity_of_letter m)
    by (intros k v; apply in_dict).
  assert (Hrows : forall k m, In (k, m) rows ->
                    In (k, Sampler.intensity_of_letter m) d).
  { intros k m Hin. unfold d. apply in_rev. rewrite rev_involutive.
    apply in_map_iff. now exists (k, m). }
  assert (Hnth : forall k0 v0 rest k,
             d = (k0, v0) :: rest ->
             (Z.of_nat k <= fold_left Z.max (map fst rest) k0)%Z ->
             nth_error
               (map (fun i =>
                       match Sampler.dict_get (Z.of_nat i) d with
                       | Some intensity => intensity
                       | None => Sampler.MEDIUM
                       end)
                    (seq 0 (Z.to_nat
                              (fold_left Z.max (map fst rest) k0 + 1)))) k
             = Some match Sampler.dict_get (Z.of_nat k) d with
                    | Some intensity => intensity
                    | None => Sampler.MEDIUM
                    end).
  { intros k0 v0 rest k _ Hk. rewrite nth_error_map, nth_error_seq.
    assert (E : (k <? Z.to_nat (fold_left Z.max (map fst rest) k0 + 1))%nat
                = true) by (apply Nat.ltb_lt; lia).
    now rewrite E. }
  assert (Hmax : forall k0 v0 rest,
             d = (k0, v0) :: rest ->
             (forall k v, In (k, v) d ->
                          (k <= fold_left Z.max (map fst rest) k0)%Z)
             /\ exists v, In (fold_left Z.max (map fst rest) k0, v) d).
  { intros k0 v0 rest Ed.
    destruct (fold_max_spec (map fst rest) k0) as (H1 & H2 & H3).
    split.
    - intros k v Hin. rewrite Ed in Hin. destruct Hin as [[= <- <-]|Hin];
        [exact H1|].
      apply H2. apply in_map_iff. now exists (k, v).
    - destruct H3 as [->|H3].
      + exists v0. rewrite Ed. now left.
      + apply in_map_iff in H3 as ([k v] & Hk & Hin). simpl in Hk.
        exists v. rewrite Ed, <- Hk. now right. }
  split; [|split; [|split]].
  - intros top m Hin Htop.
    destruct d as [|[k0 v0] rest] eqn:Ed.
    { exfalso. exact (Hrows top m Hin). }
    destruct (Hmax k0 v0 rest eq_refl) as [Hle (v & Hv)].
    rewrite length_map, length_seq.
    assert (fold_left Z.max (map fst rest) k0 = top); [|congruence].
    apply Z.le_antisymm.
    + destruct (Hkeys _ _ Hv) as (m' & Hm' & _). exact (Htop _ _ Hm').
    + exact (Hle top _ (Hrows top m Hin)).
  - intros front i m back Erows Hlast Hi.
    assert (Hin : In (i, m) rows)
      by (rewrite Erows; apply in_or_app; right; now left).
    destruct d as [|[k0 v0] rest] eqn:Ed.
    { exfalso. exact (Hrows i m Hin). }
    destruct (Hmax k0 v0 rest eq_refl) as [Hle _].
    rewrite (Hnth k0 v0 rest (Z.to_nat i) eq_refl)
      by (rewrite Z2Nat.id by exact Hi; exact (Hle i _ (Hrows i m Hin))).
    rewrite Z2Nat.id by exact Hi. rewrite <- Ed. unfold d.
    rewrite Erows, map_app, rev_app_distr. cbn [map rev].
    rewrite <- app_assoc, dict_get_skip.
    + cbn [app Sampler.dict_get]. unfold g at 1. now rewrite Z.eqb_refl.
    + intros k v Hkv ->. apply in_dict in Hkv as (m' & Hm' & _).
      exact (Hlast m' Hm').
  - intros k Hk Hno.
    destruct d as [|[k0 v0] rest] eqn:Ed; [simpl in Hk; lia|].
    rewrite length_map, length_seq in Hk.
    rewrite (Hnth k0 v0 rest k eq_refl) by lia.
    destruct (Sampler.dict_get (Z.of_nat k) ((k0, v0) :: rest)) as [v|] eqn:Eg;
      [|reflexivity].
    exfalso.
    assert (Hget : forall l, Sampler.dict_get (Z.of_nat k) l = Some v ->
                             In (Z.of_nat k, v) l).
    { induction l as [|[k1 v1] l IH]; simpl; [discriminate|].
      destruct (Z.eqb_spec k1 (Z.of_nat k)) as [->|Hne].
      - intros [= ->]. now left.
      - intro H. right. now apply IH. }
    destruct (Hkeys _ _ (Hget _ Eg)) as (m & Hm & _).
    exact (Hno m Hm).
  - intro m. unfold Sampler.intensity_of_letter. split; split.
    + destruct (String.eqb_spec (Sampler.lower m) "h") as [E|_].
      * intros _. apply lower_single in E as (c & -> & Hc).
        destruct (lower_ascii_h c Hc) as [-> | ->]; auto.
      * destruct (String.eqb (Sampler.lower m) "m"); [discriminate|].
        destruct (String.eqb (Sampler.lower m) "l"); discriminate.
    + intros [-> | ->]; reflexivity.
    + destruct (String.eqb_spec (Sampler.lower m) "h") as [_|_];
        [discriminate|].
      destruct (String.eqb (Sampler.lower m) "m"); [discriminate|].
      destruct (String.eqb_spec (Sampler.lower m) "l") as [E|_];
        [|discriminate].
      intros _. apply lower_single in E as (c & -> & Hc).
      destruct (lower_ascii_l c Hc) as [-> | ->]; auto.
    + intros [-> | ->]; reflexivity.
Qed.

Lemma load_intensity_mappings_spec_witness :
  nth_error
    (Sampler.load_intensity_mappings
       (Some [(0, "h"); (2, "L"); (0, "x")]%Z%string)) 2
  = Some Sampler.LOW.
Proof.
  assert (Hlast : forall m' : string, ~ In (2%Z, m') [(0%Z, "x"%string)]).
  { intros m' [H|[]]. discriminate H. }
  exact (proj1 (proj2 (load_intensity_mappings_spec
                         [(0, "h"); (2, "L"); (0, "x")]%Z%string))
               [(0%Z, "h"%string)] 2%Z "L"%string [(0%Z, "x"%string)]
               eq_refl Hlast ltac:(lia)).
Defined.

(** ** The JSON form of a run *)

Lemma flat_map_singleton {A B} (g : A -> B) (l : list A) :
  flat_map (fun x => [g x]) l = map g l.
Proof.
  induction l as [|x l IH]; simpl; [reflexivity | now rewrite IH].
Qed.

Lemma flat_map_nil {A B} (l : list A) :
  flat_map (fun _ : A => @nil B) l = [].
Proof.
  induction l as [|x l IH]; simpl; [reflexivity | exact IH].
Qed.

Lemma keypoints_list_columns (C : nat) (p : Sampler.Pose) :
  columns C p -> p <> [] ->
  Sampler.keypoints_list p
  = if (2 <=? C)%nat then
      map (fun row =>
             Sampler.mkKeypoint
               (nth 0 row NaN) (nth 1 row NaN)
               (if (2 <? C)%nat then nth 2 row NaN else Fin 0)
               (if (3 <? C)%nat then nth 3 row NaN else Fin 1)) p
    else [].
Proof.
  intros Hc Hne. unfold Sampler.keypoints_list.
  destruct p as [|row rest]; [congruence|].
  inversion Hc as [|? ? Hrow _]; subst.
  destruct (2 <=? length row)%nat.
  - apply flat_map_singleton.
  - apply flat_map_nil.
Qed.

(** X26.  [convert_pose_data_to_json] returns one record for each record
    of the run, in order, with the frame number, the time, the dance
    file, the dance frame and the intensity unchanged.  A record without
    pose stays without pose; a pose of joints with C values each becomes
    a list with one keypoint for each joint when C is at least 2 (x and y
    are the two first values, z is the third or 0.0, the visibility is
    the fourth or 1.0), and the empty list when C is below 2. *)
Theorem convert_pose_data_to_json_spec (pose_sequence : list Sampler.Frame.t) :
  let json := Sampler.convert_pose_data_to_json pose_sequence in
  length json = length pose_sequence
  /\ forall i pose,
      nth_error pose_sequence i = Some pose ->
      exists j,
        nth_error json i = Some j
        /\ Sampler.JsonFrame.frame_number j = Sampler.Frame.frame_number pose
        /\ Sampler.JsonFrame.time j = Sampler.Frame.time pose
        /\ Sampler.JsonFrame.dance_file j = Sampler.Frame.dance_file pose
        /\ Sampler.JsonFrame.dance_frame j = Sampler.Frame.dance_frame pose
        /\ Sampler.JsonFrame.intensity j = Sampler.Frame.intensity pose
        /\ (Sampler.Frame.pose_data pose = None ->
            Sampler.JsonFrame.pose_data j = None)
        /\ forall p C,
            Sampler.Frame.pose_data pose = Some p -> columns C p ->
            exists keypoints,
              Sampler.JsonFrame.pose_data j = Some keypoints
              /\ ((C < 2)%nat -> keypoints = [])
              /\ ((2 <= C)%nat ->
                  length keypoints = length p
                  /\ forall n row,
                      nth_error p n = Some row ->
                      exists k,
                        nth_error keypoints n = Some k
                        /\ Sampler.kx k = nth 0 row NaN
                        /\ Sampler.ky k = nth 1 row NaN
                        /\ Sampler.kz k
                           = (if (C =? 2)%nat then Fin 0 else nth 2 row NaN)
                        /\ Sampler.visibility k
                           = (if (C <=? 3)%nat then Fin 1
                              else nth 3 row NaN)).
Proof.
  cbv zeta. unfold Sampler.convert_pose_data_to_json.
  split; [apply length_map|].
  intros i pose Hi. rewrite nth_error_map, Hi. cbn [option_map].
  eexists. split; [reflexivity|].
  cbn [Sampler.JsonFrame.frame_number Sampler.JsonFrame.time
       Sampler.JsonFrame.dance_file Sampler.JsonFrame.dance_frame
       Sampler.JsonFrame.intensity Sampler.JsonFrame.pose_data].
  do 5 (split; [reflexivity|]).
  split; [now intros ->|].
  intros p C -> Hc. eexists. split; [reflexivity|].
  destruct p as [|row0 rest] eqn:Ep.
  { split; [reflexivity|]. intros _. split; [reflexivity|].
    intros [|n] row; discriminate. }
  rewrite <- Ep in *.
  rewrite (keypoints_list_columns C p Hc) by (rewrite Ep; discriminate).
  split.
  - intro HC. apply Nat.leb_gt in HC. now rewrite HC.
  - intro HC. apply Nat.leb_le in HC as E. rewrite E.
    split; [apply length_map|].
    intros n row Hn. rewrite nth_error_map, Hn. cbn [option_map].
    eexists. split; [reflexivity|].
    cbn [Sampler.kx Sampler.ky Sampler.kz Sampler.visibility].
    split; [reflexivity|]. split; [reflexivity|]. split.
    + destruct (Nat.eqb_spec C 2) as [->|Hne]; [reflexivity|].
      assert (E2 : (2 <? C)%nat = true) by (apply Nat.ltb_lt; lia).
      now rewrite E2.
    + destruct (Nat.leb_spec C 3) as [H3|H3].
      * assert (E3 : (3 <? C)%nat = false) by (apply Nat.ltb_ge; lia).
        now rewrite E3.
      * assert (E3 : (3 <? C)%nat = true) by (apply Nat.ltb_lt; lia).
        now rewrite E3.
Qed.

(** ** The box of a normalized pose *)

Lemma col_In (k : nat) (p : Scorer.Pose) (row : list Q) :
  In row p -> In (nth k row 0) (col k p).
Proof.
  intro Hin. unfold col. apply in_map_iff. now exists row.
Qed.

Lemma In_col (k : nat) (p : Scorer.Pose) (v : Q) :
  In v (col k p) -> exists row, In row p /\ nth k row 0 = v.
Proof.
  unfold col. intro Hin. apply in_map_iff in Hin as (row & E & Hin).
  now exists row.
Qed.

(** X27.  For a pose whose coordinates are finite numbers, and in exact
    arithmetic: when two valid joints differ in y, [normalize_pose] puts
    the valid joints in a box of height 1 around 0: the normalized y of
    every valid joint lies in [-1/2, 1/2], and both bounds are reached.
    (In binary64 the bounds hold up to rounding only: for y in
    {0.1, 0.2} the lower joint comes out one unit in the last place below
    -1/2.) *)
Theorem normalize_pose_unit_height (pose : Scorer.ndarray) (C : nat) :
  let rows := Scorer.at_least_2d pose in
  rect C rows -> (2 <= C)%nat ->
  (exists r1 r2,
      In r1 rows /\ In r2 rows
      /\ joint_valid r1 = true /\ joint_valid r2 = true
      /\ nth 1 r1 0 < nth 1 r2 0) ->
  exists out,
    Scorer.normalize_pose pose = Some out
    /\ length out = length rows
    /\ (forall i row,
           nth_error rows i = Some row -> joint_valid row = true ->
           - (1 # 2) <= nth 1 (nth i out []) 0 <= 1 # 2)
    /\ (exists i row,
           nth_error rows i = Some row /\ joint_valid row = true
           /\ nth 1 (nth i out []) 0 == 1 # 2)
    /\ (exists i row,
           nth_error rows i = Some row /\ joint_valid row = true
           /\ nth 1 (nth i out []) 0 == - (1 # 2)).
Proof.
  intros rows Hr HC (r1 & r2 & Hin1 & Hin2 & Hv1 & Hv2 & Hlt).
  set (valid := filter joint_valid rows).
  assert (Hval1 : In r1 valid) by (apply filter_In; now split).
  assert (Hval2 : In r2 valid) by (apply filter_In; now split).
  assert (Hne : valid <> []) by (intro E; rewrite E in Hval1; exact Hval1).
  assert (Hrv : rect C valid) by (apply rect_filter; assumption).
  destruct (min_coords_spec C valid Hrv Hne) as [Hlmin Hmin].
  destruct (max_coords_spec C valid Hrv Hne) as [Hlmax Hmax].
  set (lo := Scorer.min_coords valid) in *.
  set (hi := Scorer.max_coords valid) in *.
  destruct (Hmin 1%nat ltac:(lia)) as [Hlo_in Hlo].
  destruct (Hmax 1%nat ltac:(lia)) as [Hhi_in Hhi].
  set (lo1 := nth 1 lo 0) in *. set (hi1 := nth 1 hi 0) in *.
  assert (Hpos : 0 < hi1 - lo1).
  { pose proof (Hlo _ (col_In 1 valid r1 Hval1)).
    pose proof (Hhi _ (col_In 1 valid r2 Hval2)). lra. }
  assert (Hheight : Scorer.bbox_height lo hi = hi1 - lo1).
  { unfold Scorer.bbox_height. fold lo1 hi1.
    destruct (Qeq_bool (hi1 - lo1) 0) eqn:E; [|reflexivity].
    apply Qeq_bool_iff in E. lra. }
  assert (Hcenter : nth 1 (Scorer.bbox_center lo hi) 0 = (lo1 + hi1) / 2).
  { unfold Scorer.bbox_center. rewrite nth_map2 by lia. reflexivity. }
  assert (Hlc : length (Scorer.bbox_center lo hi) = C).
  { unfold Scorer.bbox_center. rewrite length_map2; lia. }
  assert (Hnorm : Scorer.normalize_pose pose
                  = Some (Scorer.center_and_scale
                            (Scorer.bbox_center lo hi)
                            (Scorer.bbox_height lo hi) rows)).
  { unfold Scorer.normalize_pose. fold rows.
    destruct rows as [|r0 rest] eqn:Erows; [destruct Hin1|].
    rewrite (valid_mask_rect C) by assumption.
    destruct (existsb (fun b => b) (map joint_valid (r0 :: rest))) eqn:E;
      [|apply existsb_mask in E; contradiction].
    simpl negb. cbv iota. rewrite select_rows_filter. reflexivity. }
  assert (Hy : forall i row,
             nth_error rows i = Some row ->
             nth 1 (nth i (Scorer.center_and_scale
                             (Scorer.bbox_center lo hi)
                             (Scorer.bbox_height lo hi) rows) []) 0
             = (nth 1 row 0 - (lo1 + hi1) / 2) / (hi1 - lo1)).
  { intros i row Hi. unfold Scorer.center_and_scale.
    assert (Hrow : length row = C).
    { unfold rect in Hr. rewrite Forall_forall in Hr.
      exact (Hr row (nth_error_In _ _ Hi)). }
    set (F := fun r : list Q =>
                Scorer.map2 (fun x c => (x - c) / Scorer.bbox_height lo hi)
                            r (Scorer.bbox_center lo hi)).
    assert (E : nth_error (map F rows) i = Some (F row))
      by (rewrite nth_error_map, Hi; reflexivity).
    rewrite (nth_error_nth _ _ [] E). unfold F.
    rewrite nth_map2 by lia. now rewrite Hcenter, Hheight. }
  assert (Hbounds : forall row, In row valid ->
                      lo1 <= nth 1 row 0 <= hi1).
  { intros row Hin. split; [apply Hlo | apply Hhi]; now apply col_In. }
  exists (Scorer.center_and_scale (Scorer.bbox_center lo hi)
                                  (Scorer.bbox_height lo hi) rows).
  split; [exact Hnorm|]. split.
  { unfold Scorer.center_and_scale. apply length_map. }
  clear Hheight Hcenter Hlo Hhi.
  assert (Ehalf : (lo1 + hi1) / 2 == (lo1 + hi1) * (1 # 2)) by field.
  clearbody lo1 hi1.
  split; [|split].
  - intros i row Hi Hv. rewrite (Hy i row Hi).
    destruct (Hbounds row) as [B1 B2].
    { apply filter_In. split; [exact (nth_error_In _ _ Hi) | exact Hv]. }
    split.
    + apply Qle_shift_div_l; [exact Hpos | rewrite Ehalf; lra].
    + apply Qle_shift_div_r; [exact Hpos | rewrite Ehalf; lra].
  - destruct (In_col 1 valid hi1 Hhi_in) as (row & Hin & Erow).
    apply filter_In in Hin as [Hin Hv].
    destruct (In_nth_error _ _ Hin) as (i & Hi).
    exists i, row. split; [exact Hi|]. split; [exact Hv|].
    rewrite (Hy i row Hi), Erow. field. lra.
  - destruct (In_col 1 valid lo1 Hlo_in) as (row & Hin & Erow).
    apply filter_In in Hin as [Hin Hv].
    destruct (In_nth_error _ _ Hin) as (i & Hi).
    exists i, row. split; [exact Hi|]. split; [exact Hv|].
    rewrite (Hy i row Hi), Erow. field. lra.
Qed.

Lemma normalize_pose_unit_height_witness :
  exists out,
    Scorer.normalize_pose (Scorer.Arr2 [[1; 1]; [0; 0]; [2; 5]]) = Some out
    /\ length out = 3%nat.
Proof.
  assert (Hr : rect 2 (Scorer.at_least_2d
                         (Scorer.Arr2 [[1; 1]; [0; 0]; [2; 5]])))
    by (repeat constructor).
  assert (Hv : exists r1 r2,
             In r1 (Scorer.at_least_2d
                      (Scorer.Arr2 [[1; 1]; [0; 0]; [2; 5]]))
             /\ In r2 (Scorer.at_least_2d
                         (Scorer.Arr2 [[1; 1]; [0; 0]; [2; 5]]))
             /\ joint_valid r1 = true /\ joint_valid r2 = true
             /\ nth 1 r1 0 < nth 1 r2 0).
  { exists [1; 1], [2; 5]. split; [now left|].
    split; [right; right; now left|].
    split; [reflexivity|]. split; reflexivity. }
  destruct (normalize_pose_unit_height
              (Scorer.Arr2 [[1; 1]; [0; 0]; [2; 5]]) 2 Hr (le_n 2) Hv)
    as (out & E & Hl & _).
  exists out. split; [exact E | exact Hl].
Defined.

(** In binary64 the box is a unit in the last place off: with the valid
    joints at y = 0.1 and y = 0.2 the height is 0.1 and the centre
    0.15000000000000002, and the two joints come out at
    -0.50000000000000011 and 0.49999999999999989. *)
Section Binary64Height.

Import PrimFloat.

Lemma binary64_unit_height :
  let lo := PrimFloat.div 1 10 in
  let hi := PrimFloat.div 2 10 in
  Binary64.to_Q (Binary64.normalized_y lo lo hi)
  = Some (Qred (- (1 # 2) - 2 ^ (-53)))
  /\ Binary64.to_Q (Binary64.normalized_y hi lo hi)
     = Some (Qred ((1 # 2) - 2 ^ (-53))).
Proof. split; vm_compute; reflexivity. Qed.

End Binary64Height.

(** ** Timing *)








